(** * NoisePage front end: binder and query-to-operator transformer

    A shallow embedding of the parts of
      - [src/binder/bind_node_visitor.cpp]            (BindNodeVisitor)
      - [src/optimizer/query_to_operator_transformer.cpp]
        (QueryToOperatorTransformer)
    that decide the properties stated at the end of this file.

    Conventions.
      - A C++ exception is a value of [Exception]; a function that can
        throw returns a [result].  Member state that a visitor threads
        through its calls ([output_expr_], [predicates_], the sherpa, the
        catalog accessor's temporary-oid counter) is passed explicitly.
      - A [std::vector] is a [list]; a possibly-null pointer is an [option].
        Reading past the end of a vector, dereferencing a null pointer or
        reading the wrong alternative of a [std::variant] is reported as
        [UndefinedBehaviour] so that no theorem silently depends on it.
      - [int64_t] values are [Z]; a [double] is a [spec_float] (sign,
        mantissa, exponent), so that its conversion to [int64_t] is exact
        integer arithmetic. *)

From Stdlib Require Import ZArith List String Ascii Bool Lia Arith.
From Stdlib Require Import DecimalString.
From Stdlib Require Import Floats.SpecFloat.
Import ListNotations.

Local Open Scope string_scope.
Local Open Scope Z_scope.

(* ===================================================================== *)
(** ** Errors *)
(* ===================================================================== *)

Module common.

(** [common::ErrorCode]: the codes that the modelled functions use. *)
Inductive ErrorCode : Set :=
| ERRCODE_SUCCESSFUL_COMPLETION
| ERRCODE_FEATURE_NOT_SUPPORTED
| ERRCODE_SYNTAX_ERROR
| ERRCODE_UNDEFINED_COLUMN
| ERRCODE_UNDEFINED_TABLE
| ERRCODE_UNDEFINED_DATABASE
| ERRCODE_UNDEFINED_FUNCTION
| ERRCODE_DATATYPE_MISMATCH
| ERRCODE_NUMERIC_VALUE_OUT_OF_RANGE
| ERRCODE_INVALID_SCHEMA_DEFINITION
| ERRCODE_DUPLICATE_ALIAS
| ERRCODE_DUPLICATE_OBJECT
| ERRCODE_AMBIGUOUS_COLUMN.

End common.
Export common.

(** The exception classes thrown by the two visitors
    ([BINDER_EXCEPTION], [NOT_IMPLEMENTED_EXCEPTION], [OPTIMIZER_EXCEPTION]),
    [std::out_of_range] of [vector::at], the failures that C++ leaves
    undefined, and exhaustion of the nesting budget of
    [optimizer.Visit]. *)
Inductive Exception : Type :=
| BinderException (what : string) (code_ : ErrorCode)
| NotImplementedException (what : string)
| OptimizerException (what : string)
| StdOutOfRange (what : string)
| UndefinedBehaviour (what : string)
| OutOfFuel.

Inductive result (A : Type) : Type :=
| Ok (a : A)
| Err (e : Exception).
Arguments Ok {A} a.
Arguments Err {A} e.

Definition BINDER_EXCEPTION {A} (what : string) (code : ErrorCode) : result A :=
  Err (BinderException what code).
Definition NOT_IMPLEMENTED_EXCEPTION {A} (what : string) : result A :=
  Err (NotImplementedException what).
Definition OPTIMIZER_EXCEPTION {A} (what : string) : result A :=
  Err (OptimizerException what).

Definition bindR {A B} (c : result A) (k : A -> result B) : result B :=
  match c with
  | Ok a => k a
  | Err e => Err e
  end.

Declare Scope result_scope.
Delimit Scope result_scope with result.
Notation "x <- c ;; k" := (bindR c (fun x => k))
  (at level 100, c at next level, right associativity) : result_scope.
Notation "' p <- c ;; k" := (bindR c (fun x => match x with p => k end))
  (at level 100, p pattern, c at next level, right associativity) : result_scope.
Notation "c ;;; k" := (bindR c (fun _ => k))
  (at level 100, right associativity) : result_scope.
Local Open Scope result_scope.

(** A null pointer that the source dereferences without a test. *)
Definition deref {A} (what : string) (p : option A) : result A :=
  match p with
  | Some a => Ok a
  | None => Err (UndefinedBehaviour what)
  end.

(** [for (x : xs) body(x)] where the body can throw: left to right, the
  first exception ends the loop. *)
Fixpoint mapR {A B} (f : A -> result B) (xs : list A) : result (list B) :=
  match xs with
  | [] => Ok []
  | x :: xs' => y <- f x ;; ys <- mapR f xs' ;; Ok (y :: ys)
  end.

(** [for (x : xs) body(x)] where the body updates the state of the visitor
    and can throw. *)
Fixpoint mapS {A B S : Type} (f : A -> S -> result (B * S)) (xs : list A) (s : S)
  : result (list B * S) :=
  match xs with
  | [] => Ok ([], s)
  | x :: xs' =>
      '(y, s1) <- f x s ;;
      '(ys, s2) <- mapS f xs' s1 ;;
      Ok (y :: ys, s2)
  end.

(** [std::find(first, last, x)] and [std::distance(first, it)]: the index
    of the first element equal to [x]. *)
Fixpoint find_index (x : string) (xs : list string) : option nat :=
  match xs with
  | [] => None
  | y :: xs' =>
      if String.eqb y x then Some O
      else match find_index x xs' with
           | Some i => Some (S i)
           | None => None
           end
  end.

(** [v.at(i)]. *)
Definition at_ {A} (v : list A) (i : nat) : result A :=
  match nth_error v i with
  | Some a => Ok a
  | None => Err (StdOutOfRange "vector::at")
  end.

(** The error kinds of the specification (its section 7), and the kind
  under which each exception of the code is reported.  A binder exception
  is reported under its error code; [NOT_IMPLEMENTED_EXCEPTION] carries
  no code and is the kind [NotImplemented]. *)
Inductive ErrorKind : Set :=
| UndefinedTable | UndefinedColumn | UndefinedFunction | DuplicateAlias
| DuplicateObject | AmbiguousColumn | DatatypeMismatch | NumericValueOutOfRange
| SchemaMismatch | SyntaxError | FeatureNotSupported | NotImplemented.

Definition kind_of_code (c : ErrorCode) : option ErrorKind :=
  match c with
  | ERRCODE_FEATURE_NOT_SUPPORTED => Some FeatureNotSupported
  | ERRCODE_SYNTAX_ERROR => Some SyntaxError
  | ERRCODE_UNDEFINED_COLUMN => Some UndefinedColumn
  | ERRCODE_UNDEFINED_TABLE => Some UndefinedTable
  | ERRCODE_UNDEFINED_FUNCTION => Some UndefinedFunction
  | ERRCODE_DATATYPE_MISMATCH => Some DatatypeMismatch
  | ERRCODE_NUMERIC_VALUE_OUT_OF_RANGE => Some NumericValueOutOfRange
  | ERRCODE_INVALID_SCHEMA_DEFINITION => Some SchemaMismatch
  | ERRCODE_DUPLICATE_ALIAS => Some DuplicateAlias
  | ERRCODE_DUPLICATE_OBJECT => Some DuplicateObject
  | ERRCODE_AMBIGUOUS_COLUMN => Some AmbiguousColumn
  | ERRCODE_SUCCESSFUL_COMPLETION | ERRCODE_UNDEFINED_DATABASE => None
  end.

Definition kind_of (e : Exception) : option ErrorKind :=
  match e with
  | BinderException _ c => kind_of_code c
  | NotImplementedException _ => Some NotImplemented
  | OptimizerException _ | StdOutOfRange _ | UndefinedBehaviour _ | OutOfFuel => None
  end.

(** [r] is a failure reported under kind [k]. *)
Definition fails_with {A} (r : result A) (k : ErrorKind) : Prop :=
  exists e, r = Err e /\ kind_of e = Some k.

(* ===================================================================== *)
(** ** Strings *)
(* ===================================================================== *)

(** [std::to_string] on [size_t] and on [int64_t]. *)
Definition to_string_size (n : nat) : string :=
  NilEmpty.string_of_uint (Nat.to_uint n).
Definition to_string_int64 (z : Z) : string :=
  NilEmpty.string_of_int (Z.to_int z).

(** The character written as a backslash-escaped quote in the C++ literals. *)
Definition dquote : string := String (ascii_of_nat 34) EmptyString.

(** [needle] occurs in [hay]. *)
Definition contains (hay needle : string) : Prop :=
  exists pre post, hay = pre ++ needle ++ post.

(* ===================================================================== *)
(** ** SQL types and values ([execution::sql]) *)
(* ===================================================================== *)

Module sql.

(** [execution::sql::SqlTypeId]; its members are written [SqlTypeId.Integer]
    and so on, as [SqlTypeId::Integer] in the source. *)
Module SqlTypeId.
Inductive t : Set :=
| Invalid | Boolean | TinyInt | SmallInt | Integer | BigInt | Real | Double
| Decimal | Date | Timestamp | Varchar | Varbinary.

Definition eq_dec (a b : t) : {a = b} + {a <> b}.
Proof. decide equality. Defined.

Definition eqb (a b : t) : bool := if eq_dec a b then true else false.
End SqlTypeId.

(** [sql::Integer] and [sql::Real]: a null flag and the payload [val_]. *)
Record Integer : Set := { int_is_null_ : bool; int_val_ : Z }.
Record Real : Set := { real_is_null_ : bool; real_val_ : spec_float }.

(** The alternatives of [ConstantValueExpression::value_]. *)
Inductive Value : Set :=
| V_Val (is_null_ : bool)
| V_BoolVal (is_null_ : bool) (val_ : bool)
| V_Integer (i : Integer)
| V_Real (r : Real)
| V_DecimalVal (is_null_ : bool) (val_ : Z)
| V_StringVal (is_null_ : bool) (val_ : string)
| V_DateVal (is_null_ : bool) (val_ : Z)
| V_TimestampVal (is_null_ : bool) (val_ : Z).

Definition INT64_MIN : Z := - 2 ^ 63.
Definition INT64_MAX : Z := 2 ^ 63 - 1.

(** The implicit conversion [int64_t column_id = real.val_]: the value is
    truncated toward zero; the conversion is undefined when the truncated
    value is not representable or the double is not finite. *)
Definition truncate (f : spec_float) : option Z :=
  match f with
  | S754_zero _ => Some 0
  | S754_finite s m e =>
      let mag := if 0 <=? e then Z.pos m * 2 ^ e else Z.pos m / 2 ^ (- e) in
      Some (if s then - mag else mag)
  | S754_infinity _ | S754_nan => None
  end.

Definition double_to_int64 (f : spec_float) : result Z :=
  match truncate f with
  | Some z =>
      if (INT64_MIN <=? z) && (z <=? INT64_MAX) then Ok z
      else Err (UndefinedBehaviour "double to int64_t out of range")
  | None => Err (UndefinedBehaviour "double to int64_t of a non-finite value")
  end.

End sql.
Export sql.


(* ===================================================================== *)
(** ** The syntax tree ([parser]) *)
(* ===================================================================== *)

Module parser.

(** [parser::ExpressionType]. *)
Inductive ExpressionType : Set :=
| INVALID
| OPERATOR_UNARY_MINUS | OPERATOR_PLUS | OPERATOR_MINUS | OPERATOR_MULTIPLY
| OPERATOR_DIVIDE | OPERATOR_CONCAT | OPERATOR_MOD | OPERATOR_CAST
| OPERATOR_NOT | OPERATOR_IS_NULL | OPERATOR_IS_NOT_NULL | OPERATOR_EXISTS
| COMPARE_EQUAL | COMPARE_NOT_EQUAL | COMPARE_LESS_THAN | COMPARE_GREATER_THAN
| COMPARE_LESS_THAN_OR_EQUAL_TO | COMPARE_GREATER_THAN_OR_EQUAL_TO
| COMPARE_LIKE | COMPARE_NOT_LIKE | COMPARE_IN | COMPARE_IS_DISTINCT_FROM
| CONJUNCTION_AND | CONJUNCTION_OR
| COLUMN_VALUE
| VALUE_CONSTANT | VALUE_PARAMETER | VALUE_TUPLE | VALUE_DEFAULT
| AGGREGATE_COUNT | AGGREGATE_SUM | AGGREGATE_MIN | AGGREGATE_MAX
| AGGREGATE_AVG | AGGREGATE_TOP_K | AGGREGATE_HISTOGRAM
| FUNCTION | ROW_SUBQUERY | STAR | TABLE_STAR.

Definition ExpressionType_eq_dec (a b : ExpressionType) : {a = b} + {a <> b}.
Proof. decide equality. Defined.

Definition ExpressionType_eqb (a b : ExpressionType) : bool :=
  if ExpressionType_eq_dec a b then true else false.

(** [parser::AliasType]: a name and a serial number that is valid once it
    has been assigned. *)
Record AliasType : Set := {
  name_ : string;
  serial_no_ : N;
  serial_valid_ : bool
}.

(** [AliasType(name, serial_no)] and [AliasType(name)]. *)
Definition MakeAlias (name : string) (serial_no : N) : AliasType :=
  {| name_ := name; serial_no_ := serial_no; serial_valid_ := true |}.
Definition MakeAliasNoSerial (name : string) : AliasType :=
  {| name_ := name; serial_no_ := 0%N; serial_valid_ := false |}.

(** Modelled from the spec: [AliasType::Empty] (its header is not among the
    sources): a name is unavailable when it is the empty string. *)
Definition Empty (a : AliasType) : bool :=
  if string_dec (name_ a) "" then true else false.

Inductive JoinType : Set := JT_INVALID | LEFT | RIGHT | INNER | OUTER | SEMI.
Inductive OrderType : Set := kOrderAsc | kOrderDesc.
Inductive CteType : Set :=
| CTE_INVALID | SIMPLE | ITERATIVE | RECURSIVE | STRUCTURALLY_ITERATIVE
| STRUCTURALLY_RECURSIVE.

Record LimitDescription : Set := { limit_ : Z; offset_ : Z }.

Record TableInfo : Set := {
  table_name_ : string;
  namespace_name_ : string;
  database_name_ : string
}.

(** The fields of the base class [AbstractExpression] other than its
    children. *)
Record ExpressionBase : Set := {
  expression_type_ : ExpressionType;
  expression_name_ : string;
  alias_ : AliasType;
  return_value_type_ : SqlTypeId.t;
  depth_ : Z;
  has_subquery_ : bool
}.

(** Expressions, SELECT statements and table references refer to each
    other.  An expression is its dynamic class (with the members that the
    class adds), the base-class fields and the children; the class decides
    which [Visit] overload [Accept] calls, the field [expression_type_] is
    what [GetExpressionType] returns. *)
#[local] Unset Elimination Schemes.
Inductive AbstractExpression : Set :=
| Expression (cls : ExpressionClass) (base : ExpressionBase)
    (children_ : list AbstractExpression)
with ExpressionClass : Set :=
| ConstantValueExpression (value_ : Value)
| ColumnValueExpression (table_alias_ : AliasType) (column_name_ : string)
    (database_oid_ table_oid_ column_oid_ : N)
| SubqueryExpression (subselect_ : SelectStatement)
| ComparisonExpression
| ConjunctionExpression
| OperatorExpression
| AggregateExpression (distinct_ : bool)
| TypeCastExpression
| DefaultValueExpression
| FunctionExpression (func_name_ : string)
| ParameterValueExpression (value_idx_ : N)
| DerivedValueExpression
| StarExpression
| TableStarExpression
with SelectStatement : Set :=
| Select
    (select_ : list AbstractExpression)
    (select_distinct_ : bool)
    (from_ : option TableRef)
    (where_ : option AbstractExpression)
    (group_by_ : option GroupByDescription)
    (order_by_ : option OrderByDescription)
    (limit_ : option LimitDescription)
    (union_select_ : option SelectStatement)
    (depth_ : Z)
    (with_table_ : list TableRef)
with TableRef : Set :=
| MkTableRef
    (alias_ : AliasType)
    (table_info_ : option TableInfo)
    (select_ : option SelectStatement)
    (cte_col_aliases_ : list AliasType)
    (cte_type_ : CteType)
    (list_ : list TableRef)
    (join_ : option JoinDefinition)
with JoinDefinition : Set :=
| MkJoin (type_ : JoinType) (left_ right_ : TableRef)
    (condition_ : option AbstractExpression)
with GroupByDescription : Set :=
| MkGroupBy (columns_ : list AbstractExpression)
    (having_ : option AbstractExpression)
with OrderByDescription : Set :=
| MkOrderBy (types_ : list OrderType) (exprs_ : list AbstractExpression).
#[local] Set Elimination Schemes.

(** *** Accessors of [AbstractExpression] *)

Definition GetClass (e : AbstractExpression) : ExpressionClass :=
  match e with Expression c _ _ => c end.
Definition GetBase (e : AbstractExpression) : ExpressionBase :=
  match e with Expression _ b _ => b end.
Definition GetChildren (e : AbstractExpression) : list AbstractExpression :=
  match e with Expression _ _ cs => cs end.
Definition GetExpressionType (e : AbstractExpression) : ExpressionType :=
  expression_type_ (GetBase e).
Definition GetExpressionName (e : AbstractExpression) : string :=
  expression_name_ (GetBase e).
Definition GetAlias (e : AbstractExpression) : AliasType :=
  alias_ (GetBase e).
Definition GetReturnValueType (e : AbstractExpression) : SqlTypeId.t :=
  return_value_type_ (GetBase e).
Definition GetDepth (e : AbstractExpression) : Z :=
  depth_ (GetBase e).
Definition HasSubquery (e : AbstractExpression) : bool :=
  has_subquery_ (GetBase e).
Definition GetChildrenSize (e : AbstractExpression) : nat :=
  List.length (GetChildren e).

(** [GetChild(i)] indexes the vector of children without a bounds check. *)
Definition GetChild (e : AbstractExpression) (i : nat) : result AbstractExpression :=
  deref "GetChild: index out of range" (nth_error (GetChildren e) i).

Definition WithBase (e : AbstractExpression) (b : ExpressionBase) : AbstractExpression :=
  match e with Expression c _ cs => Expression c b cs end.
Definition WithChildren (e : AbstractExpression) (cs : list AbstractExpression)
  : AbstractExpression :=
  match e with Expression c b _ => Expression c b cs end.

Definition SetAlias (e : AbstractExpression) (a : AliasType) : AbstractExpression :=
  let b := GetBase e in
  WithBase e {| expression_type_ := expression_type_ b;
                expression_name_ := expression_name_ b;
                alias_ := a;
                return_value_type_ := return_value_type_ b;
                depth_ := depth_ b;
                has_subquery_ := has_subquery_ b |}.

Definition SetExpressionType (e : AbstractExpression) (t : ExpressionType)
  : AbstractExpression :=
  let b := GetBase e in
  WithBase e {| expression_type_ := t;
                expression_name_ := expression_name_ b;
                alias_ := alias_ b;
                return_value_type_ := return_value_type_ b;
                depth_ := depth_ b;
                has_subquery_ := has_subquery_ b |}.

(** [v[i] = x] on a vector; writing past the end is undefined. *)
Fixpoint vector_set {A} (v : list A) (i : nat) (x : A) : result (list A) :=
  match v, i with
  | [], _ => Err (UndefinedBehaviour "vector index out of range")
  | _ :: v', O => Ok (x :: v')
  | y :: v', S i' => v'' <- vector_set v' i' x ;; Ok (y :: v'')
  end.

Definition SetChild (e : AbstractExpression) (i : nat) (c : AbstractExpression)
  : result AbstractExpression :=
  cs <- vector_set (GetChildren e) i c ;; Ok (WithChildren e cs).

(** [ConstantValueExpression::GetInteger] and [GetReal]: [std::get] on the
    variant [value_]. *)
Definition GetInteger (e : AbstractExpression) : result Integer :=
  match GetClass e with
  | ConstantValueExpression (V_Integer i) => Ok i
  | _ => Err (UndefinedBehaviour "Invalid variant type for Get.")
  end.
Definition GetReal (e : AbstractExpression) : result Real :=
  match GetClass e with
  | ConstantValueExpression (V_Real r) => Ok r
  | _ => Err (UndefinedBehaviour "Invalid variant type for Get.")
  end.

(** [ConstantValueExpression(type, Val(true))]: the NULL constant of a
    type, with the base-class fields as the base constructor leaves them. *)
Definition NullConstant (type : SqlTypeId.t) : AbstractExpression :=
  Expression (ConstantValueExpression (V_Val true))
    {| expression_type_ := VALUE_CONSTANT;
       expression_name_ := "";
       alias_ := MakeAliasNoSerial "";
       return_value_type_ := type;
       depth_ := -1;
       has_subquery_ := false |}
    [].

(** *** Accessors of the statements *)

Definition GetSelectColumns (s : SelectStatement) : list AbstractExpression :=
  match s with Select c _ _ _ _ _ _ _ _ _ => c end.
Definition IsSelectDistinct (s : SelectStatement) : bool :=
  match s with Select _ d _ _ _ _ _ _ _ _ => d end.
Definition GetSelectTable (s : SelectStatement) : option TableRef :=
  match s with Select _ _ f _ _ _ _ _ _ _ => f end.
Definition GetSelectCondition (s : SelectStatement) : option AbstractExpression :=
  match s with Select _ _ _ w _ _ _ _ _ _ => w end.
Definition GetSelectGroupBy (s : SelectStatement) : option GroupByDescription :=
  match s with Select _ _ _ _ g _ _ _ _ _ => g end.
Definition GetSelectOrderBy (s : SelectStatement) : option OrderByDescription :=
  match s with Select _ _ _ _ _ o _ _ _ _ => o end.
Definition GetSelectLimit (s : SelectStatement) : option LimitDescription :=
  match s with Select _ _ _ _ _ _ l _ _ _ => l end.
Definition GetUnionSelect (s : SelectStatement) : option SelectStatement :=
  match s with Select _ _ _ _ _ _ _ u _ _ => u end.
Definition GetSelectDepth (s : SelectStatement) : Z :=
  match s with Select _ _ _ _ _ _ _ _ d _ => d end.
Definition GetSelectWith (s : SelectStatement) : list TableRef :=
  match s with Select _ _ _ _ _ _ _ _ _ w => w end.

Definition GetTableAlias (t : TableRef) : AliasType :=
  match t with MkTableRef a _ _ _ _ _ _ => a end.
Definition GetTableInfo (t : TableRef) : option TableInfo :=
  match t with MkTableRef _ i _ _ _ _ _ => i end.
Definition GetSelect (t : TableRef) : option SelectStatement :=
  match t with MkTableRef _ _ s _ _ _ _ => s end.
Definition GetCteColumnAliases (t : TableRef) : list AliasType :=
  match t with MkTableRef _ _ _ c _ _ _ => c end.
Definition GetCteType (t : TableRef) : CteType :=
  match t with MkTableRef _ _ _ _ c _ _ => c end.
Definition GetList (t : TableRef) : list TableRef :=
  match t with MkTableRef _ _ _ _ _ l _ => l end.
Definition GetJoin (t : TableRef) : option JoinDefinition :=
  match t with MkTableRef _ _ _ _ _ _ j => j end.

(** [TableRef::GetTableName] reads through [table_info_]. *)
Definition GetTableName (t : TableRef) : result string :=
  i <- deref "GetTableName: table_info_ is null" (GetTableInfo t) ;;
  Ok (table_name_ i).

Definition GetLimit (l : LimitDescription) : Z := parser.limit_ l.
Definition GetOffset (l : LimitDescription) : Z := offset_ l.

Definition GetColumns (g : GroupByDescription) : list AbstractExpression :=
  match g with MkGroupBy c _ => c end.
Definition GetHaving (g : GroupByDescription) : option AbstractExpression :=
  match g with MkGroupBy _ h => h end.
Definition GetOrderByTypes (o : OrderByDescription) : list OrderType :=
  match o with MkOrderBy t _ => t end.
Definition GetOrderByExpressions (o : OrderByDescription) : list AbstractExpression :=
  match o with MkOrderBy _ e => e end.

Definition SetSelectColumns (s : SelectStatement) (cols : list AbstractExpression)
  : SelectStatement :=
  match s with Select _ d f w g o l u dp wt => Select cols d f w g o l u dp wt end.

Definition SetName (a : AliasType) (name : string) : AliasType :=
  {| name_ := name; serial_no_ := serial_no_ a; serial_valid_ := serial_valid_ a |}.

Definition SetTableAlias (t : TableRef) (a : AliasType) : TableRef :=
  match t with MkTableRef _ i s c ct l j => MkTableRef a i s c ct l j end.
Definition SetSelect (t : TableRef) (s : SelectStatement) : TableRef :=
  match t with MkTableRef a i _ c ct l j => MkTableRef a i (Some s) c ct l j end.
Definition SetList (t : TableRef) (l : list TableRef) : TableRef :=
  match t with MkTableRef a i s c ct _ j => MkTableRef a i s c ct l j end.
Definition SetJoin (t : TableRef) (j : JoinDefinition) : TableRef :=
  match t with MkTableRef a i s c ct l _ => MkTableRef a i s c ct l (Some j) end.

Definition SetSelectWith (s : SelectStatement) (w : list TableRef) : SelectStatement :=
  match s with Select c d f wh g o l u dp _ => Select c d f wh g o l u dp w end.
Definition SetSelectTable (s : SelectStatement) (f : option TableRef)
  : SelectStatement :=
  match s with Select c d _ wh g o l u dp w => Select c d f wh g o l u dp w end.
Definition SetSelectCondition (s : SelectStatement) (wh : option AbstractExpression)
  : SelectStatement :=
  match s with Select c d f _ g o l u dp w => Select c d f wh g o l u dp w end.
Definition SetSelectGroupBy (s : SelectStatement) (g : option GroupByDescription)
  : SelectStatement :=
  match s with Select c d f wh _ o l u dp w => Select c d f wh g o l u dp w end.
Definition SetSelectOrderBy (s : SelectStatement) (o : option OrderByDescription)
  : SelectStatement :=
  match s with Select c d f wh g _ l u dp w => Select c d f wh g o l u dp w end.
Definition SetUnionSelect (s : SelectStatement) (u : option SelectStatement)
  : SelectStatement :=
  match s with Select c d f wh g o l _ dp w => Select c d f wh g o l u dp w end.

(** [::tolower] over the characters of a name. *)
Definition tolower_ascii (c : ascii) : ascii :=
  let n := nat_of_ascii c in
  if (Nat.leb 65 n && Nat.leb n 90)%bool then ascii_of_nat (n + 32) else c.
Fixpoint tolower (s : string) : string :=
  match s with
  | EmptyString => EmptyString
  | String c s' => String (tolower_ascii c) (tolower s')
  end.

(** [AbstractExpression::Copy]: a deep copy; a value is its own copy. *)
Definition Copy (e : AbstractExpression) : AbstractExpression := e.

(** [parser::InsertStatement]. *)
Inductive InsertType : Set := VALUES | SELECT.

Record InsertStatement : Set := {
  type_ : InsertType;
  columns_ : list string;
  table_ref_ : TableRef;
  select_ : option SelectStatement;
  insert_values_ : list (list AbstractExpression)
}.

Definition GetInsertColumns (n : InsertStatement) : list string := columns_ n.
Definition GetInsertionTable (n : InsertStatement) : TableRef := table_ref_ n.
Definition GetInsertSelect (n : InsertStatement) : option SelectStatement :=
  select_ n.
Definition GetValues (n : InsertStatement) : list (list AbstractExpression) :=
  insert_values_ n.

End parser.
Export parser.

(* ===================================================================== *)
(** ** The catalog ([catalog]) *)
(* ===================================================================== *)

Module catalog.

(** [catalog::Schema::Column]. *)
Record Column : Set := {
  Name : string;
  Type_ : SqlTypeId.t;
  Nullable : bool;
  Oid : N;
  StoredExpression : AbstractExpression
}.

Record Schema : Set := { GetColumns : list Column }.

Definition INVALID_DATABASE_OID : N := 0%N.
Definition INVALID_TABLE_OID : N := 0%N.

(** The catalog accessor as the binder uses it: name lookups, and the
    counter behind [GetNewTempOid].

    Modelled from the spec: the accessor's source is not among the files;
    the specification asks of it name lookup to an id or an invalid-id
    sentinel and the generation of process-unique temporary ids, which is a
    counter here. *)
Record CatalogAccessor : Type := {
  GetDatabaseOid : string -> N;
  GetTableOid : string -> N;
  GetSchema : N -> Schema;
  next_temp_oid_ : N
}.

Definition GetNewTempOid (a : CatalogAccessor) : N * CatalogAccessor :=
  (next_temp_oid_ a,
   {| GetDatabaseOid := GetDatabaseOid a;
      GetTableOid := GetTableOid a;
      GetSchema := GetSchema a;
      next_temp_oid_ := N.succ (next_temp_oid_ a) |}).

End catalog.
Export catalog.

(* ===================================================================== *)
(** ** The binder ([binder::BindNodeVisitor]) *)
(* ===================================================================== *)

Module binder.

(** *** ORDER BY unification ([BindNodeVisitor::UnifyOrderByExpression]) *)

(** The body of the loop, for the entry [e = exprs[idx]]; the result is the
    new value of [exprs[idx]]. *)
Definition UnifyOrderByExpression_entry
  (select_items : list AbstractExpression) (e : AbstractExpression)
  : result AbstractExpression :=
  if ExpressionType_eqb (GetExpressionType e) VALUE_CONSTANT then
    let type := GetReturnValueType e in
    column_id <-
      match type with
      | SqlTypeId.TinyInt | SqlTypeId.SmallInt | SqlTypeId.Integer
      | SqlTypeId.BigInt =>
          i <- GetInteger e ;; Ok (int_val_ i)
      | SqlTypeId.Double =>
          r <- GetReal e ;; double_to_int64 (real_val_ r)
      | _ =>
          BINDER_EXCEPTION "non-integer constant in ORDER BY" ERRCODE_SYNTAX_ERROR
      end ;;
    if (column_id <? 1) || (column_id >? Z.of_nat (List.length select_items)) then
      BINDER_EXCEPTION
        ("ORDER BY position " ++ dquote ++ to_string_int64 column_id ++ dquote
         ++ " is not in select list")
        ERRCODE_UNDEFINED_COLUMN
    else
      deref "select_items[column_id - 1]"
        (nth_error select_items (Z.to_nat (column_id - 1)))
  else if ExpressionType_eqb (GetExpressionType e) COLUMN_VALUE then
    match GetClass e with
    | ColumnValueExpression table_alias column_name _ _ _ =>
        let table_name := name_ table_alias in
        if String.eqb table_name "" && negb (String.eqb column_name "") then
          match find (fun s => String.eqb (GetExpressionName s) column_name)
                  select_items with
          | Some select_expression => Ok select_expression
          | None => Ok e
          end
        else Ok e
    | _ => Err (UndefinedBehaviour "cast to ColumnValueExpression")
    end
  else Ok e.

Definition UnifyOrderByExpression
  (order_by_description : OrderByDescription)
  (select_items : list AbstractExpression) : result OrderByDescription :=
  exprs <- mapR (UnifyOrderByExpression_entry select_items)
             (GetOrderByExpressions order_by_description) ;;
  Ok (MkOrderBy (GetOrderByTypes order_by_description) exprs).

(** *** UNION ([Visit(SelectStatement)], the block after the select list) *)



(** *** WITH column aliases ([Visit(SelectStatement)], the CTE loop) *)

(** First loop, [i < num_aliases]: the alias given for the column, with a
    fresh serial number. *)
Fixpoint alias_given (column_aliases : list AliasType)
  (columns : list AbstractExpression) (accessor : CatalogAccessor)
  : result (list (AbstractExpression * AliasType) * CatalogAccessor) :=
  match column_aliases, columns with
  | [], _ => Ok ([], accessor)
  | a :: column_aliases', c :: columns' =>
      let (serial_no, accessor1) := GetNewTempOid accessor in
      let new_alias := MakeAlias (name_ a) serial_no in
      '(rest, accessor2) <- alias_given column_aliases' columns' accessor1 ;;
      Ok ((SetAlias c new_alias, new_alias) :: rest, accessor2)
  | _ :: _, [] => Err (UndefinedBehaviour "columns[i]")
  end.

(** Second loop, [num_aliases <= i < num_columns]: the name of the
    expression, or the placeholder. *)
Fixpoint alias_synthesized (columns : list AbstractExpression)
  (accessor : CatalogAccessor)
  : list (AbstractExpression * AliasType) * CatalogAccessor :=
  match columns with
  | [] => ([], accessor)
  | c :: columns' =>
      let (serial_no, accessor1) := GetNewTempOid accessor in
      let new_alias := MakeAlias (GetExpressionName c) serial_no in
      let new_alias :=
        if Empty new_alias then MakeAlias "?column?" serial_no else new_alias in
      let (rest, accessor2) := alias_synthesized columns' accessor1 in
      ((SetAlias c new_alias, new_alias) :: rest, accessor2)
  end.

(** The reconciliation of the aliases of [WITH ref(column_aliases) AS
    (SELECT sel_cols ...)].  The result is the select columns with their
    aliases set, the new [ref->cte_col_aliases_] and the accessor. *)
Definition ReconcileCteColumnAliases (ref : TableRef)
  (sel_cols : list AbstractExpression) (accessor : CatalogAccessor)
  : result (list AbstractExpression * list AliasType * CatalogAccessor) :=
  let column_aliases := GetCteColumnAliases ref in
  let columns := sel_cols in
  let num_aliases := List.length column_aliases in
  let num_columns := List.length columns in
  if (num_columns <? num_aliases)%nat then
    BINDER_EXCEPTION
      ("WITH query " ++ name_ (GetTableAlias ref) ++ " has "
       ++ to_string_size num_columns ++ " columns available but "
       ++ to_string_size num_aliases ++ " specified")
      ERRCODE_INVALID_SCHEMA_DEFINITION
  else
    '(given, accessor1) <-
       alias_given column_aliases (firstn num_aliases columns) accessor ;;
    let (synthesized, accessor2) :=
      alias_synthesized (skipn num_aliases columns) accessor1 in
    Ok (map fst (given ++ synthesized), map snd (given ++ synthesized), accessor2).

(** *** INSERT ([Visit(InsertStatement)], [ValidateAndCorrectInsertValues]) *)

(** The sherpa as [ValidateAndCorrectInsertValues] uses it: the table of
    desired types (the latest entry first) and the expressions that the
    parse result owns. *)
Record BinderSherpa : Set := {
  desired_expr_types_ : list (AbstractExpression * SqlTypeId.t);
  parse_result_expressions_ : list AbstractExpression
}.

Record BindNodeVisitor : Type := {
  sherpa_ : BinderSherpa;
  catalog_accessor_ : CatalogAccessor;
  db_oid_ : N
}.

Definition SetDesiredType (v : BindNodeVisitor) (e : AbstractExpression)
  (type : SqlTypeId.t) : BindNodeVisitor :=
  {| sherpa_ :=
       {| desired_expr_types_ := (e, type) :: desired_expr_types_ (sherpa_ v);
          parse_result_expressions_ := parse_result_expressions_ (sherpa_ v) |};
     catalog_accessor_ := catalog_accessor_ v;
     db_oid_ := db_oid_ v |}.

Definition AddExpression (v : BindNodeVisitor) (e : AbstractExpression)
  : BindNodeVisitor :=
  {| sherpa_ :=
       {| desired_expr_types_ := desired_expr_types_ (sherpa_ v);
          parse_result_expressions_ :=
            parse_result_expressions_ (sherpa_ v) ++ [e] |};
     catalog_accessor_ := catalog_accessor_ v;
     db_oid_ := db_oid_ v |}.

(** Modelled from the spec: [BinderContext::ColumnInSchema] (its source is
    not among the files): the schema has a column of that name. *)
Definition ColumnInSchema (schema : Schema) (col_name : string) : bool :=
  existsb (fun c => String.eqb (Name c) col_name) (GetColumns schema).

Definition InitTableRef (node : TableRef) : TableRef :=
  match node with
  | MkTableRef a None s c ct l j =>
      MkTableRef a
        (Some {| table_name_ := ""; namespace_name_ := ""; database_name_ := "" |})
        s c ct l j
  | _ => node
  end.

Definition ValidateDatabaseName (v : BindNodeVisitor) (db_name : string)
  : result unit :=
  if negb (String.eqb db_name "") then
    let db_oid := GetDatabaseOid (catalog_accessor_ v) db_name in
    if N.eqb db_oid INVALID_DATABASE_OID then
      BINDER_EXCEPTION
        ("Database " ++ dquote ++ db_name ++ dquote ++ " does not exist")
        ERRCODE_UNDEFINED_DATABASE
    else if negb (N.eqb db_oid (db_oid_ v)) then
      BINDER_EXCEPTION "cross-database references are not implemented: "
        ERRCODE_FEATURE_NOT_SUPPORTED
    else Ok tt
  else Ok tt.

Section Insert.

(** What the source takes from files that are not among the sources:
    - [Accept]: [ins_val->Accept(this)], the binder's visit of a value
      expression under the desired types recorded in the sherpa; it
      updates the expression in place and can throw;
    - [ExprEq]: [AbstractExpression::operator==];
    - [VisitSelectStatement]: the binding of the SELECT of an
      INSERT ... SELECT;
    - [TableMapping]: [context_->AddRegularTable(...)] followed by
      [context_->GetTableMapping(table_name)], which yields the schema of
      the target table. *)
Variable Accept :
  AbstractExpression -> BindNodeVisitor ->
  result (AbstractExpression * BindNodeVisitor).
Variable ExprEq : AbstractExpression -> AbstractExpression -> bool.
Variable VisitSelectStatement :
  SelectStatement -> BindNodeVisitor -> result (SelectStatement * BindNodeVisitor).
Variable TableMapping :
  BindNodeVisitor -> TableInfo -> AliasType -> result Schema.

(** The body of [for (auto &schema_col : table_schema.GetColumns())] when
    insert columns were specified: the pair pushed on [cols]. *)
Definition schema_ordered_entry (insert_columns : list string)
  (values : list AbstractExpression) (schema_col : Column) (v : BindNodeVisitor)
  : result ((Column * AbstractExpression) * BindNodeVisitor) :=
  match find_index (Name schema_col) insert_columns with
  | Some index =>
      value <- deref "values[index]" (nth_error values index) ;;
      Ok ((schema_col, value), v)
  | None =>
      let null_ex := NullConstant (Type_ schema_col) in
      if negb (ExprEq (StoredExpression schema_col) null_ex) then
        let cur_value := Copy (StoredExpression schema_col) in
        Ok ((schema_col, cur_value), AddExpression v cur_value)
      else if Nullable schema_col then
        Ok ((schema_col, null_ex), AddExpression v null_ex)
      else
        BINDER_EXCEPTION
          "Column not present, does not have a default and is non-nullable."
          ERRCODE_SYNTAX_ERROR
  end.

(** The body of the loop over [cols] that validates the types; the result
    is the new element [i] of [values]. *)
Definition validate_entry (col : Column * AbstractExpression) (v : BindNodeVisitor)
  : result (AbstractExpression * BindNodeVisitor) :=
  let ins_col := fst col in
  let ins_val := snd col in
  let ret_type := GetReturnValueType ins_val in
  let expected_ret_type := Type_ ins_col in
  let v := SetDesiredType v ins_val expected_ret_type in
  let is_default_expression :=
    ExpressionType_eqb (GetExpressionType ins_val) VALUE_DEFAULT in
  let '(ins_val, v) :=
    if is_default_expression then
      let stored_expr := Copy (StoredExpression ins_col) in
      (stored_expr,
       AddExpression (SetDesiredType v stored_expr (Type_ ins_col)) stored_expr)
    else (ins_val, v) in
  let is_cast_expression :=
    ExpressionType_eqb (GetExpressionType ins_val) OPERATOR_CAST in
  '(ins_val, v) <-
    (if is_cast_expression then
       if negb (SqlTypeId.eqb ret_type expected_ret_type) then
         BINDER_EXCEPTION
           "BindNodeVisitor tried to cast, but cast result type does not match the schema."
           ERRCODE_NUMERIC_VALUE_OUT_OF_RANGE
       else
         child0 <- GetChild ins_val 0 ;;
         let child := Copy child0 in
         Ok (child, AddExpression (SetDesiredType v child expected_ret_type) child)
     else Ok (ins_val, v)) ;;
  Accept ins_val v.

Definition ValidateAndCorrectInsertValues (node : InsertStatement)
  (values : list AbstractExpression) (table_schema : Schema) (v : BindNodeVisitor)
  : result (list AbstractExpression * BindNodeVisitor) :=
  let insert_columns := GetInsertColumns node in
  let num_schema_columns := List.length (GetColumns table_schema) in
  let num_insert_columns := List.length insert_columns in
  let num_values := List.length values in
  let is_insert_cols_specified := negb (Nat.eqb num_insert_columns 0) in
  let insert_cols_ok :=
    is_insert_cols_specified && Nat.eqb num_values num_insert_columns in
  let insert_schema_ok :=
    negb is_insert_cols_specified && Nat.eqb num_values num_schema_columns in
  if negb (insert_cols_ok || insert_schema_ok) then
    BINDER_EXCEPTION
      "Mismatch in number of insert columns and number of insert values."
      ERRCODE_SYNTAX_ERROR
  else
    '(cols, v) <-
      (if Nat.eqb num_insert_columns 0 then
         (* the tuple values are already schema ordered *)
         Ok (combine (firstn num_values (GetColumns table_schema)) values, v)
       else
         mapS (schema_ordered_entry insert_columns values)
           (GetColumns table_schema) v) ;;
    (* here the vector [values] is [map snd cols] on both paths *)
    mapS validate_entry cols v.

Definition SetInsertColumns (node : InsertStatement) (cols : list string)
  : InsertStatement :=
  {| type_ := type_ node; columns_ := cols; table_ref_ := table_ref_ node;
     select_ := select_ node; insert_values_ := insert_values_ node |}.
Definition SetInsertValues (node : InsertStatement)
  (rows : list (list AbstractExpression)) : InsertStatement :=
  {| type_ := type_ node; columns_ := columns_ node; table_ref_ := table_ref_ node;
     select_ := select_ node; insert_values_ := rows |}.
Definition SetInsertSelect (node : InsertStatement) (s : SelectStatement)
  : InsertStatement :=
  {| type_ := type_ node; columns_ := columns_ node; table_ref_ := table_ref_ node;
     select_ := Some s; insert_values_ := insert_values_ node |}.

Definition SetInsertionTable (node : InsertStatement) (table : TableRef)
  : InsertStatement :=
  {| type_ := type_ node; columns_ := columns_ node; table_ref_ := table;
     select_ := select_ node; insert_values_ := insert_values_ node |}.

Definition Visit_InsertStatement (node : InsertStatement) (v : BindNodeVisitor)
  : result (InsertStatement * BindNodeVisitor) :=
  (* [InitTableRef] writes [table_info_] in the table reference of the
     statement *)
  let node := SetInsertionTable node (InitTableRef (GetInsertionTable node)) in
  let table := GetInsertionTable node in
  info <- deref "table_info_" (GetTableInfo table) ;;
  ValidateDatabaseName v (database_name_ info) ;;;
  table_schema <- TableMapping v info (GetTableAlias table) ;;
  (* Test that all the insert columns exist. *)
  mapR (fun col =>
          if negb (ColumnInSchema table_schema col) then
            BINDER_EXCEPTION "Insert column does not exist" ERRCODE_UNDEFINED_COLUMN
          else Ok tt)
       (GetInsertColumns node) ;;;
  '(node, v) <-
    match GetInsertSelect node with
    | Some select =>   (* INSERT FROM SELECT *)
        '(select, v) <- VisitSelectStatement select v ;;
        let select_cols := GetSelectColumns select in
        '(select_cols, v) <-
          ValidateAndCorrectInsertValues node select_cols table_schema v ;;
        Ok (SetInsertSelect node (SetSelectColumns select select_cols), v)
    | None =>          (* RAW INSERT *)
        '(rows, v) <-
          mapS (fun values => ValidateAndCorrectInsertValues node values table_schema)
            (GetValues node) v ;;
        Ok (SetInsertValues node rows, v)
    end ;;
  (* The final list of insert columns will always be the full list. *)
  let cols := GetColumns table_schema in
  Ok (SetInsertColumns node (map Name cols), v).

End Insert.

End binder.

(* ===================================================================== *)
(** ** The logical operator tree ([optimizer]) *)
(* ===================================================================== *)

Module optimizer.

Inductive OrderByOrderingType : Set := ASC | DESC.

(** [AnnotatedExpression]: a predicate and the table aliases it refers to
    (an unordered set; kept in the order of insertion). *)
Record AnnotatedExpression : Set := {
  expr_ : AbstractExpression;
  table_alias_set_ : list AliasType
}.

(** The logical operators that the modelled visits build, each with the
    arguments of its [Make]. *)
Inductive Operator : Type :=
| LogicalGet (database_oid table_oid : N) (predicates : list AnnotatedExpression)
    (table_alias : AliasType) (is_for_update : bool)
| LogicalQueryDerivedGet (table_alias : AliasType)
    (alias_to_expr_map : list (AliasType * AbstractExpression))
| LogicalFilter (predicates : list AnnotatedExpression)
| LogicalInnerJoin (join_predicates : list AnnotatedExpression)
| LogicalLeftJoin (join_predicates : list AnnotatedExpression)
| LogicalRightJoin (join_predicates : list AnnotatedExpression)
| LogicalOuterJoin (join_predicates : list AnnotatedExpression)
| LogicalSemiJoin (join_predicates : list AnnotatedExpression)
| LogicalMarkJoin
| LogicalSingleJoin
| LogicalAggregateAndGroupBy (columns : list AbstractExpression)
| LogicalLimit (offset limit : Z) (sort_exprs : list AbstractExpression)
    (sort_directions : list OrderByOrderingType)
| LogicalCteScan (table_alias table_name : string) (table_oid : N)
    (table_schema : Schema) (child_expressions : list (list AbstractExpression))
    (cte_type : CteType) (scan_predicate : list AnnotatedExpression)
| LogicalUnion (is_all : bool) (left_expr right_expr : SelectStatement).

(** [LogicalGet::Make()], the placeholder of a SELECT without FROM. *)
Definition LogicalGet_Make : Operator :=
  LogicalGet INVALID_DATABASE_OID INVALID_TABLE_OID [] (MakeAliasNoSerial "") false.

(** [OperatorNode]: the contents and the children; a child is a
    [std::unique_ptr] and can be null. *)
#[local] Unset Elimination Schemes.
Inductive OperatorNode : Type :=
| MkOperatorNode (contents : Operator) (children : list (option OperatorNode)).
#[local] Set Elimination Schemes.

Definition Contents (n : OperatorNode) : Operator :=
  match n with MkOperatorNode c _ => c end.
Definition GetNodeChildren (n : OperatorNode) : list (option OperatorNode) :=
  match n with MkOperatorNode _ cs => cs end.
Definition PushChild (n : OperatorNode) (c : option OperatorNode) : OperatorNode :=
  match n with MkOperatorNode o cs => MkOperatorNode o (cs ++ [c]) end.

(** The members of [QueryToOperatorTransformer]. *)
Record QueryToOperatorTransformer : Type := {
  output_expr_ : option OperatorNode;
  predicates_ : list AnnotatedExpression;
  cte_table_name_ : list string;
  cte_type_ : list CteType;
  cte_oids_ : list N;
  cte_schemas_ : list Schema;
  cte_expressions_ : list (list (list AbstractExpression));
  accessor_ : CatalogAccessor;
  db_oid_ : N
}.

Definition set_output_expr (t : QueryToOperatorTransformer)
  (o : option OperatorNode) : QueryToOperatorTransformer :=
  {| output_expr_ := o; predicates_ := predicates_ t;
     cte_table_name_ := cte_table_name_ t; cte_type_ := cte_type_ t;
     cte_oids_ := cte_oids_ t; cte_schemas_ := cte_schemas_ t;
     cte_expressions_ := cte_expressions_ t; accessor_ := accessor_ t;
     db_oid_ := db_oid_ t |}.

Definition set_predicates (t : QueryToOperatorTransformer)
  (p : list AnnotatedExpression) : QueryToOperatorTransformer :=
  {| output_expr_ := output_expr_ t; predicates_ := p;
     cte_table_name_ := cte_table_name_ t; cte_type_ := cte_type_ t;
     cte_oids_ := cte_oids_ t; cte_schemas_ := cte_schemas_ t;
     cte_expressions_ := cte_expressions_ t; accessor_ := accessor_ t;
     db_oid_ := db_oid_ t |}.

Definition set_accessor (t : QueryToOperatorTransformer)
  (a : CatalogAccessor) : QueryToOperatorTransformer :=
  {| output_expr_ := output_expr_ t; predicates_ := predicates_ t;
     cte_table_name_ := cte_table_name_ t; cte_type_ := cte_type_ t;
     cte_oids_ := cte_oids_ t; cte_schemas_ := cte_schemas_ t;
     cte_expressions_ := cte_expressions_ t; accessor_ := a;
     db_oid_ := db_oid_ t |}.

(** [std::move(output_expr_)]: the tree, and the visitor without it. *)
Definition move_output_expr (t : QueryToOperatorTransformer)
  : option OperatorNode * QueryToOperatorTransformer :=
  (output_expr_ t, set_output_expr t None).

(** The visits that a visit of a child node dispatches to; [Accept] on a
    statement, table reference, join or expression goes through them. *)
Record Visitors : Type := {
  visit_select :
    SelectStatement -> QueryToOperatorTransformer ->
    result (SelectStatement * QueryToOperatorTransformer);
  visit_table_ref :
    TableRef -> QueryToOperatorTransformer ->
    result (TableRef * QueryToOperatorTransformer);
  visit_join :
    JoinDefinition -> QueryToOperatorTransformer ->
    result (JoinDefinition * QueryToOperatorTransformer);
  visit_expression :
    AbstractExpression -> QueryToOperatorTransformer ->
    result (AbstractExpression * QueryToOperatorTransformer)
}.

(** What the transformer takes from files that are not among the sources:
    - [GetAggregateExprs]: [parser::ExpressionUtil::GetAggregateExprs], the
      aggregate expressions inside an expression;
    - [MakeTempOid]: [catalog::MakeTempOid];
    - [ExpressionTypeCode]: the integer value of an [ExpressionType]. *)
Record Collaborators : Type := {
  GetAggregateExprs : AbstractExpression -> list AbstractExpression;
  MakeTempOid : N -> N;
  ExpressionTypeCode : ExpressionType -> nat
}.

(** *** Predicate utilities *)

(** [SplitPredicates]: the conjuncts of a tree of AND nodes, in order. *)
Fixpoint SplitPredicates (expr : AbstractExpression) : list AbstractExpression :=
  match expr with
  | Expression _ base children =>
      if ExpressionType_eqb (expression_type_ base) CONJUNCTION_AND then
        (fix loop (cs : list AbstractExpression) : list AbstractExpression :=
           match cs with
           | [] => []
           | child :: cs' => (SplitPredicates child ++ loop cs')%list
           end) children
      else [expr]
  end.

(** [SplitPredicates] on a pointer that can be null. *)
Definition SplitPredicates_ptr (expr : option AbstractExpression)
  : list AbstractExpression :=
  match expr with
  | None => []
  | Some e => SplitPredicates e
  end.

Definition AliasType_eq_dec (a b : AliasType) : {a = b} + {a <> b}.
Proof. decide equality; try apply Bool.bool_dec; try apply N.eq_dec; apply string_dec. Defined.

(** [std::unordered_set::insert]. *)
Definition set_insert (a : AliasType) (s : list AliasType) : list AliasType :=
  if in_dec AliasType_eq_dec a s then s else (s ++ [a])%list.

Fixpoint GenerateTableAliasSet (expr : AbstractExpression)
  (table_alias_set : list AliasType) : result (list AliasType) :=
  match expr with
  | Expression cls base children =>
      if ExpressionType_eqb (expression_type_ base) COLUMN_VALUE then
        match cls with
        | ColumnValueExpression table_alias _ _ _ _ =>
            Ok (set_insert table_alias table_alias_set)
        | _ => Err (UndefinedBehaviour "cast to ColumnValueExpression")
        end
      else
        (fix loop (cs : list AbstractExpression) (s : list AliasType)
           : result (list AliasType) :=
           match cs with
           | [] => Ok s
           | child :: cs' =>
               s' <- GenerateTableAliasSet child s ;; loop cs' s'
           end) children table_alias_set
  end.

Definition ExtractPredicates (expr : option AbstractExpression)
  : result (list AnnotatedExpression) :=
  let predicates := SplitPredicates_ptr expr in
  mapR (fun predicate =>
          table_alias_set <- GenerateTableAliasSet predicate [] ;;
          Ok {| expr_ := predicate; table_alias_set_ := table_alias_set |})
       predicates.

Definition is_plain_comparison (t : ExpressionType) : bool :=
  match t with
  | COMPARE_EQUAL | COMPARE_NOT_EQUAL | COMPARE_GREATER_THAN
  | COMPARE_GREATER_THAN_OR_EQUAL_TO | COMPARE_LESS_THAN
  | COMPARE_LESS_THAN_OR_EQUAL_TO => true
  | _ => false
  end.

Definition IsSupportedConjunctivePredicate (expr : AbstractExpression)
  : result bool :=
  if negb (HasSubquery expr) then Ok true
  else
    let expr_type := GetExpressionType expr in
    (* Subquery with IN *)
    in_ok <-
      (if ExpressionType_eqb expr_type COMPARE_IN then
         c0 <- GetChild expr 0 ;;
         if negb (ExpressionType_eqb (GetExpressionType c0) ROW_SUBQUERY) then
           c1 <- GetChild expr 1 ;;
           Ok (ExpressionType_eqb (GetExpressionType c1) ROW_SUBQUERY)
         else Ok false
       else Ok false) ;;
    if in_ok then Ok true
    else
      (* Subquery with EXIST *)
      exists_ok <-
        (if ExpressionType_eqb expr_type OPERATOR_EXISTS then
           c0 <- GetChild expr 0 ;;
           Ok (ExpressionType_eqb (GetExpressionType c0) ROW_SUBQUERY)
         else Ok false) ;;
      if exists_ok then Ok true
      else if is_plain_comparison expr_type then
        (* Supported if one child is subquery and the other is not *)
        c0 <- GetChild expr 0 ;;
        first <-
          (if negb (HasSubquery c0) then
             c1 <- GetChild expr 1 ;;
             Ok (ExpressionType_eqb (GetExpressionType c1) ROW_SUBQUERY)
           else Ok false) ;;
        if first then Ok true
        else
          c1 <- GetChild expr 1 ;;
          if negb (HasSubquery c1) then
            Ok (ExpressionType_eqb (GetExpressionType c0) ROW_SUBQUERY)
          else Ok false
      else Ok false.

(** [std::unordered_map::operator[]] followed by an assignment. *)
Fixpoint map_assign (m : list (AliasType * AbstractExpression))
  (k : AliasType) (x : AbstractExpression) : list (AliasType * AbstractExpression) :=
  match m with
  | [] => [(k, x)]
  | (k', x') :: m' =>
      if AliasType_eq_dec k' k then (k, x) :: m' else (k', x') :: map_assign m' k x
  end.

Definition ConstructSelectElementMap (select_list : list AbstractExpression)
  : result (list (AliasType * AbstractExpression)) :=
  fold_left
    (fun res expr =>
       res <- res ;;
       if negb (Empty (GetAlias expr)) then
         Ok (map_assign res (GetAlias expr) expr)
       else if ExpressionType_eqb (GetExpressionType expr) COLUMN_VALUE then
         match GetClass expr with
         | ColumnValueExpression _ column_name _ _ _ =>
             Ok (map_assign res (MakeAliasNoSerial column_name) expr)
         | _ => Err (UndefinedBehaviour "cast to ColumnValueExpression")
         end
       else Ok res)
    select_list (Ok []).

(** *** Aggregation and sub-selects *)

Definition RequireAggregation (D : Collaborators) (op : SelectStatement)
  : result bool :=
  match GetSelectGroupBy op with
  | Some _ => Ok true
  | None =>
      (* Check plain aggregation *)
      let '(has_aggregation, has_other_exprs) :=
        fold_left
          (fun (flags : bool * bool) expr =>
             let '(has_aggregation, has_other_exprs) := flags in
             match GetAggregateExprs D expr with
             | _ :: _ => (true, has_other_exprs)
             | [] => (has_aggregation, true)
             end)
          (GetSelectColumns op) (false, false) in
      if has_aggregation && has_other_exprs then
        OPTIMIZER_EXCEPTION
          "Non aggregation expression must appear in the GROUP BY clause or be used in an aggregate function"
      else Ok has_aggregation
  end.

(** The body of the loop of [IsSupportedSubSelect] for the conjunct
    [pred]: [Ok false] is [return false], [Ok true] goes on with the next
    conjunct. *)
Definition IsSupportedSubSelect_conjunct (op_depth : Z) (pred : AbstractExpression)
  : result bool :=
  if GetDepth pred <? op_depth then
    if negb (ExpressionType_eqb (GetExpressionType pred) COMPARE_EQUAL) then
      Ok false
    else
      (* "outer_relation.a = (expr with only columns in inner relation)" *)
      c1 <- GetChild pred 1 ;;
      first <-
        (if GetDepth c1 =? op_depth then
           c0 <- GetChild pred 0 ;;
           Ok (ExpressionType_eqb (GetExpressionType c0) COLUMN_VALUE)
         else Ok false) ;;
      if first then Ok true
      else
        c0 <- GetChild pred 0 ;;
        if GetDepth c0 =? op_depth then
          Ok (ExpressionType_eqb (GetExpressionType c1) COLUMN_VALUE)
        else Ok false
  else Ok true.

Fixpoint IsSupportedSubSelect_loop (op_depth : Z) (predicates : list AbstractExpression)
  : result bool :=
  match predicates with
  | [] => Ok true
  | pred :: predicates' =>
      ok <- IsSupportedSubSelect_conjunct op_depth pred ;;
      if ok then IsSupportedSubSelect_loop op_depth predicates' else Ok false
  end.

Definition IsSupportedSubSelect (D : Collaborators) (op : SelectStatement)
  : result bool :=
  aggregates <- RequireAggregation D op ;;
  if negb aggregates then Ok true
  else
    let predicates := SplitPredicates_ptr (GetSelectCondition op) in
    IsSupportedSubSelect_loop (GetSelectDepth op) predicates.

(** *** Expressions *)

Section Visits.

(** [rec] stands for the visitor itself in the calls [x->Accept(this)] on
    the children of the visited node; [D] are the collaborators. *)
Variable rec : Visitors.
Variable D : Collaborators.

Definition GenerateSubqueryTree (expr : AbstractExpression) (child_id : nat)
  (single_join : bool) (t : QueryToOperatorTransformer)
  : result (bool * AbstractExpression * QueryToOperatorTransformer) :=
  (* Get potential subquery *)
  subquery_expr <- GetChild expr child_id ;;
  if negb (ExpressionType_eqb (GetExpressionType subquery_expr) ROW_SUBQUERY) then
    Ok (false, expr, t)
  else
    sub_select <-
      match GetClass subquery_expr with
      | SubqueryExpression sub_select => Ok sub_select
      | _ => Err (UndefinedBehaviour "cast to SubqueryExpression")
      end ;;
    supported <- IsSupportedSubSelect D sub_select ;;
    if negb supported then NOT_IMPLEMENTED_EXCEPTION "Sub-select not supported"
    else if negb (Nat.eqb (List.length (GetSelectColumns sub_select)) 1) then
      (* We only support subselect with single row *)
      NOT_IMPLEMENTED_EXCEPTION "Array in predicates not supported"
    else
      (* Construct join *)
      let '(moved, t) := move_output_expr t in
      let op_expr :=
        PushChild
          (MkOperatorNode (if single_join then LogicalSingleJoin else LogicalMarkJoin) [])
          moved in
      '(sub_select, t) <- visit_select rec sub_select t ;;
      (* Push subquery output *)
      let '(moved, t) := move_output_expr t in
      let op_expr := PushChild op_expr moved in
      let t := set_output_expr t (Some op_expr) in
      (* Convert subquery to the selected column in the sub-select *)
      column <- at_ (GetSelectColumns sub_select) 0 ;;
      expr <- SetChild expr child_id column ;;
      Ok (true, expr, t).

(** [AbstractExpression::AcceptChildren]: every child accepts the visitor,
    in order. *)
Definition AcceptChildren (expr : AbstractExpression)
  (t : QueryToOperatorTransformer)
  : result (AbstractExpression * QueryToOperatorTransformer) :=
  '(children, t) <- mapS (visit_expression rec) (GetChildren expr) t ;;
  Ok (WithChildren expr children, t).

Definition Visit_ComparisonExpression (expr : AbstractExpression)
  (t : QueryToOperatorTransformer)
  : result (AbstractExpression * QueryToOperatorTransformer) :=
  let expr_type := GetExpressionType expr in
  '(expr, t) <-
    (if ExpressionType_eqb expr_type COMPARE_IN then
       '(_, expr, t) <- GenerateSubqueryTree expr 1 false t ;;
       Ok (expr, t)
     else if is_plain_comparison expr_type then
       c0 <- GetChild expr 0 ;;
       both <-
         (if ExpressionType_eqb (GetExpressionType c0) ROW_SUBQUERY then
            c1 <- GetChild expr 1 ;;
            Ok (ExpressionType_eqb (GetExpressionType c1) ROW_SUBQUERY)
          else Ok false) ;;
       if both then
         NOT_IMPLEMENTED_EXCEPTION "Comparisons between sub-selects are not supported"
       else
         (* Transform if either child is sub-query *)
         '(done, expr, t) <- GenerateSubqueryTree expr 0 true t ;;
         if done then Ok (expr, t)
         else
           '(_, expr, t) <- GenerateSubqueryTree expr 1 true t ;;
           Ok (expr, t)
     else Ok (expr, t)) ;;
  AcceptChildren expr t.

Definition Visit_OperatorExpression (expr : AbstractExpression)
  (t : QueryToOperatorTransformer)
  : result (AbstractExpression * QueryToOperatorTransformer) :=
  '(expr, t) <-
    (if ExpressionType_eqb (GetExpressionType expr) OPERATOR_EXISTS then
       '(done, expr, t) <- GenerateSubqueryTree expr 0 false t ;;
       if done then
         (* the child is a column now; EXISTS becomes IS NOT NULL *)
         Ok (SetExpressionType expr OPERATOR_IS_NOT_NULL, t)
       else Ok (expr, t)
     else Ok (expr, t)) ;;
  AcceptChildren expr t.

(** [SqlNodeVisitor::Visit] on an expression, which the transformer
    inherits for the classes other than comparisons and operators: the
    children accept the visitor.  (The binder calls it for that, in its
    [Visit(ComparisonExpression)] and [Visit(ConjunctionExpression)].) *)
Definition SqlNodeVisitor_Visit (expr : AbstractExpression)
  (t : QueryToOperatorTransformer)
  : result (AbstractExpression * QueryToOperatorTransformer) :=
  AcceptChildren expr t.

(** [expr->Accept(this)]: the overload of [Visit] for the class of the
    expression. *)
Definition Visit_Expression (expr : AbstractExpression)
  (t : QueryToOperatorTransformer)
  : result (AbstractExpression * QueryToOperatorTransformer) :=
  match GetClass expr with
  | ComparisonExpression => Visit_ComparisonExpression expr t
  | OperatorExpression => Visit_OperatorExpression expr t
  | _ => SqlNodeVisitor_Visit expr t
  end.

(** The result is the visited expression, the annotated predicates that the
    source appends to [*predicates], and the visitor. *)
Definition CollectPredicates (expr : option AbstractExpression)
  (t : QueryToOperatorTransformer)
  : result (option AbstractExpression * list AnnotatedExpression
            * QueryToOperatorTransformer) :=
  (* First check if all conjunctive predicates are supported *)
  let predicate_ptrs := SplitPredicates_ptr expr in
  mapR (fun pred =>
          supported <- IsSupportedConjunctivePredicate pred ;;
          if negb supported then
            NOT_IMPLEMENTED_EXCEPTION
              ("Expression type "
               ++ to_string_size (ExpressionTypeCode D (GetExpressionType pred))
               ++ " is not supported")
          else Ok tt)
       predicate_ptrs ;;;
  e <- deref "expr->Accept" expr ;;
  '(e, t) <- visit_expression rec e t ;;
  annotated <- ExtractPredicates (Some e) ;;
  Ok (Some e, annotated, t).

(** *** Joins and table references *)

Definition Visit_JoinDefinition (node : JoinDefinition)
  (t : QueryToOperatorTransformer)
  : result (JoinDefinition * QueryToOperatorTransformer) :=
  match node with
  | MkJoin type left_table right_table condition =>
      (* Get left operator *)
      '(left_table, t) <- visit_table_ref rec left_table t ;;
      let '(left_expr, t) := move_output_expr t in
      (* Get right operator *)
      '(right_table, t) <- visit_table_ref rec right_table t ;;
      let '(right_expr, t) := move_output_expr t in
      (* Construct join operator *)
      '(condition, join_predicates, t) <- CollectPredicates condition t ;;
      join_op <-
        match type with
        | INNER => Ok (LogicalInnerJoin join_predicates)
        | OUTER => Ok (LogicalOuterJoin join_predicates)
        | LEFT => Ok (LogicalLeftJoin join_predicates)
        | RIGHT => Ok (LogicalRightJoin join_predicates)
        | SEMI => Ok (LogicalSemiJoin join_predicates)
        | JT_INVALID => OPTIMIZER_EXCEPTION "Join type invalid"
        end ;;
      let join_expr :=
        PushChild (PushChild (MkOperatorNode join_op []) left_expr) right_expr in
      Ok (MkJoin type left_table right_table condition, set_output_expr t (Some join_expr))
  end.

(** The loop [for (i = 1; i < node->GetList().size(); i++)] of the implicit
    join, over the elements after the first. *)
Fixpoint implicit_join_loop (elems : list TableRef) (prev_expr : option OperatorNode)
  (t : QueryToOperatorTransformer)
  : result (list TableRef * option OperatorNode * QueryToOperatorTransformer) :=
  match elems with
  | [] => Ok ([], prev_expr, t)
  | list_elem :: elems' =>
      '(list_elem, t) <- visit_table_ref rec list_elem t ;;
      let join_expr := MkOperatorNode (LogicalInnerJoin []) [] in
      let join_expr := PushChild join_expr prev_expr in
      let '(moved, t) := move_output_expr t in
      let join_expr := PushChild join_expr moved in
      '(elems', prev_expr, t) <- implicit_join_loop elems' (Some join_expr) t ;;
      Ok (list_elem :: elems', prev_expr, t)
  end.

Definition Visit_TableRef (node : TableRef) (t : QueryToOperatorTransformer)
  : result (TableRef * QueryToOperatorTransformer) :=
  match GetSelect node with
  | Some select =>
      (* the mapping from column name to the underlying expression *)
      let table_alias := GetTableAlias node in
      let table_alias := SetName table_alias (tolower (name_ table_alias)) in
      let node := SetTableAlias node table_alias in
      alias_to_expr_map <- ConstructSelectElementMap (GetSelectColumns select) ;;
      '(select, t) <- visit_select rec select t ;;
      let '(child_expr, t) := move_output_expr t in
      let out :=
        PushChild
          (MkOperatorNode (LogicalQueryDerivedGet table_alias alias_to_expr_map) [])
          child_expr in
      Ok (SetSelect node select, set_output_expr t (Some out))
  | None =>
      match GetJoin node with
      | Some join =>
          (* Explicit Join *)
          '(join, t) <- visit_join rec join t ;;
          Ok (SetJoin node join, t)
      | None =>
          if (1 <? List.length (GetList node))%nat then
            (* Multiple tables (Implicit Join) *)
            first <- at_ (GetList node) 0 ;;
            '(first, t) <- visit_table_ref rec first t ;;
            let '(prev_expr, t) := move_output_expr t in
            (* Build a left deep join tree *)
            '(elems, prev_expr, t) <-
              implicit_join_loop (skipn 1 (GetList node)) prev_expr t ;;
            Ok (SetList node (first :: elems), set_output_expr t prev_expr)
          else
            (* Single table *)
            single <-
              (if Nat.eqb (List.length (GetList node)) 1 then at_ (GetList node) 0
               else Ok node) ;;
            table_name <- GetTableName single ;;
            match find_index table_name (cte_table_name_ t) with
            | Some index =>
                (* CTE table referred *)
                oid <- deref "cte_oids_[index]" (nth_error (cte_oids_ t) index) ;;
                schema <- deref "cte_schemas_[index]" (nth_error (cte_schemas_ t) index) ;;
                expressions <-
                  deref "cte_expressions_[index]" (nth_error (cte_expressions_ t) index) ;;
                type <- deref "cte_type_[index]" (nth_error (cte_type_ t) index) ;;
                let cte_scan_expr :=
                  MkOperatorNode
                    (LogicalCteScan (name_ (GetTableAlias single)) table_name oid
                       schema expressions type [])
                    [] in
                Ok (node, set_output_expr t (Some cte_scan_expr))
            | None =>
                let get :=
                  MkOperatorNode
                    (LogicalGet (db_oid_ t) (GetTableOid (accessor_ t) table_name) []
                       (GetTableAlias single) false)
                    [] in
                Ok (node, set_output_expr t (Some get))
            end
      end
  end.

(** *** SELECT *)

Definition push_cte_name (t : QueryToOperatorTransformer) (name : string)
  (type : CteType) (oid : N) (schema : Schema) (a : CatalogAccessor)
  : QueryToOperatorTransformer :=
  {| output_expr_ := output_expr_ t; predicates_ := predicates_ t;
     cte_table_name_ := (cte_table_name_ t ++ [name])%list;
     cte_type_ := (cte_type_ t ++ [type])%list;
     cte_oids_ := (cte_oids_ t ++ [oid])%list;
     cte_schemas_ := (cte_schemas_ t ++ [schema])%list;
     cte_expressions_ := cte_expressions_ t; accessor_ := a;
     db_oid_ := db_oid_ t |}.

Definition push_cte_expressions (t : QueryToOperatorTransformer)
  (master_expressions : list (list AbstractExpression))
  : QueryToOperatorTransformer :=
  {| output_expr_ := output_expr_ t; predicates_ := predicates_ t;
     cte_table_name_ := cte_table_name_ t; cte_type_ := cte_type_ t;
     cte_oids_ := cte_oids_ t; cte_schemas_ := cte_schemas_ t;
     cte_expressions_ := (cte_expressions_ t ++ [master_expressions])%list;
     accessor_ := accessor_ t; db_oid_ := db_oid_ t |}.

(** [new ColumnValueExpression(table_alias, col_name, type, alias, col_oid)];
    the fields that the call does not give are those of a fresh
    expression. *)
Definition MakeCteColumnValue (table_alias : AliasType) (col_name : string)
  (type : SqlTypeId.t) (alias : AliasType) (col_oid : N) : AbstractExpression :=
  Expression
    (ColumnValueExpression table_alias col_name INVALID_DATABASE_OID
       INVALID_TABLE_OID col_oid)
    {| expression_type_ := COLUMN_VALUE; expression_name_ := "";
       parser.alias_ := alias; return_value_type_ := type; parser.depth_ := -1;
       has_subquery_ := false |}
    [].

(** The body of the first loop over the WITH clauses: the CTE is visited
    and registered (name, type, temporary oid, schema, expressions). *)
Definition Select_With_entry (with_ : TableRef) (t : QueryToOperatorTransformer)
  : result (TableRef * QueryToOperatorTransformer) :=
  '(with_, t) <- visit_table_ref rec with_ t ;;
  (* SELECT statement has CTE, register CTE table name *)
  let '(temp, accessor) := GetNewTempOid (accessor_ t) in
  let oid := MakeTempOid D temp in
  let aliases := GetCteColumnAliases with_ in
  select <- deref "with->GetSelect()" (GetSelect with_) ;;
  col_types <-
    mapR (fun i =>
            column <- deref "GetSelectColumns()[i]"
                        (nth_error (GetSelectColumns select) i) ;;
            Ok (GetReturnValueType column))
         (seq 0 (List.length aliases)) ;;
  let columns :=
    map (fun p : AliasType * SqlTypeId.t =>
           {| Name := name_ (fst p); Type_ := snd p; Nullable := false;
              Oid := MakeTempOid D (serial_no_ (fst p));
              StoredExpression := NullConstant (snd p) |})
        (combine aliases col_types) in
  let t :=
    push_cte_name t (name_ (GetTableAlias with_)) (GetCteType with_) oid
      {| GetColumns := columns |} accessor in
  let expressions :=
    map (fun p : AliasType * SqlTypeId.t =>
           MakeCteColumnValue (GetTableAlias with_) (name_ (fst p)) (snd p) (fst p)
             (MakeTempOid D (serial_no_ (fst p))))
        (combine aliases col_types) in
  table_name <- GetTableName with_ ;;
  let cte_scan_expr :=
    MkOperatorNode
      (LogicalCteScan (name_ (GetTableAlias with_)) table_name oid
         {| GetColumns := columns |} [] (GetCteType with_) [])
      [] in
  let '(moved, t) := move_output_expr t in
  let t := set_output_expr t (Some (PushChild cte_scan_expr moved)) in
  let master_expressions :=
    match GetUnionSelect select with
    | Some union_select => [expressions; GetSelectColumns union_select]
    | None => [expressions]
    end in
  Ok (with_, push_cte_expressions t master_expressions).

Definition Select_With (op : SelectStatement) (t : QueryToOperatorTransformer)
  : result (list TableRef * QueryToOperatorTransformer) :=
  mapS Select_With_entry (GetSelectWith op) t.

Definition Select_From (op : SelectStatement) (t : QueryToOperatorTransformer)
  : result (option TableRef * QueryToOperatorTransformer) :=
  match GetSelectTable op with
  | Some table =>
      (* SELECT with FROM *)
      '(table, t) <- visit_table_ref rec table t ;;
      Ok (Some table, t)
  | None =>
      (* SELECT without FROM *)
      Ok (None, set_output_expr t (Some (MkOperatorNode LogicalGet_Make [])))
  end.

(** [filter_expr] over the current tree, for a non-empty list of
    predicates. *)
Definition wrap_filter (predicates : list AnnotatedExpression)
  (t : QueryToOperatorTransformer) : QueryToOperatorTransformer :=
  match predicates with
  | [] => t
  | _ :: _ =>
      let filter_expr := MkOperatorNode (LogicalFilter predicates) [] in
      let '(moved, t) := move_output_expr t in
      set_output_expr t (Some (PushChild filter_expr moved))
  end.

Definition Select_Where (op : SelectStatement) (t : QueryToOperatorTransformer)
  : result (option AbstractExpression * QueryToOperatorTransformer) :=
  '(condition, t) <-
    match GetSelectCondition op with
    | Some condition =>
        '(condition, collected, t) <- CollectPredicates (Some condition) t ;;
        Ok (condition, set_predicates t (predicates_ t ++ collected)%list)
    | None => Ok (None, t)
    end ;;
  let t' := wrap_filter (predicates_ t) t in
  Ok (condition, set_predicates t' []).

Definition Select_Aggregation (op : SelectStatement) (t : QueryToOperatorTransformer)
  : result (option GroupByDescription * QueryToOperatorTransformer) :=
  aggregates <- RequireAggregation D op ;;
  if aggregates then
    match GetSelectGroupBy op with
    | None =>
        (* Plain aggregation *)
        let agg_expr := MkOperatorNode (LogicalAggregateAndGroupBy []) [] in
        let '(moved, t) := move_output_expr t in
        Ok (None, set_output_expr t (Some (PushChild agg_expr moved)))
    | Some group_by =>
        let group_by_cols := parser.GetColumns group_by in
        let agg_expr := MkOperatorNode (LogicalAggregateAndGroupBy group_by_cols) [] in
        let '(moved, t) := move_output_expr t in
        let t := set_output_expr t (Some (PushChild agg_expr moved)) in
        '(having_expr, having, t) <-
          match GetHaving group_by with
          | Some h => CollectPredicates (Some h) t
          | None => Ok (None, [], t)
          end ;;
        Ok (Some (MkGroupBy (parser.GetColumns group_by) having_expr), wrap_filter having t)
    end
  else if IsSelectDistinct op then
    (* SELECT DISTINCT a1 FROM A becomes SELECT a1 FROM A GROUP BY a1 *)
    let group_by_cols := GetSelectColumns op in
    let '(moved, t) := move_output_expr t in
    Ok (GetSelectGroupBy op,
        set_output_expr t
          (Some (MkOperatorNode (LogicalAggregateAndGroupBy group_by_cols) [moved])))
  else Ok (GetSelectGroupBy op, t).

Definition sort_direction_of (type : OrderType) : OrderByOrderingType :=
  match type with
  | kOrderAsc => ASC
  | kOrderDesc => DESC
  end.

(** The block that handles ORDER BY, LIMIT and OFFSET. *)
Definition Select_Limit (op : SelectStatement) (t : QueryToOperatorTransformer)
  : QueryToOperatorTransformer :=
  match GetSelectLimit op with
  | Some select_limit =>
      if negb (GetLimit select_limit =? -1) then
        let '(sort_exprs, sort_direction) :=
          match GetSelectOrderBy op with
          | Some order_info =>
              (GetOrderByExpressions order_info,
               map sort_direction_of (GetOrderByTypes order_info))
          | None => ([], [])
          end in
        let limit_expr :=
          MkOperatorNode
            (LogicalLimit (Z.max (GetOffset select_limit) 0) (GetLimit select_limit)
               sort_exprs sort_direction)
            [] in
        let '(moved, t) := move_output_expr t in
        set_output_expr t (Some (PushChild limit_expr moved))
      else t
  | None => t
  end.

Definition is_cte_scan_of (contents : Operator) (cte_table_name : string) : bool :=
  match contents with
  | LogicalCteScan _ table_name _ _ _ _ _ => String.eqb table_name cte_table_name
  | _ => false
  end.

(** [FindFirstCTEScanNode]: [output_expr_] becomes the last child of the
    first scan of the CTE found in [child_expr], depth first and leftmost.
    The result is whether it was found, the tree and what is left in
    [output_expr_]. *)
Fixpoint FindFirstCTEScanNode (child_expr : OperatorNode) (cte_table_name : string)
  (output_expr : option OperatorNode)
  : result (bool * OperatorNode * option OperatorNode) :=
  match child_expr with
  | MkOperatorNode contents children =>
      if is_cte_scan_of contents cte_table_name then
        (* Leftmost LogicalCteScan found in tree *)
        Ok (true, MkOperatorNode contents (children ++ [output_expr])%list, None)
      else
        '(is_added, children, output_expr) <-
          (fix loop (cs : list (option OperatorNode))
             : result (bool * list (option OperatorNode) * option OperatorNode) :=
             match cs with
             | [] => Ok (false, [], output_expr)
             | None :: _ => Err (UndefinedBehaviour "null child")
             | Some i :: cs' =>
                 '(is_added, i, left_over) <-
                   FindFirstCTEScanNode i cte_table_name output_expr ;;
                 if is_added then Ok (true, Some i :: cs', left_over)
                 else
                   '(is_added, cs', left_over) <- loop cs' ;;
                   Ok (is_added, Some i :: cs', left_over)
             end) children ;;
        Ok (is_added, MkOperatorNode contents children, output_expr)
  end.

(** The body of the second loop over the WITH clauses: the tree of the
    query of the CTE is built again and hung under its first scan in
    [child_expr]. *)
Definition Select_AttachCte_entry (with_ : TableRef)
  (st : option OperatorNode * QueryToOperatorTransformer)
  : result (TableRef * (option OperatorNode * QueryToOperatorTransformer)) :=
  let '(child_expr, t) := st in
  (* Get the logical tree for the query which is used to compute the CTE *)
  '(with_, t) <- visit_table_ref rec with_ t ;;
  (* Add CTE table query to first LogicalCteScan found in tree *)
  child <- deref "child_expr" child_expr ;;
  '(_, child, left_over) <-
    FindFirstCTEScanNode child (name_ (GetTableAlias with_)) (output_expr_ t) ;;
  Ok (with_, (Some child, set_output_expr t left_over)).

Definition Select_AttachCtes (withs : list TableRef) (t : QueryToOperatorTransformer)
  : result (list TableRef * QueryToOperatorTransformer) :=
  match withs with
  | [] => Ok ([], t)
  | _ :: _ =>
      (* Store the current logical tree in another expression *)
      let '(child_expr, t) := move_output_expr t in
      '(withs, (child_expr, t)) <- mapS Select_AttachCte_entry withs (child_expr, t) ;;
      (* Replace the complete logical tree back *)
      Ok (withs, set_output_expr t child_expr)
  end.

(** [op] is the statement as the blocks before have left it. *)
Definition Select_Union (op : SelectStatement) (t : QueryToOperatorTransformer)
  : result (SelectStatement * QueryToOperatorTransformer) :=
  match GetUnionSelect op with
  | Some union_select =>
      let '(left_expr, t) := move_output_expr t in
      '(union_select, t) <- visit_select rec union_select t ;;
      let '(right_expr, t) := move_output_expr t in
      let op := SetUnionSelect op (Some union_select) in
      let union_expr := MkOperatorNode (LogicalUnion true op union_select) [] in
      Ok (op, set_output_expr t (Some (PushChild (PushChild union_expr left_expr) right_expr)))
  | None => Ok (op, t)
  end.

Definition Visit_SelectStatement (op : SelectStatement)
  (t : QueryToOperatorTransformer)
  : result (SelectStatement * QueryToOperatorTransformer) :=
  let pre_predicates := predicates_ t in
  let t := set_predicates t [] in
  '(withs, t) <- Select_With op t ;;
  let op := SetSelectWith op withs in
  '(table, t) <- Select_From op t ;;
  let op := SetSelectTable op table in
  '(condition, t) <- Select_Where op t ;;
  let op := SetSelectCondition op condition in
  '(group_by, t) <- Select_Aggregation op t ;;
  let op := SetSelectGroupBy op group_by in
  let t := Select_Limit op t in
  '(withs, t) <- Select_AttachCtes (GetSelectWith op) t ;;
  let op := SetSelectWith op withs in
  '(op, t) <- Select_Union op t ;;
  Ok (op, set_predicates t pre_predicates).

End Visits.

(** *** The visitor *)

Definition no_visit {A} (a : A) (t : QueryToOperatorTransformer)
  : result (A * QueryToOperatorTransformer) := Err OutOfFuel.

(** The visitor for syntax trees of nesting depth at most [fuel]: every
    [Accept] on a child node uses one unit. *)
Fixpoint Visit (D : Collaborators) (fuel : nat) : Visitors :=
  match fuel with
  | O =>
      {| visit_select := no_visit; visit_table_ref := no_visit;
         visit_join := no_visit; visit_expression := no_visit |}
  | S fuel' =>
      {| visit_select := Visit_SelectStatement (Visit D fuel') D;
         visit_table_ref := Visit_TableRef (Visit D fuel');
         visit_join := Visit_JoinDefinition (Visit D fuel') D;
         visit_expression := Visit_Expression (Visit D fuel') D |}
  end.

(** [ConvertToOpExpression] on a SELECT statement. *)
Definition ConvertToOpExpression (D : Collaborators) (fuel : nat)
  (op : SelectStatement) (t : QueryToOperatorTransformer)
  : result (option OperatorNode) :=
  let t := set_output_expr t None in
  '(_, t) <- visit_select (Visit D fuel) op t ;;
  Ok (output_expr_ t).

End optimizer.

(* ===================================================================== *)
(** ** Vocabulary of the properties, and sample inputs *)
(* ===================================================================== *)

Module binder_spec.
Import binder.

(** [e] is an integer or real constant of an ORDER BY list, and [k] is the
    [column_id] that the source computes for it: the value of an integer
    constant, the value converted to [int64_t] of a real one. *)
Definition ordinal_constant (e : AbstractExpression) (k : Z) : Prop :=
  GetExpressionType e = VALUE_CONSTANT /\
  ((In (GetReturnValueType e)
       [SqlTypeId.TinyInt; SqlTypeId.SmallInt; SqlTypeId.Integer; SqlTypeId.BigInt]
    /\ exists i, GetInteger e = Ok i /\ int_val_ i = k)
   \/
   (GetReturnValueType e = SqlTypeId.Double
    /\ exists r, GetReal e = Ok r /\ double_to_int64 (real_val_ r) = Ok k)).

(** The value of the double [f] is greater than the integer [n]. *)
Definition exceeds (f : spec_float) (n : Z) : bool :=
  match f with
  | S754_zero _ => n <? 0
  | S754_finite s m e =>
      let sm := if s then Z.neg m else Z.pos m in
      if 0 <=? e then n <? sm * 2 ^ e else n * 2 ^ (- e) <? sm
  | S754_infinity s => negb s
  | S754_nan => false
  end.



(** The name synthesized for a select column without a given alias. *)
Definition synthesized_name (c : AbstractExpression) : string :=
  if String.eqb (GetExpressionName c) "" then "?column?" else GetExpressionName c.

(** Constants, columns and markers as the parser builds them. *)
Definition base_of (t : ExpressionType) (name : string) (ty : SqlTypeId.t)
  : ExpressionBase :=
  {| expression_type_ := t; expression_name_ := name;
     alias_ := MakeAliasNoSerial ""; return_value_type_ := ty;
     depth_ := -1; has_subquery_ := false |}.

Definition IntegerConstant (n : Z) : AbstractExpression :=
  Expression (ConstantValueExpression (V_Integer {| int_is_null_ := false; int_val_ := n |}))
    (base_of VALUE_CONSTANT "" SqlTypeId.Integer) [].

Definition DoubleConstant (f : spec_float) : AbstractExpression :=
  Expression (ConstantValueExpression (V_Real {| real_is_null_ := false; real_val_ := f |}))
    (base_of VALUE_CONSTANT "" SqlTypeId.Double) [].

Definition StringConstant (s : string) : AbstractExpression :=
  Expression (ConstantValueExpression (V_StringVal false s))
    (base_of VALUE_CONSTANT "" SqlTypeId.Varchar) [].

Definition ColumnRef (name : string) (ty : SqlTypeId.t) : AbstractExpression :=
  Expression (ColumnValueExpression (MakeAliasNoSerial "") name 0%N 0%N 0%N)
    (base_of COLUMN_VALUE name ty) [].

Definition DefaultMarker : AbstractExpression :=
  Expression DefaultValueExpression (base_of VALUE_DEFAULT "" SqlTypeId.Invalid) [].

Definition Cast (ty : SqlTypeId.t) (child : AbstractExpression) : AbstractExpression :=
  Expression TypeCastExpression (base_of OPERATOR_CAST "" ty) [child].

(** [WITH c(x) AS (SELECT 1, 2)]: the table reference of the CTE, and its
    variant with three aliases [c(x, y, z)]. *)
Definition cte_c (aliases : list string) : TableRef :=
  MkTableRef (MakeAliasNoSerial "c")
    (Some {| table_name_ := "c"; namespace_name_ := ""; database_name_ := "" |})
    None (map MakeAliasNoSerial aliases) SIMPLE [] None.

(** The double 1.5, that is 3 * 2^-1. *)
Definition one_and_a_half : spec_float := S754_finite false 3 (-1).

(** A value of an already bound row that a further pass leaves alone: it is
    neither a DEFAULT marker nor a CAST node, and visiting it again changes
    nothing in it. *)
Definition settled
  (Accept : AbstractExpression -> BindNodeVisitor ->
            result (AbstractExpression * BindNodeVisitor))
  (val : AbstractExpression) : Prop :=
  GetExpressionType val <> VALUE_DEFAULT /\
  GetExpressionType val <> OPERATOR_CAST /\
  forall v, exists v', Accept val v = Ok (val, v').

(** The rows of values that [ValidateAndCorrectInsertValues] is run on:
    the select list of an INSERT ... SELECT, or else each VALUES row. *)
Definition rows_of (node : InsertStatement) : list (list AbstractExpression) :=
  match GetInsertSelect node with
  | Some select => [GetSelectColumns select]
  | None => GetValues node
  end.

(** **** Sample collaborators and inputs *)

(** The visit of an expression that is already as its desired type wants
    it (an integer constant for an integer column, a NULL of the column
    type, a cast over such): nothing changes. *)
Definition Accept_unchanged (e : AbstractExpression) (v : BindNodeVisitor)
  : result (AbstractExpression * BindNodeVisitor) := Ok (e, v).

Definition spec_float_eq_dec (a b : spec_float) : {a = b} + {a <> b}.
Proof. decide equality; try apply Bool.bool_dec; try apply Z.eq_dec; apply Pos.eq_dec. Defined.

Definition Value_eq_dec (a b : Value) : {a = b} + {a <> b}.
Proof.
  decide equality; try apply Bool.bool_dec; try apply Z.eq_dec;
    try apply string_dec.
  - destruct i, i0. decide equality; try apply Bool.bool_dec; apply Z.eq_dec.
  - destruct r, r0. decide equality; try apply Bool.bool_dec;
      apply spec_float_eq_dec.
Defined.

(** [operator==] on two constants: the same return type and the same
    value.  The samples compare constants only; any other pair is reported
    unequal. *)
Definition ConstantEq (a b : AbstractExpression) : bool :=
  match GetClass a, GetClass b with
  | ConstantValueExpression x, ConstantValueExpression y =>
      SqlTypeId.eqb (GetReturnValueType a) (GetReturnValueType b)
      && (if Value_eq_dec x y then true else false)
  | _, _ => false
  end.

Definition no_select (s : SelectStatement) (v : BindNodeVisitor)
  : result (SelectStatement * BindNodeVisitor) :=
  Err (UndefinedBehaviour "the samples have no INSERT ... SELECT").

(** A column declared [name INTEGER NOT NULL] without a default: its stored
    expression is the NULL of its type. *)
Definition int_not_null (name : string) (oid : N) : Column :=
  {| Name := name; Type_ := SqlTypeId.Integer; Nullable := false; Oid := oid;
     StoredExpression := NullConstant SqlTypeId.Integer |}.

(** [CREATE TABLE t (a INTEGER NOT NULL, b INTEGER NOT NULL)]. *)
Definition schema_t : Schema :=
  {| GetColumns := [int_not_null "a" 1%N; int_not_null "b" 2%N] |}.
(** [CREATE TABLE u (a INTEGER NOT NULL)]. *)
Definition schema_u : Schema := {| GetColumns := [int_not_null "a" 1%N] |}.

Definition mapping_of (schema : Schema)
  (v : BindNodeVisitor) (info : TableInfo) (alias : AliasType) : result Schema :=
  Ok schema.

Definition table_ref (name : string) : TableRef :=
  MkTableRef (MakeAliasNoSerial name)
    (Some {| table_name_ := name; namespace_name_ := ""; database_name_ := "" |})
    None [] CTE_INVALID [] None.

Definition sample_accessor : CatalogAccessor :=
  {| GetDatabaseOid := fun _ => 1%N; GetTableOid := fun _ => 1001%N;
     GetSchema := fun _ => schema_t; next_temp_oid_ := 1%N |}.

Definition sample_visitor : BindNodeVisitor :=
  {| sherpa_ := {| desired_expr_types_ := []; parse_result_expressions_ := [] |};
     catalog_accessor_ := sample_accessor; db_oid_ := 1%N |}.

(** [INSERT INTO t VALUES (1, DEFAULT)]. *)
Definition insert_1_default : InsertStatement :=
  {| type_ := VALUES; columns_ := []; table_ref_ := table_ref "t"; select_ := None;
     insert_values_ := [[IntegerConstant 1; DefaultMarker]] |}.

(** [INSERT INTO t (a) VALUES (1)]. *)
Definition insert_a_only : InsertStatement :=
  {| type_ := VALUES; columns_ := ["a"]; table_ref_ := table_ref "t"; select_ := None;
     insert_values_ := [[IntegerConstant 1]] |}.

(** [INSERT INTO t VALUES (1, 2)]. *)
Definition insert_1_2 : InsertStatement :=
  {| type_ := VALUES; columns_ := []; table_ref_ := table_ref "t"; select_ := None;
     insert_values_ := [[IntegerConstant 1; IntegerConstant 2]] |}.

(** [INSERT INTO u VALUES (CAST(CAST(1 AS INTEGER) AS INTEGER))]. *)
Definition insert_nested_cast : InsertStatement :=
  {| type_ := VALUES; columns_ := []; table_ref_ := table_ref "u"; select_ := None;
     insert_values_ :=
       [[Cast SqlTypeId.Integer (Cast SqlTypeId.Integer (IntegerConstant 1))]] |}.

End binder_spec.

Module optimizer_spec.
Import optimizer.

(** The shape that [IsSupportedSubSelect] asks of a correlated conjunct of
    the WHERE clause of a sub-select of depth [d]: an equality at the top,
    with a column reference on one side and, on the other side, an
    expression of depth [d]. *)
Definition outer_column_equals_inner (d : Z) (pred : AbstractExpression) : Prop :=
  GetExpressionType pred = COMPARE_EQUAL /\
  exists c0 c1,
    GetChild pred 0 = Ok c0 /\ GetChild pred 1 = Ok c1 /\
    ((GetDepth c1 = d /\ GetExpressionType c0 = COLUMN_VALUE) \/
     (GetDepth c0 = d /\ GetExpressionType c1 = COLUMN_VALUE)).

(** A conjunct of the WHERE clause is correlated when its depth is less
    than the depth of the sub-select. *)
Definition correlated (op : SelectStatement) (pred : AbstractExpression) : Prop :=
  GetDepth pred < GetSelectDepth op.

(** The SELECT performs an aggregation: it has a GROUP BY clause, or some
    column of its select list holds an aggregate function. *)
Definition aggregates (D : Collaborators) (op : SelectStatement) : Prop :=
  GetSelectGroupBy op <> None \/
  exists e, In e (GetSelectColumns op) /\ GetAggregateExprs D e <> [].

(** [p] is a conjunct of the predicate [e]: [e] itself when it is not an
    AND, a conjunct of one of its operands when it is. *)
Inductive conjunct_of : AbstractExpression -> AbstractExpression -> Prop :=
| conjunct_itself (e : AbstractExpression) :
    GetExpressionType e <> CONJUNCTION_AND -> conjunct_of e e
| conjunct_of_operand (e c p : AbstractExpression) :
    GetExpressionType e = CONJUNCTION_AND ->
    In c (GetChildren e) -> conjunct_of c p -> conjunct_of e p.

(** [p] is a conjunct of the WHERE clause of the SELECT. *)
Definition where_conjunct (op : SelectStatement) (p : AbstractExpression) : Prop :=
  exists w, GetSelectCondition op = Some w /\ conjunct_of w p.

(** The sub-select is eligible for the rewrite into a join: it performs no
    aggregation, or it aggregates and every correlated conjunct of its
    WHERE clause has the shape above. *)
Definition eligible (D : Collaborators) (op : SelectStatement) : Prop :=
  ~ aggregates D op \/
  (aggregates D op /\
   forall pred,
     where_conjunct op pred ->
     correlated op pred ->
     outer_column_equals_inner (GetSelectDepth op) pred).

(** The select list mixes columns: the SELECT has no GROUP BY, some column
    of its select list holds an aggregate function and some column holds
    none. *)
Definition mixed_select_list (D : Collaborators) (op : SelectStatement) : Prop :=
  GetSelectGroupBy op = None /\
  (exists e, In e (GetSelectColumns op) /\ GetAggregateExprs D e <> []) /\
  (exists e, In e (GetSelectColumns op) /\ GetAggregateExprs D e = []).

(** Every equality among the conjuncts of the WHERE clause has its two
    operands (a [ComparisonExpression] is built with exactly two
    children). *)
Definition binary_equalities (op : SelectStatement) : Prop :=
  forall pred,
    where_conjunct op pred ->
    GetExpressionType pred = COMPARE_EQUAL ->
    exists c0 c1, GetChild pred 0 = Ok c0 /\ GetChild pred 1 = Ok c1.

(** The left-deep chain of inner joins over the trees of the tables of a
    FROM list: the first tree is the bottom left leaf, every further tree
    is the right child of a new inner join over the chain so far. *)
Definition join_step (chain tree : option OperatorNode) : option OperatorNode :=
  Some (MkOperatorNode (LogicalInnerJoin []) [chain; tree]).

Definition left_deep_chain (trees : list (option OperatorNode))
  : option OperatorNode :=
  match trees with
  | [] => None
  | first :: more => fold_left join_step more first
  end.

(** The tables of a FROM list visited one after the other; the tree that
    each visit leaves in [output_expr_] is taken out before the next. *)
Fixpoint visit_all (rec : Visitors) (tables : list TableRef)
  (t : QueryToOperatorTransformer)
  : result (list TableRef * list (option OperatorNode) * QueryToOperatorTransformer) :=
  match tables with
  | [] => Ok ([], [], t)
  | table :: tables' =>
      '(table, t) <- visit_table_ref rec table t ;;
      let '(tree, t) := move_output_expr t in
      '(tables', trees, t) <- visit_all rec tables' t ;;
      Ok (table :: tables', tree :: trees, t)
  end.

Definition is_limit (o : Operator) : bool :=
  match o with
  | LogicalLimit _ _ _ _ => true
  | _ => false
  end.

(** Some node of the tree is a Limit node. *)
Fixpoint contains_limit (n : OperatorNode) : bool :=
  match n with
  | MkOperatorNode contents children =>
      is_limit contents ||
      (fix any (cs : list (option OperatorNode)) : bool :=
         match cs with
         | [] => false
         | None :: cs' => any cs'
         | Some c :: cs' => contains_limit c || any cs'
         end) children
  end.

(** The root of the tree in [output_expr_] is not a Limit node. *)
Definition root_is_not_limit (t : QueryToOperatorTransformer) : Prop :=
  exists contents children,
    output_expr_ t = Some (MkOperatorNode contents children) /\
    is_limit contents = false.

(** The sort keys and directions of the ORDER BY of a SELECT, none when it
    has no ORDER BY. *)
Definition sort_keys (op : SelectStatement) : list AbstractExpression :=
  match GetSelectOrderBy op with
  | Some order_info => GetOrderByExpressions order_info
  | None => []
  end.
Definition sort_directions (op : SelectStatement) : list OrderByOrderingType :=
  match GetSelectOrderBy op with
  | Some order_info => map sort_direction_of (GetOrderByTypes order_info)
  | None => []
  end.

(** The SELECT has no LIMIT clause, or its limit is -1. *)
Definition no_limit (op : SelectStatement) : Prop :=
  GetSelectLimit op = None \/
  exists l, GetSelectLimit op = Some l /\ GetLimit l = -1.

(** The Union node that the visit of a SELECT with a UNION leaves at the
    root of the tree holds the SELECT statement itself.  Here the statement
    in that node gets the ORDER BY [order_by]; a tree with another root is
    left as it is. *)
Definition union_statement_order_by (order_by : option OrderByDescription)
  (t : QueryToOperatorTransformer) : QueryToOperatorTransformer :=
  match output_expr_ t with
  | Some (MkOperatorNode (LogicalUnion is_all left_expr right_expr) children) =>
      set_output_expr t
        (Some (MkOperatorNode
                 (LogicalUnion is_all (SetSelectOrderBy left_expr order_by) right_expr)
                 children))
  | _ => t
  end.

(** **** Sample collaborators and inputs *)

Definition is_aggregate (t : ExpressionType) : bool :=
  match t with
  | AGGREGATE_COUNT | AGGREGATE_SUM | AGGREGATE_MIN | AGGREGATE_MAX
  | AGGREGATE_AVG | AGGREGATE_TOP_K | AGGREGATE_HISTOGRAM => true
  | _ => false
  end.

(** The aggregate expressions of an expression, got recursively from the
    expression and its children. *)
Fixpoint aggregate_exprs (e : AbstractExpression) : list AbstractExpression :=
  match e with
  | Expression _ base children =>
      if is_aggregate (expression_type_ base) then [e]
      else
        (fix loop (cs : list AbstractExpression) : list AbstractExpression :=
           match cs with
           | [] => []
           | c :: cs' => (aggregate_exprs c ++ loop cs')%list
           end) children
  end.

Definition sample_collaborators : Collaborators :=
  {| GetAggregateExprs := aggregate_exprs;
     MakeTempOid := fun oid => oid;
     ExpressionTypeCode := fun _ => O |}.

Definition sample_transformer : QueryToOperatorTransformer :=
  {| output_expr_ := None; predicates_ := []; cte_table_name_ := [];
     cte_type_ := []; cte_oids_ := []; cte_schemas_ := []; cte_expressions_ := [];
     accessor_ := binder_spec.sample_accessor; db_oid_ := 1%N |}.

Definition table (name : string) : TableRef := binder_spec.table_ref name.

Definition column (name : string) (depth : Z) : AbstractExpression :=
  Expression (ColumnValueExpression (MakeAliasNoSerial "") name 1%N 1001%N 1%N)
    {| expression_type_ := COLUMN_VALUE; expression_name_ := name;
       parser.alias_ := MakeAliasNoSerial ""; return_value_type_ := SqlTypeId.Integer;
       parser.depth_ := depth; has_subquery_ := false |}
    [].

(** [SELECT cols FROM from] with the given LIMIT and ORDER BY, at depth 0. *)
Definition simple_select (cols : list AbstractExpression) (from : option TableRef)
  (order_by : option OrderByDescription) (limit : option LimitDescription)
  : SelectStatement :=
  Select cols false from None None order_by limit None 0 [].

(** [SELECT a FROM t LIMIT 5]. *)
Definition select_a_limit_5 : SelectStatement :=
  simple_select [column "a" 0] (Some (table "t")) None
    (Some {| parser.limit_ := 5; offset_ := 0 |}).

(** [SELECT a FROM (SELECT a FROM t LIMIT 5) AS x ORDER BY a]. *)
Definition select_from_limited : SelectStatement :=
  simple_select [column "a" 0]
    (Some (MkTableRef (MakeAliasNoSerial "x") None (Some select_a_limit_5) []
             CTE_INVALID [] None))
    (Some (MkOrderBy [kOrderAsc] [column "a" 0])) None.

(** [SELECT a FROM t ORDER BY a DESC LIMIT 10 OFFSET -3]. *)
Definition select_negative_offset : SelectStatement :=
  simple_select [column "a" 0] (Some (table "t"))
    (Some (MkOrderBy [kOrderDesc] [column "a" 0]))
    (Some {| parser.limit_ := 10; offset_ := -3 |}).

(** [FROM a, b, c]. *)
Definition from_a_b_c : TableRef :=
  MkTableRef (MakeAliasNoSerial "") None None [] CTE_INVALID
    [table "a"; table "b"; table "c"] None.

Definition subquery (s : SelectStatement) : AbstractExpression :=
  Expression (SubqueryExpression s)
    {| expression_type_ := ROW_SUBQUERY; expression_name_ := "";
       parser.alias_ := MakeAliasNoSerial ""; return_value_type_ := SqlTypeId.Integer;
       parser.depth_ := 0; has_subquery_ := true |}
    [].

Definition comparison (t : ExpressionType) (l r : AbstractExpression) (depth : Z)
  (has_subquery : bool) : AbstractExpression :=
  Expression ComparisonExpression
    {| expression_type_ := t; expression_name_ := "";
       parser.alias_ := MakeAliasNoSerial ""; return_value_type_ := SqlTypeId.Boolean;
       parser.depth_ := depth; has_subquery_ := has_subquery |}
    [l; r].

Definition count_star : AbstractExpression :=
  Expression (AggregateExpression false)
    {| expression_type_ := AGGREGATE_COUNT; expression_name_ := "";
       parser.alias_ := MakeAliasNoSerial ""; return_value_type_ := SqlTypeId.Integer;
       parser.depth_ := 1; has_subquery_ := false |}
    [].

(** [(SELECT a FROM t) = (SELECT b FROM s)]. *)
Definition subselect_equals_subselect : AbstractExpression :=
  comparison COMPARE_EQUAL
    (subquery (simple_select [column "a" 1] (Some (table "t")) None None))
    (subquery (simple_select [column "b" 1] (Some (table "s")) None None))
    0 true.

(** The sub-select [SELECT COUNT( * ) FROM s WHERE s.b < t.a], at depth 1
    under a query of depth 0: its only conjunct is correlated and is not an
    equality. *)
Definition count_where_less : SelectStatement :=
  Select [count_star] false (Some (table "s"))
    (Some (comparison COMPARE_LESS_THAN (column "b" 1) (column "a" 0) 0 false))
    None None None None 1 [].

(** The sub-select [SELECT s.b, COUNT( * ) FROM s], at depth 1: no WHERE
    clause, no GROUP BY, a column and an aggregate in the select list. *)
Definition column_and_count : SelectStatement :=
  Select [column "b" 1; count_star] false (Some (table "s")) None
    None None None None 1 [].

(** [t.a = (SELECT s.b, COUNT( * ) FROM s)]. *)
Definition a_equals_column_and_count : AbstractExpression :=
  comparison COMPARE_EQUAL (column "a" 0) (subquery column_and_count) 0 true.

(** [t.a = (SELECT COUNT( * ) FROM s WHERE s.b < t.a)]. *)
Definition a_equals_count : AbstractExpression :=
  comparison COMPARE_EQUAL (column "a" 0) (subquery count_where_less) 0 true.

(** *** The nesting depth of a syntax tree

    [Visit] is given fuel for the nesting depth of the tree it walks: every
    [Accept] on a child uses one unit.  The depth of a node is one more than
    that of its deepest child; a sub-select sits in the class of its
    [SubqueryExpression]. *)
Definition option_height {A} (h : A -> nat) (o : option A) : nat :=
  match o with Some x => h x | None => O end.
Definition list_height {A} (h : A -> nat) (l : list A) : nat :=
  list_max (map h l).

Fixpoint height_expr (e : AbstractExpression) : nat :=
  match e with
  | Expression cls _ children =>
      S (Nat.max (height_class cls) (list_height height_expr children))
  end
with height_class (c : ExpressionClass) : nat :=
  match c with
  | SubqueryExpression s => height_select s
  | _ => O
  end
with height_select (s : SelectStatement) : nat :=
  match s with
  | Select cols _ from where_ group_by _ _ union _ withs =>
      S (Nat.max (list_height height_expr cols)
        (Nat.max (option_height height_table_ref from)
        (Nat.max (option_height height_expr where_)
        (Nat.max (option_height height_group_by group_by)
        (Nat.max (option_height height_select union)
                 (list_height height_table_ref withs))))))
  end
with height_table_ref (t : TableRef) : nat :=
  match t with
  | MkTableRef _ _ select _ _ list join =>
      S (Nat.max (option_height height_select select)
        (Nat.max (list_height height_table_ref list)
                 (option_height height_join join)))
  end
with height_join (j : JoinDefinition) : nat :=
  match j with
  | MkJoin _ l r condition =>
      S (Nat.max (height_table_ref l)
        (Nat.max (height_table_ref r) (option_height height_expr condition)))
  end
with height_group_by (g : GroupByDescription) : nat :=
  match g with
  | MkGroupBy columns having =>
      S (Nat.max (list_height height_expr columns) (option_height height_expr having))
  end.

(** A computation [runs] when it ends in a value or in an exception of the
    code, not in [OutOfFuel]. *)
Definition runs {A} (r : result A) : Prop := r <> Err OutOfFuel.

(** It runs, and the measure of its value is at most [bound]. *)
Definition within_by {R} (measure : R -> nat) (bound : nat) (r : result R) : Prop :=
  match r with
  | Ok x => (measure x <= bound)%nat
  | Err OutOfFuel => False
  | Err _ => True
  end.

Definition within {A S} (h : A -> nat) (bound : nat) (r : result (A * S)) : Prop :=
  within_by (fun p => h (fst p)) bound r.

(** The visitors [V] run on every node of depth at most [n], and return a
    node that is not deeper. *)
Record good (V : Visitors) (n : nat) : Prop := {
  good_select : forall op t, (height_select op <= n)%nat ->
    within height_select (height_select op) (visit_select V op t);
  good_table_ref : forall node t, (height_table_ref node <= n)%nat ->
    within height_table_ref (height_table_ref node) (visit_table_ref V node t);
  good_join : forall node t, (height_join node <= n)%nat ->
    within height_join (height_join node) (visit_join V node t);
  good_expression : forall expr t, (height_expr expr <= n)%nat ->
    within height_expr (height_expr expr) (visit_expression V expr t)
}.

End optimizer_spec.

(* ===================================================================== *)
(** ** What the properties of the transformer are stated with *)
(* ===================================================================== *)

Module optimizer_props.
Import optimizer optimizer_spec.

(** [Q] holds of the value of a computation that returns. *)
Definition post {R} (Q : R -> Prop) (r : result R) : Prop :=
  match r with
  | Ok x => Q x
  | Err _ => True
  end.

(** The expression refers to the table alias [a]: a node of type
    COLUMN_VALUE with that table alias is reached from the root through
    nodes of other types. *)
Inductive refers_to : AbstractExpression -> AliasType -> Prop :=
| refers_column (a : AliasType) column_name db_oid table_oid column_oid base children :
    expression_type_ base = COLUMN_VALUE ->
    refers_to
      (Expression (ColumnValueExpression a column_name db_oid table_oid column_oid)
         base children) a
| refers_child cls base children child a :
    expression_type_ base <> COLUMN_VALUE ->
    In child children -> refers_to child a ->
    refers_to (Expression cls base children) a.

(** The types of the predicates with a sub-select that
    [IsSupportedConjunctivePredicate] looks into. *)
Definition takes_subquery (t : ExpressionType) : bool :=
  match t with
  | COMPARE_IN | OPERATOR_EXISTS => true
  | _ => is_plain_comparison t
  end.

(** The select list has a column with an aggregate, and one without. *)
Definition has_aggregate (D : Collaborators) (op : SelectStatement) : Prop :=
  exists e, In e (GetSelectColumns op) /\ GetAggregateExprs D e <> [].
Definition has_plain_column (D : Collaborators) (op : SelectStatement) : Prop :=
  exists e, In e (GetSelectColumns op) /\ GetAggregateExprs D e = [].

(** The registry of the CTEs: five vectors that are indexed together. *)
Definition cte_aligned (t : QueryToOperatorTransformer) : Prop :=
  List.length (cte_type_ t) = List.length (cte_table_name_ t) /\
  List.length (cte_oids_ t) = List.length (cte_table_name_ t) /\
  List.length (cte_schemas_ t) = List.length (cte_table_name_ t) /\
  List.length (cte_expressions_ t) = List.length (cte_table_name_ t).

(** From [t] to [t'] the registry has only grown, at the end, by the same
    number of entries in each of its vectors. *)
Definition registry_extends (t t' : QueryToOperatorTransformer) : Prop :=
  exists names types oids schemas expressions,
    cte_table_name_ t' = (cte_table_name_ t ++ names)%list /\
    cte_type_ t' = (cte_type_ t ++ types)%list /\
    cte_oids_ t' = (cte_oids_ t ++ oids)%list /\
    cte_schemas_ t' = (cte_schemas_ t ++ schemas)%list /\
    cte_expressions_ t' = (cte_expressions_ t ++ expressions)%list /\
    List.length types = List.length names /\
    List.length oids = List.length names /\
    List.length schemas = List.length names /\
    List.length expressions = List.length names.

(** What a visit leaves of the members of the transformer: the database
    oid, and the registry up to new entries ... *)
Definition framed (t t' : QueryToOperatorTransformer) : Prop :=
  db_oid_ t' = db_oid_ t /\ registry_extends t t'.

(** ... and the predicates collected so far. *)
Definition kept (t t' : QueryToOperatorTransformer) : Prop :=
  predicates_ t' = predicates_ t /\ framed t t'.

(** The four visits keep these members. *)
Record keeps (V : Visitors) : Prop := {
  keeps_select : forall op t,
    post (fun r => kept t (snd r)) (visit_select V op t);
  keeps_table_ref : forall node t,
    post (fun r => kept t (snd r)) (visit_table_ref V node t);
  keeps_join : forall node t,
    post (fun r => kept t (snd r)) (visit_join V node t);
  keeps_expression : forall expr t,
    post (fun r => kept t (snd r)) (visit_expression V expr t)
}.

(** The join operator that [Visit(JoinDefinition)] makes for a join type,
    none for an invalid type. *)
Definition join_operator (type : JoinType)
  (join_predicates : list AnnotatedExpression) : option Operator :=
  match type with
  | INNER => Some (LogicalInnerJoin join_predicates)
  | OUTER => Some (LogicalOuterJoin join_predicates)
  | LEFT => Some (LogicalLeftJoin join_predicates)
  | RIGHT => Some (LogicalRightJoin join_predicates)
  | SEMI => Some (LogicalSemiJoin join_predicates)
  | JT_INVALID => None
  end.

(** The operator at the root of the tree in [output_expr_]. *)
Definition root_operator (t : QueryToOperatorTransformer) : option Operator :=
  option_map Contents (output_expr_ t).

(** Some node of the tree is a scan of the CTE [cte_table_name]. *)
Fixpoint contains_cte_scan (cte_table_name : string) (n : OperatorNode) : bool :=
  match n with
  | MkOperatorNode contents children =>
      is_cte_scan_of contents cte_table_name ||
      (fix any (cs : list (option OperatorNode)) : bool :=
         match cs with
         | [] => false
         | None :: cs' => any cs'
         | Some c :: cs' => contains_cte_scan cte_table_name c || any cs'
         end) children
  end.

(** [tree'] is [tree] with [out] pushed as the last child of its first
    scan of the CTE [name], depth first and leftmost: of the root when the
    root is such a scan; otherwise in the first child that contains such a
    scan, the children before it containing none, and the children after
    it being left as they are. *)
Inductive attached (name : string) (out : option OperatorNode)
  : OperatorNode -> OperatorNode -> Prop :=
| attached_here (contents : Operator) (children : list (option OperatorNode)) :
    is_cte_scan_of contents name = true ->
    attached name out (MkOperatorNode contents children)
      (MkOperatorNode contents (children ++ [out]))
| attached_below (contents : Operator) (before : list (option OperatorNode))
    (child child' : OperatorNode) (after : list (option OperatorNode)) :
    is_cte_scan_of contents name = false ->
    (forall c, In c before ->
               exists n, c = Some n /\ contains_cte_scan name n = false) ->
    attached name out child child' ->
    attached name out
      (MkOperatorNode contents (before ++ Some child :: after))
      (MkOperatorNode contents (before ++ Some child' :: after)).

(** The expression is an EXISTS over a row sub-select: an operator
    expression of type [OPERATOR_EXISTS] whose first child is of type
    [ROW_SUBQUERY]. *)
Definition exists_over_subquery (expr : AbstractExpression) : Prop :=
  GetClass expr = OperatorExpression /\
  GetExpressionType expr = OPERATOR_EXISTS /\
  exists c0, GetChild expr 0 = Ok c0 /\ GetExpressionType c0 = ROW_SUBQUERY.

(** **** Sample inputs *)

(** The column [table.name], not yet bound to oids. *)
Definition qualified_column (table name : string) : AbstractExpression :=
  Expression
    (ColumnValueExpression (MakeAliasNoSerial table) name INVALID_DATABASE_OID
       INVALID_TABLE_OID 0%N)
    {| expression_type_ := COLUMN_VALUE; expression_name_ := name;
       parser.alias_ := MakeAliasNoSerial ""; return_value_type_ := SqlTypeId.Integer;
       parser.depth_ := 0; has_subquery_ := false |}
    [].

(** [l AND r] and [l OR r]; [has_subquery] is the flag that the binder has
    set. *)
Definition conjunction (t : ExpressionType) (l r : AbstractExpression)
  (has_subquery : bool) : AbstractExpression :=
  Expression ConjunctionExpression
    {| expression_type_ := t; expression_name_ := "";
       parser.alias_ := MakeAliasNoSerial ""; return_value_type_ := SqlTypeId.Boolean;
       parser.depth_ := 0; has_subquery_ := has_subquery |}
    [l; r].

(** [t.a = s.b]. *)
Definition t_a_equals_s_b : AbstractExpression :=
  comparison COMPARE_EQUAL (qualified_column "t" "a") (qualified_column "s" "b")
    0 false.

(** [t.a = 1 OR t.a IN (SELECT b FROM s)]-like predicate: an OR over a
    sub-select. *)
Definition or_with_subquery : AbstractExpression :=
  conjunction CONJUNCTION_OR (qualified_column "t" "a")
    (subquery (simple_select [column "b" 1] (Some (table "s")) None None)) true.

(** [WITH c(a) AS (SELECT a FROM t) SELECT a FROM c WHERE t.a = s.b], as
    the binder leaves it: the alias of the CTE and of its column have their
    serial numbers. *)
Definition with_c : TableRef :=
  MkTableRef (MakeAlias "c" 3)
    (Some {| table_name_ := "c"; namespace_name_ := ""; database_name_ := "" |})
    (Some (simple_select [column "a" 0] (Some (table "t")) None None))
    [MakeAlias "a" 4] SIMPLE [] None.

Definition select_with_cte : SelectStatement :=
  Select [column "a" 0] false (Some (table "c")) (Some t_a_equals_s_b) None None
    None None 0 [with_c].

(** [SELECT a FROM t LIMIT 5 UNION SELECT a FROM t]. *)
Definition select_union : SelectStatement :=
  Select [column "a" 0] false (Some (table "t")) None None None
    (Some {| parser.limit_ := 5; offset_ := 0 |})
    (Some (simple_select [column "a" 0] (Some (table "t")) None None)) 0 [].

(** [EXISTS (SELECT b FROM s)]. *)
Definition exists_select_b : AbstractExpression :=
  Expression OperatorExpression
    {| expression_type_ := OPERATOR_EXISTS; expression_name_ := "";
       parser.alias_ := MakeAliasNoSerial ""; return_value_type_ := SqlTypeId.Boolean;
       parser.depth_ := 0; has_subquery_ := true |}
    [subquery (simple_select [column "b" 1] (Some (table "s")) None None)].

End optimizer_props.

(* ===================================================================== *)
(** ** What the properties of the binder are stated with *)
(* ===================================================================== *)

Module binder_props.
Import binder binder_spec.

(** The ORDER BY entry is a column reference by a bare name: no table name,
    and the column name [column_name], which is not empty. *)
Definition bare_column (e : AbstractExpression) (column_name : string) : Prop :=
  GetExpressionType e = COLUMN_VALUE /\
  column_name <> "" /\
  exists table_alias db_oid table_oid column_oid,
    GetClass e =
    ColumnValueExpression table_alias column_name db_oid table_oid column_oid /\
    name_ table_alias = "".

(** The ORDER BY entry is a column reference with a table name, or without
    a column name. *)
Definition qualified_column (e : AbstractExpression) : Prop :=
  GetExpressionType e = COLUMN_VALUE /\
  exists table_alias column_name db_oid table_oid column_oid,
    GetClass e =
    ColumnValueExpression table_alias column_name db_oid table_oid column_oid /\
    (name_ table_alias <> "" \/ column_name = "").

(** The first item of the select list whose expression name is [name]. *)
Definition select_item_named (select_items : list AbstractExpression)
  (name : string) : option AbstractExpression :=
  find (fun s => String.eqb (GetExpressionName s) name) select_items.

(** The value that a VALUES row gives for the column [name] of an explicit
    insert-column list: the value at the first position of the name. *)
Definition value_for (insert_columns : list string)
  (values : list AbstractExpression) (name : string) : option AbstractExpression :=
  match find_index name insert_columns with
  | Some index => nth_error values index
  | None => None
  end.

(** The value that [ValidateAndCorrectInsertValues] takes for the column
    [c] of the schema, with an insert-column list: the value given for its
    name; for a column that the list does not name, the stored default
    expression when there is one (the stored expression is not the NULL of
    the column type), else the NULL of the column type when the column is
    nullable. *)
Definition row_value (ExprEq : AbstractExpression -> AbstractExpression -> bool)
  (insert_columns : list string) (values : list AbstractExpression)
  (c : Column) (val : AbstractExpression) : Prop :=
  value_for insert_columns values (Name c) = Some val \/
  (~ In (Name c) insert_columns /\
   ExprEq (StoredExpression c) (NullConstant (Type_ c)) = false /\
   val = StoredExpression c) \/
  (~ In (Name c) insert_columns /\
   ExprEq (StoredExpression c) (NullConstant (Type_ c)) = true /\
   Nullable c = true /\
   val = NullConstant (Type_ c)).

(** **** Sample inputs *)

(** [a + 1 AS total]: an expression of the select list named [total]. *)
Definition named_item (name : string) : AbstractExpression :=
  Expression OperatorExpression (base_of OPERATOR_PLUS name SqlTypeId.Integer)
    [ColumnRef "a" SqlTypeId.Integer; IntegerConstant 1].

(** [INSERT INTO t (b, a) VALUES (2, 1)]. *)
Definition insert_b_a : InsertStatement :=
  {| type_ := VALUES; columns_ := ["b"; "a"]; table_ref_ := table_ref "t";
     select_ := None;
     insert_values_ := [[IntegerConstant 2; IntegerConstant 1]] |}.

(** [INSERT INTO t (a, c) VALUES (1, 2)]: [t] has no column [c]. *)
Definition insert_a_c : InsertStatement :=
  {| type_ := VALUES; columns_ := ["a"; "c"]; table_ref_ := table_ref "t";
     select_ := None;
     insert_values_ := [[IntegerConstant 1; IntegerConstant 2]] |}.

(** [INSERT INTO t VALUES (1, CAST(2 AS VARCHAR))]. *)
Definition insert_cast_varchar : InsertStatement :=
  {| type_ := VALUES; columns_ := []; table_ref_ := table_ref "t"; select_ := None;
     insert_values_ :=
       [[IntegerConstant 1; Cast SqlTypeId.Varchar (IntegerConstant 2)]] |}.

End binder_props.

(* ===================================================================== *)
(** ** [OptimizerUtil] ([src/optimizer/util.cpp]) *)
(* ===================================================================== *)

Module OptimizerUtil.
Import optimizer.

(** [tv_expr->GetTableAlias()] after the cast to [ColumnValueExpression]. *)
Definition GetTableAliasOf (e : AbstractExpression) : result AliasType :=
  match GetClass e with
  | ColumnValueExpression table_alias _ _ _ _ => Ok table_alias
  | _ => Err (UndefinedBehaviour "cast to ColumnValueExpression")
  end.

(** The body of the loop of [ExtractEquiJoinKeys] for one join predicate.
    The two alias sets are only searched: [left_alias a] is
    [left_alias.find(a) != left_alias.end()].  The assertion on VALUE_TUPLE
    is compiled out of a release build and is left out. *)
Definition ExtractEquiJoinKeys_predicate (left_alias right_alias : AliasType -> bool)
  (keys : list AbstractExpression * list AbstractExpression)
  (expr_unit : AnnotatedExpression)
  : result (list AbstractExpression * list AbstractExpression) :=
  let '(left_keys, right_keys) := keys in
  let expr := expr_ expr_unit in
  if ExpressionType_eqb (GetExpressionType expr) COMPARE_EQUAL then
    l_expr <- GetChild expr 0 ;;
    r_expr <- GetChild expr 1 ;;
    (* equi-join between two ColumnValueExpressions *)
    if ExpressionType_eqb (GetExpressionType l_expr) COLUMN_VALUE
       && ExpressionType_eqb (GetExpressionType r_expr) COLUMN_VALUE then
      l_tv_alias <- GetTableAliasOf l_expr ;;
      r_tv_alias <- GetTableAliasOf r_expr ;;
      (* Assign keys based on left and right join tables *)
      if left_alias l_tv_alias && right_alias r_tv_alias then
        Ok ((left_keys ++ [l_expr])%list, (right_keys ++ [r_expr])%list)
      else if left_alias r_tv_alias && right_alias l_tv_alias then
        Ok ((left_keys ++ [r_expr])%list, (right_keys ++ [l_expr])%list)
      else Ok keys
    else Ok keys
  else Ok keys.

(** [ExtractEquiJoinKeys]: the result is the two vectors of keys. *)
Fixpoint ExtractEquiJoinKeys (join_predicates : list AnnotatedExpression)
  (left_keys right_keys : list AbstractExpression)
  (left_alias right_alias : AliasType -> bool)
  : result (list AbstractExpression * list AbstractExpression) :=
  match join_predicates with
  | [] => Ok (left_keys, right_keys)
  | expr_unit :: join_predicates' =>
      '(left_keys, right_keys) <-
        ExtractEquiJoinKeys_predicate left_alias right_alias (left_keys, right_keys)
          expr_unit ;;
      ExtractEquiJoinKeys join_predicates' left_keys right_keys left_alias right_alias
  end.

(** [l = r] or [r = l] is one of the join predicates: an equality of the
    two column values. *)
Definition equates (join_predicates : list AnnotatedExpression)
  (l r : AbstractExpression) : Prop :=
  exists expr_unit,
    In expr_unit join_predicates /\
    GetExpressionType (expr_ expr_unit) = COMPARE_EQUAL /\
    ((GetChild (expr_ expr_unit) 0 = Ok l /\ GetChild (expr_ expr_unit) 1 = Ok r) \/
     (GetChild (expr_ expr_unit) 0 = Ok r /\ GetChild (expr_ expr_unit) 1 = Ok l)).

(** [l] is a column value of a table of the left side, [r] one of a table of
    the right side. *)
Definition sided (left_alias right_alias : AliasType -> bool)
  (l r : AbstractExpression) : Prop :=
  GetExpressionType l = COLUMN_VALUE /\ GetExpressionType r = COLUMN_VALUE /\
  exists la ra,
    GetTableAliasOf l = Ok la /\ GetTableAliasOf r = Ok ra /\
    left_alias la = true /\ right_alias ra = true.

(** **** Sample inputs *)

Definition is_alias (name : string) (a : AliasType) : bool :=
  String.eqb (name_ a) name.

(** [s.b = t.a], annotated. *)
Definition s_b_equals_t_a : AnnotatedExpression :=
  {| expr_ :=
       optimizer_spec.comparison COMPARE_EQUAL (optimizer_props.qualified_column "s" "b")
         (optimizer_props.qualified_column "t" "a") 0 false;
     table_alias_set_ := [MakeAliasNoSerial "s"; MakeAliasNoSerial "t"] |}.

End OptimizerUtil.

(* ===================================================================== *)
(** * Properties *)
(* ===================================================================== *)

(** ** General facts about the loops *)

Lemma mapR_app {A B} (f : A -> result B) (pre post : list A) :
  mapR f (pre ++ post) =
  (pre' <- mapR f pre ;; post' <- mapR f post ;; Ok (pre' ++ post')%list).
Proof.
  induction pre as [|x pre IH]; simpl.
  - destruct (mapR f post); reflexivity.
  - destruct (f x) as [y|]; simpl; [|reflexivity].
    rewrite IH. destruct (mapR f pre); simpl; [|reflexivity].
    destruct (mapR f post); reflexivity.
Qed.

Lemma mapR_length {A B} (f : A -> result B) (xs : list A) (ys : list B) :
  mapR f xs = Ok ys -> List.length ys = List.length xs.
Proof.
  revert ys. induction xs as [|x xs IH]; simpl; intros ys H.
  - inversion H; reflexivity.
  - destruct (f x); simpl in H; [|discriminate].
    destruct (mapR f xs) eqn:E; simpl in H; [|discriminate].
    inversion H; subst; simpl. f_equal. apply IH. reflexivity.
Qed.

Module binder_facts.
Import binder binder_spec.

(** *** ORDER BY *)

Lemma entry_ordinal (select_items : list AbstractExpression) e k :
  ordinal_constant e k ->
  UnifyOrderByExpression_entry select_items e =
  if (k <? 1) || (k >? Z.of_nat (List.length select_items)) then
    BINDER_EXCEPTION
      ("ORDER BY position " ++ dquote ++ to_string_int64 k ++ dquote
       ++ " is not in select list") ERRCODE_UNDEFINED_COLUMN
  else deref "select_items[column_id - 1]"
         (nth_error select_items (Z.to_nat (k - 1))).
Proof.
  intros [Hty Hk]. unfold UnifyOrderByExpression_entry.
  rewrite Hty. simpl.
  destruct Hk as [[Hin [i [Hi Hv]]] | [Hd [r [Hr Hv]]]].
  - simpl in Hin.
    destruct Hin as [H|[H|[H|[H|[]]]]]; rewrite <- H, Hi; simpl; rewrite Hv;
      reflexivity.
  - rewrite Hd, Hr. simpl. rewrite Hv. reflexivity.
Qed.

Lemma nth_error_in_range {A} (l : list A) (k : Z) :
  1 <= k <= Z.of_nat (List.length l) ->
  exists x, nth_error l (Z.to_nat (k - 1)) = Some x.
Proof.
  intros H. destruct (nth_error l (Z.to_nat (k - 1))) eqn:E; eauto.
  apply nth_error_None in E. lia.
Qed.

Lemma Unify_at (select_items : list AbstractExpression) types pre e post pre' :
  mapR (UnifyOrderByExpression_entry select_items) pre = Ok pre' ->
  UnifyOrderByExpression (MkOrderBy types (pre ++ e :: post)) select_items =
  (e' <- UnifyOrderByExpression_entry select_items e ;;
   post' <- mapR (UnifyOrderByExpression_entry select_items) post ;;
   Ok (MkOrderBy types (pre' ++ e' :: post'))).
Proof.
  intros Hpre. unfold UnifyOrderByExpression. simpl.
  rewrite mapR_app, Hpre. simpl.
  destruct (UnifyOrderByExpression_entry select_items e); simpl; [|reflexivity].
  destruct (mapR _ post); reflexivity.
Qed.

Lemma Unify_before (select_items : list AbstractExpression) types pre e post x :
  mapR (UnifyOrderByExpression_entry select_items) pre = Err x ->
  UnifyOrderByExpression (MkOrderBy types (pre ++ e :: post)) select_items = Err x.
Proof.
  intros Hpre. unfold UnifyOrderByExpression. simpl.
  rewrite mapR_app, Hpre. reflexivity.
Qed.

(** C3, as amended.  Let [k] be the [column_id] of an integer or real
    constant at some position of the ORDER BY list (a real constant is
    converted to a 64-bit integer, which drops its fraction; [k] is there
    when the conversion is defined).  The entries are processed in order,
    and the first failure ends the binding: when an entry before the
    constant fails, binding fails with the error of that entry.  When the
    entries before it are processed without error: if
    [1 <= k <= len(select_list)] the entry becomes the [k]-th select-list
    expression (counting from 1), and the loop goes on with the entries
    after it; otherwise binding fails with [UndefinedColumn], the message
    naming the position [k]. *)
Theorem UnifyOrderBy_ordinal
  (select_items : list AbstractExpression) types pre e post k :
  ordinal_constant e k ->
  (forall x,
     mapR (UnifyOrderByExpression_entry select_items) pre = Err x ->
     UnifyOrderByExpression (MkOrderBy types (pre ++ e :: post)) select_items
     = Err x)
  /\
  (forall pre',
     mapR (UnifyOrderByExpression_entry select_items) pre = Ok pre' ->
     (1 <= k <= Z.of_nat (List.length select_items) ->
      exists sel,
        nth_error select_items (Z.to_nat (k - 1)) = Some sel /\
        UnifyOrderByExpression (MkOrderBy types (pre ++ e :: post)) select_items =
        (post' <- mapR (UnifyOrderByExpression_entry select_items) post ;;
         Ok (MkOrderBy types (pre' ++ sel :: post'))))
     /\
     (k < 1 \/ Z.of_nat (List.length select_items) < k ->
      UnifyOrderByExpression (MkOrderBy types (pre ++ e :: post)) select_items =
      Err (BinderException
             ("ORDER BY position " ++ dquote ++ to_string_int64 k ++ dquote
              ++ " is not in select list") ERRCODE_UNDEFINED_COLUMN)
      /\ fails_with
           (UnifyOrderByExpression (MkOrderBy types (pre ++ e :: post)) select_items)
           UndefinedColumn)).
Proof.
  intros Hk. split; [intros x Hx; apply Unify_before; exact Hx|].
  intros pre' Hpre. split.
  - intros Hrange.
    destruct (nth_error_in_range select_items k Hrange) as [sel Hsel].
    exists sel. split; [exact Hsel|].
    rewrite (Unify_at _ _ _ _ _ _ Hpre), (entry_ordinal _ _ _ Hk).
    replace (k <? 1) with false by (symmetry; apply Z.ltb_ge; lia).
    replace (k >? Z.of_nat (List.length select_items)) with false
      by (symmetry; rewrite Z.gtb_ltb; apply Z.ltb_ge; lia).
    simpl. rewrite Hsel. reflexivity.
  - intros Hout.
    assert (E : UnifyOrderByExpression (MkOrderBy types (pre ++ e :: post))
                  select_items =
                Err (BinderException
                       ("ORDER BY position " ++ dquote ++ to_string_int64 k
                        ++ dquote ++ " is not in select list")
                       ERRCODE_UNDEFINED_COLUMN)).
    { rewrite (Unify_at _ _ _ _ _ _ Hpre), (entry_ordinal _ _ _ Hk).
      replace ((k <? 1) || (k >? Z.of_nat (List.length select_items))) with true.
      - reflexivity.
      - symmetry. apply orb_true_iff. rewrite Z.gtb_ltb.
        destruct Hout; [left; apply Z.ltb_lt | right; apply Z.ltb_lt]; lia. }
    split; [exact E|]. rewrite E. eexists; split; reflexivity.
Qed.

(** C4, as amended.  A constant of the ORDER BY list whose type is neither
    an integer type nor [Double] makes binding fail.  The entries are
    processed in order and the first failure ends the binding: when an
    entry before the constant fails, binding fails with the error of that
    entry; when the entries before it are processed without error, binding
    fails with [SyntaxError] ("non-integer constant in ORDER BY"). *)
Theorem UnifyOrderBy_non_numeric_constant
  (select_items : list AbstractExpression) types pre e post :
  GetExpressionType e = VALUE_CONSTANT ->
  ~ In (GetReturnValueType e)
      [SqlTypeId.TinyInt; SqlTypeId.SmallInt; SqlTypeId.Integer;
       SqlTypeId.BigInt; SqlTypeId.Double] ->
  (exists x,
     UnifyOrderByExpression (MkOrderBy types (pre ++ e :: post)) select_items
     = Err x)
  /\
  (forall x,
     mapR (UnifyOrderByExpression_entry select_items) pre = Err x ->
     UnifyOrderByExpression (MkOrderBy types (pre ++ e :: post)) select_items
     = Err x)
  /\
  (forall pre',
     mapR (UnifyOrderByExpression_entry select_items) pre = Ok pre' ->
     UnifyOrderByExpression (MkOrderBy types (pre ++ e :: post)) select_items =
     Err (BinderException "non-integer constant in ORDER BY" ERRCODE_SYNTAX_ERROR)
     /\ fails_with
          (UnifyOrderByExpression (MkOrderBy types (pre ++ e :: post)) select_items)
          SyntaxError).
Proof.
  intros Hty Hnot.
  assert (E : forall pre',
            mapR (UnifyOrderByExpression_entry select_items) pre = Ok pre' ->
            UnifyOrderByExpression (MkOrderBy types (pre ++ e :: post))
              select_items =
            Err (BinderException "non-integer constant in ORDER BY"
                   ERRCODE_SYNTAX_ERROR)).
  { intros pre' Hpre.
    rewrite (Unify_at _ _ _ _ _ _ Hpre). unfold UnifyOrderByExpression_entry.
    rewrite Hty. simpl.
    destruct (GetReturnValueType e); simpl; try reflexivity;
      exfalso; apply Hnot; simpl; tauto. }
  split; [|split].
  - destruct (mapR (UnifyOrderByExpression_entry select_items) pre)
      as [pre'|x] eqn:Hpre.
    + eexists. apply (E pre'). reflexivity.
    + exists x. apply Unify_before. exact Hpre.
  - intros x Hx. apply Unify_before. exact Hx.
  - intros pre' Hpre. split; [apply (E pre'); exact Hpre|].
    rewrite (E pre' Hpre). eexists; split; reflexivity.
Qed.

(** [SELECT a, b FROM t ORDER BY 2]: the entry becomes [b].
    [SELECT a, b FROM t ORDER BY 'x', 2] fails at its first entry. *)
Lemma UnifyOrderBy_ordinal_witness :
  (exists sel,
     nth_error [ColumnRef "a" SqlTypeId.Integer; ColumnRef "b" SqlTypeId.Integer]
       (Z.to_nat (2 - 1)) = Some sel /\
     UnifyOrderByExpression (MkOrderBy [kOrderAsc] ([] ++ IntegerConstant 2 :: []))
       [ColumnRef "a" SqlTypeId.Integer; ColumnRef "b" SqlTypeId.Integer] =
     (post' <- mapR (UnifyOrderByExpression_entry
                       [ColumnRef "a" SqlTypeId.Integer;
                        ColumnRef "b" SqlTypeId.Integer]) [] ;;
      Ok (MkOrderBy [kOrderAsc] ([] ++ sel :: post')))) /\
  UnifyOrderByExpression
    (MkOrderBy [kOrderAsc; kOrderAsc] ([StringConstant "x"] ++ IntegerConstant 2 :: []))
    [ColumnRef "a" SqlTypeId.Integer; ColumnRef "b" SqlTypeId.Integer] =
  Err (BinderException "non-integer constant in ORDER BY" ERRCODE_SYNTAX_ERROR).
Proof.
  assert (K : ordinal_constant (IntegerConstant 2) 2).
  { split; [reflexivity|]. left. split.
    - simpl. tauto.
    - eexists. split; reflexivity. }
  split.
  - refine (proj1 (proj2 (UnifyOrderBy_ordinal
             [ColumnRef "a" SqlTypeId.Integer; ColumnRef "b" SqlTypeId.Integer]
             [kOrderAsc] [] (IntegerConstant 2) [] 2 K) [] eq_refl) _).
    simpl. lia.
  - exact (proj1 (UnifyOrderBy_ordinal
             [ColumnRef "a" SqlTypeId.Integer; ColumnRef "b" SqlTypeId.Integer]
             [kOrderAsc; kOrderAsc] [StringConstant "x"] (IntegerConstant 2) [] 2 K)
             _ eq_refl).
Defined.

(** [SELECT a FROM t ORDER BY 1.5]: the constant is greater than the length
    of the select list, and binding succeeds, ordering by [a]. *)
Lemma UnifyOrderBy_real_above_length :
  exceeds one_and_a_half
    (Z.of_nat (List.length [ColumnRef "a" SqlTypeId.Integer])) = true /\
  UnifyOrderByExpression (MkOrderBy [kOrderAsc] [DoubleConstant one_and_a_half])
    [ColumnRef "a" SqlTypeId.Integer] =
  Ok (MkOrderBy [kOrderAsc] [ColumnRef "a" SqlTypeId.Integer]) /\
  ~ fails_with
      (UnifyOrderByExpression (MkOrderBy [kOrderAsc] [DoubleConstant one_and_a_half])
         [ColumnRef "a" SqlTypeId.Integer])
      UndefinedColumn.
Proof.
  split; [reflexivity|]. split; [reflexivity|].
  intros [e [H _]]. discriminate H.
Qed.

(** [SELECT a FROM t ORDER BY 'a'] fails with the syntax error;
    [SELECT a FROM t ORDER BY 5, 'a'] fails at its first entry. *)
Lemma UnifyOrderBy_non_numeric_constant_witness :
  (UnifyOrderByExpression
     (MkOrderBy [kOrderAsc] ([] ++ StringConstant "a" :: []))
     [ColumnRef "a" SqlTypeId.Integer] =
   Err (BinderException "non-integer constant in ORDER BY" ERRCODE_SYNTAX_ERROR)
   /\ fails_with
        (UnifyOrderByExpression
           (MkOrderBy [kOrderAsc] ([] ++ StringConstant "a" :: []))
           [ColumnRef "a" SqlTypeId.Integer])
        SyntaxError) /\
  fails_with
    (UnifyOrderByExpression
       (MkOrderBy [kOrderAsc; kOrderAsc] ([IntegerConstant 5] ++ StringConstant "a" :: []))
       [ColumnRef "a" SqlTypeId.Integer])
    UndefinedColumn.
Proof.
  assert (K : ~ In (GetReturnValueType (StringConstant "a"))
                [SqlTypeId.TinyInt; SqlTypeId.SmallInt; SqlTypeId.Integer;
                 SqlTypeId.BigInt; SqlTypeId.Double]).
  { simpl. intros [H|[H|[H|[H|[H|[]]]]]]; discriminate H. }
  split.
  - exact (proj2 (proj2 (UnifyOrderBy_non_numeric_constant
             [ColumnRef "a" SqlTypeId.Integer] [kOrderAsc] [] (StringConstant "a")
             [] eq_refl K)) [] eq_refl).
  - eexists. split.
    + exact (proj1 (proj2 (UnifyOrderBy_non_numeric_constant
               [ColumnRef "a" SqlTypeId.Integer] [kOrderAsc; kOrderAsc]
               [IntegerConstant 5] (StringConstant "a") [] eq_refl K))
               _ eq_refl).
    + reflexivity.
Defined.

(** [SELECT a FROM t ORDER BY 'a'] does not fail with [UndefinedColumn]. *)
Lemma UnifyOrderBy_string_constant_not_UndefinedColumn :
  ~ fails_with
      (UnifyOrderByExpression (MkOrderBy [kOrderAsc] [StringConstant "a"])
         [ColumnRef "a" SqlTypeId.Integer])
      UndefinedColumn.
Proof.
  intros [e [H K]]. cbv in H. inversion H; subst. discriminate K.
Qed.

(** *** UNION *)



(** *** WITH column aliases *)

Lemma string_app_assoc (a b c : string) : ((a ++ b) ++ c = a ++ (b ++ c))%string.
Proof. induction a as [|x a IH]; simpl; [reflexivity | rewrite IH; reflexivity]. Qed.

Lemma alias_given_spec (column_aliases : list AliasType) :
  forall (columns : list AbstractExpression) accessor,
    (List.length column_aliases <= List.length columns)%nat ->
    exists given accessor',
      alias_given column_aliases columns accessor = Ok (given, accessor') /\
      List.length given = List.length column_aliases /\
      forall i a c,
        nth_error column_aliases i = Some a -> nth_error columns i = Some c ->
        exists al, nth_error given i = Some (SetAlias c al, al) /\
                   name_ al = name_ a.
Proof.
  induction column_aliases as [|a aliases IH]; intros columns accessor Hlen.
  - exists [], accessor. split; [reflexivity|]. split; [reflexivity|].
    intros [|i] ? ? H; discriminate H.
  - destruct columns as [|c columns]; [simpl in Hlen; lia|].
    simpl in Hlen. simpl.
    destruct (IH columns
                {| GetDatabaseOid := GetDatabaseOid accessor;
                   GetTableOid := GetTableOid accessor;
                   GetSchema := GetSchema accessor;
                   next_temp_oid_ := N.succ (next_temp_oid_ accessor) |})
      as [given [accessor' [E [L H]]]]; [lia|].
    rewrite E. simpl. eexists _, _. split; [reflexivity|].
    split; [simpl; rewrite L; reflexivity|].
    intros [|i] x y Hx Hy; simpl in *.
    + inversion Hx; inversion Hy; subst. eexists. split; reflexivity.
    + eapply H; eassumption.
Qed.

Lemma alias_synthesized_spec (columns : list AbstractExpression) :
  forall accessor,
    List.length (fst (alias_synthesized columns accessor)) = List.length columns /\
    forall i c,
      nth_error columns i = Some c ->
      exists al,
        nth_error (fst (alias_synthesized columns accessor)) i
        = Some (SetAlias c al, al) /\
        name_ al = synthesized_name c.
Proof.
  induction columns as [|c columns IH]; intros accessor.
  - split; [reflexivity|]. intros [|i] ? H; discriminate H.
  - simpl.
    destruct (alias_synthesized columns
                {| GetDatabaseOid := GetDatabaseOid accessor;
                   GetTableOid := GetTableOid accessor;
                   GetSchema := GetSchema accessor;
                   next_temp_oid_ := N.succ (next_temp_oid_ accessor) |})
      as [rest accessor2] eqn:E.
    specialize (IH {| GetDatabaseOid := GetDatabaseOid accessor;
                      GetTableOid := GetTableOid accessor;
                      GetSchema := GetSchema accessor;
                      next_temp_oid_ := N.succ (next_temp_oid_ accessor) |}).
    rewrite E in IH. simpl in IH. destruct IH as [L H]. simpl.
    split; [rewrite L; reflexivity|].
    intros [|i] x Hx; simpl in *.
    + inversion Hx; subst. eexists. split; [reflexivity|].
      unfold synthesized_name, Empty. simpl.
      destruct (string_dec (GetExpressionName x) "") as [K|K].
      * rewrite K. reflexivity.
      * apply String.eqb_neq in K. rewrite K. reflexivity.
    + apply H; assumption.
Qed.

(** C5.  When more column aliases are given than the SELECT has columns,
    the reconciliation fails with [SchemaMismatch] and its message contains
    both counts.  Otherwise it succeeds and names every column: a column
    that has a given alias takes its name, and each remaining column takes
    the name of its expression, or "?column?" when that name is empty. *)
Theorem ReconcileCteColumnAliases_spec
  (ref : TableRef) (sel_cols : list AbstractExpression) (accessor : CatalogAccessor) :
  let num_aliases := List.length (GetCteColumnAliases ref) in
  let num_columns := List.length sel_cols in
  ((num_aliases > num_columns)%nat ->
   let what :=
     ("WITH query " ++ name_ (GetTableAlias ref) ++ " has "
      ++ to_string_size num_columns ++ " columns available but "
      ++ to_string_size num_aliases ++ " specified")%string in
   ReconcileCteColumnAliases ref sel_cols accessor =
     Err (BinderException what ERRCODE_INVALID_SCHEMA_DEFINITION) /\
   fails_with (ReconcileCteColumnAliases ref sel_cols accessor) SchemaMismatch /\
   contains what (to_string_size num_columns) /\
   contains what (to_string_size num_aliases))
  /\
  ((num_aliases <= num_columns)%nat ->
   exists columns aliases accessor',
     ReconcileCteColumnAliases ref sel_cols accessor =
       Ok (columns, aliases, accessor') /\
     List.length columns = num_columns /\
     List.length aliases = num_columns /\
     forall i c,
       nth_error sel_cols i = Some c ->
       exists al,
         nth_error aliases i = Some al /\
         nth_error columns i = Some (SetAlias c al) /\
         (forall a, nth_error (GetCteColumnAliases ref) i = Some a ->
                    name_ al = name_ a) /\
         ((num_aliases <= i)%nat -> name_ al = synthesized_name c)).
Proof.
  intros num_aliases num_columns. unfold ReconcileCteColumnAliases.
  fold num_aliases num_columns. split.
  - intros Hgt.
    replace (num_columns <? num_aliases)%nat with true
      by (symmetry; apply Nat.ltb_lt; lia).
    split; [reflexivity|]. split.
    + eexists; split; reflexivity.
    + split.
      * exists ("WITH query " ++ name_ (GetTableAlias ref) ++ " has ")%string.
        eexists. rewrite !string_app_assoc. reflexivity.
      * exists ("WITH query " ++ name_ (GetTableAlias ref) ++ " has "
                ++ to_string_size num_columns ++ " columns available but ")%string.
        eexists. rewrite !string_app_assoc. reflexivity.
  - intros Hle.
    replace (num_columns <? num_aliases)%nat with false
      by (symmetry; apply Nat.ltb_ge; lia).
    assert (Hfirst : List.length (firstn num_aliases sel_cols) = num_aliases).
    { rewrite length_firstn. lia. }
    destruct (alias_given_spec (GetCteColumnAliases ref)
                (firstn num_aliases sel_cols) accessor)
      as [given [accessor1 [E [Lg Hg]]]]; [fold num_aliases; lia|].
    rewrite E. simpl.
    destruct (alias_synthesized (skipn num_aliases sel_cols) accessor1)
      as [synthesized accessor2] eqn:Es.
    destruct (alias_synthesized_spec (skipn num_aliases sel_cols) accessor1)
      as [Ls Hs].
    rewrite Es in Ls, Hs. simpl in Ls, Hs.
    fold num_aliases in Lg.
    assert (Lall : List.length (given ++ synthesized) = num_columns).
    { rewrite length_app, Lg, Ls, length_skipn. fold num_columns. lia. }
    eexists _, _, _. split; [reflexivity|].
    split; [rewrite length_map; exact Lall|].
    split; [rewrite length_map; exact Lall|].
    intros i c Hc.
    destruct (Nat.lt_ge_cases i num_aliases) as [Hi|Hi].
    + assert (Ha : exists a, nth_error (GetCteColumnAliases ref) i = Some a).
      { destruct (nth_error (GetCteColumnAliases ref) i) eqn:K; eauto.
        apply nth_error_None in K. fold num_aliases in K. lia. }
      destruct Ha as [a Ha].
      destruct (Hg i a c Ha) as [al [Hal Hname]].
      { rewrite nth_error_firstn.
        replace (i <? num_aliases)%nat with true
          by (symmetry; apply Nat.ltb_lt; lia). exact Hc. }
      exists al. rewrite !nth_error_map, nth_error_app1, Hal by lia. simpl.
      repeat split.
      * intros a' Ha'. rewrite Ha in Ha'. inversion Ha'; subst. exact Hname.
      * intros K. lia.
    + destruct (Hs (i - num_aliases)%nat c) as [al [Hal Hname]].
      { rewrite nth_error_skipn.
        replace (num_aliases + (i - num_aliases))%nat with i by lia. exact Hc. }
      exists al. rewrite !nth_error_map, nth_error_app2, Lg, Hal by lia. simpl.
      repeat split.
      * intros a Ha. assert (K : nth_error (GetCteColumnAliases ref) i = None).
        { apply nth_error_None. fold num_aliases. lia. }
        rewrite K in Ha. discriminate Ha.
      * intros _. exact Hname.
Qed.


(** [WITH c(x, y, z) AS (SELECT 1, 2)]: three aliases for two columns. *)
Lemma ReconcileCteColumnAliases_spec_witness :
  ReconcileCteColumnAliases (cte_c ["x"; "y"; "z"])
    [IntegerConstant 1; IntegerConstant 2] sample_accessor =
  Err (BinderException "WITH query c has 2 columns available but 3 specified"
         ERRCODE_INVALID_SCHEMA_DEFINITION).
Proof.
  apply (proj1 (ReconcileCteColumnAliases_spec (cte_c ["x"; "y"; "z"])
                  [IntegerConstant 1; IntegerConstant 2] sample_accessor)).
  simpl. lia.
Defined.

(** [WITH c(x) AS (SELECT 1, 2)]: the columns are named [x] and
    [?column?]. *)
Lemma ReconcileCteColumnAliases_names_x_and_placeholder :
  exists columns accessor',
    ReconcileCteColumnAliases (cte_c ["x"]) [IntegerConstant 1; IntegerConstant 2]
      sample_accessor =
    Ok (columns, [MakeAlias "x" 1%N; MakeAlias "?column?" 2%N], accessor') /\
    map GetAlias columns = [MakeAlias "x" 1%N; MakeAlias "?column?" 2%N].
Proof. eexists. eexists. split; reflexivity. Qed.

End binder_facts.

Module insert_facts.
Import binder binder_spec.

(** Splits a successful sequence [x <- c ;; k] into its steps. *)
Ltac bind_ok H :=
  match type of H with
  | bindR ?c _ = Ok _ =>
      let E := fresh "E" in
      destruct c eqn:E; simpl in H; [|discriminate H]
  end.

Lemma mapS_length {A B S} (f : A -> S -> result (B * S)) (xs : list A) :
  forall s ys s', mapS f xs s = Ok (ys, s') -> List.length ys = List.length xs.
Proof.
  induction xs as [|x xs IH]; simpl; intros s ys s' H.
  - inversion H; reflexivity.
  - bind_ok H. destruct a as [y s1]. bind_ok H. destruct a as [ys' s2].
    inversion H; subst. simpl. f_equal. eapply IH; eassumption.
Qed.

Lemma mapS_In {A B S} (f : A -> S -> result (B * S)) (xs : list A) :
  forall s ys s' y,
    mapS f xs s = Ok (ys, s') -> In y ys ->
    exists x s0 s1, In x xs /\ f x s0 = Ok (y, s1).
Proof.
  induction xs as [|x xs IH]; simpl; intros s ys s' y H Hy.
  - inversion H; subst. contradiction.
  - bind_ok H. destruct a as [y0 s1]. bind_ok H. destruct a as [ys' s2].
    inversion H; subst. destruct Hy as [Hy|Hy].
    + subst. eauto 6.
    + destruct (IH _ _ _ _ E0 Hy) as [x' [s0 [s3 [Hin Hf]]]]. eauto 7.
Qed.

Lemma ExpressionType_eqb_neq (a b : ExpressionType) :
  a <> b -> ExpressionType_eqb a b = false.
Proof.
  intros H. unfold ExpressionType_eqb.
  destruct (ExpressionType_eq_dec a b); [contradiction | reflexivity].
Qed.

Lemma ExpressionType_eqb_refl (a : ExpressionType) : ExpressionType_eqb a a = true.
Proof.
  unfold ExpressionType_eqb.
  destruct (ExpressionType_eq_dec a a); [reflexivity | contradiction].
Qed.

Section InsertFacts.

Variable Accept :
  AbstractExpression -> BindNodeVisitor ->
  result (AbstractExpression * BindNodeVisitor).
Variable ExprEq : AbstractExpression -> AbstractExpression -> bool.
Variable VisitSelectStatement :
  SelectStatement -> BindNodeVisitor -> result (SelectStatement * BindNodeVisitor).
Variable TableMapping :
  BindNodeVisitor -> TableInfo -> AliasType -> result Schema.

(** **** The second pass over a settled row *)

Lemma validate_entry_settled col val :
  settled Accept val ->
  forall v, exists v', validate_entry Accept (col, val) v = Ok (val, v').
Proof.
  intros [Hd [Hc Hs]] v. unfold validate_entry. simpl.
  rewrite (ExpressionType_eqb_neq _ _ Hd), (ExpressionType_eqb_neq _ _ Hc).
  simpl. apply Hs.
Qed.

Lemma validate_all_settled (cols : list (Column * AbstractExpression)) :
  (forall p, In p cols -> settled Accept (snd p)) ->
  forall v, exists v', mapS (validate_entry Accept) cols v = Ok (map snd cols, v').
Proof.
  induction cols as [|[col val] cols IH]; intros H v.
  - exists v. reflexivity.
  - destruct (validate_entry_settled col val (H (col, val) (or_introl eq_refl)) v)
      as [v1 E1].
    destruct (IH (fun p Hp => H p (or_intror Hp)) v1) as [v2 E2].
    exists v2. simpl. rewrite E1. simpl. rewrite E2. reflexivity.
Qed.

Lemma find_index_first (x : string) (pre suf : list string) :
  ~ In x pre -> find_index x (pre ++ x :: suf) = Some (List.length pre).
Proof.
  induction pre as [|y pre IH]; simpl; intros H.
  - rewrite String.eqb_refl. reflexivity.
  - destruct (String.eqb y x) eqn:E.
    + apply String.eqb_eq in E. exfalso. apply H. left. exact E.
    + rewrite IH; [reflexivity|]. intros K. apply H. right. exact K.
Qed.

Lemma schema_ordered_full (suf : list Column) :
  forall (pre : list Column) (vpre vsuf : list AbstractExpression) v,
    NoDup (map Name (pre ++ suf)) ->
    List.length vpre = List.length pre ->
    List.length vsuf = List.length suf ->
    mapS (schema_ordered_entry ExprEq (map Name (pre ++ suf)) (vpre ++ vsuf)) suf v
    = Ok (combine suf vsuf, v).
Proof.
  induction suf as [|c suf IH]; intros pre vpre vsuf v Hnd Lpre Lsuf.
  - reflexivity.
  - destruct vsuf as [|val vsuf]; [discriminate Lsuf|].
    simpl in Lsuf. simpl mapS at 1. unfold schema_ordered_entry at 1.
    rewrite map_app. simpl map.
    rewrite find_index_first.
    + rewrite length_map, <- Lpre, nth_error_app2, Nat.sub_diag by lia. simpl.
      replace (map Name pre ++ Name c :: map Name suf)%list
        with (map Name ((pre ++ [c]) ++ suf))
        by (rewrite <- app_assoc, map_app; reflexivity).
      replace (vpre ++ val :: vsuf)%list with ((vpre ++ [val]) ++ vsuf)%list
        by (rewrite <- app_assoc; reflexivity).
      rewrite IH.
      * reflexivity.
      * rewrite <- app_assoc. exact Hnd.
      * rewrite !length_app. simpl. lia.
      * lia.
    + rewrite map_app in Hnd. simpl in Hnd.
      apply NoDup_remove_2 in Hnd. intros K. apply Hnd.
      apply in_or_app. left. exact K.
Qed.

Lemma combine_snd {A B} (l : list A) (r : list B) :
  List.length l = List.length r -> map snd (combine l r) = r.
Proof.
  revert r. induction l as [|a l IH]; intros [|b r] H; simpl in *;
    try discriminate; [reflexivity|]. f_equal. apply IH. lia.
Qed.

Lemma ValidateAndCorrectInsertValues_settled
  (node : InsertStatement) (values : list AbstractExpression)
  (table_schema : Schema) (v : BindNodeVisitor) :
  GetInsertColumns node = map Name (GetColumns table_schema) ->
  NoDup (map Name (GetColumns table_schema)) ->
  List.length values = List.length (GetColumns table_schema) ->
  (forall val, In val values -> settled Accept val) ->
  exists v',
    ValidateAndCorrectInsertValues Accept ExprEq node values table_schema v
    = Ok (values, v').
Proof.
  intros Hcols Hnd Hlen Hset. unfold ValidateAndCorrectInsertValues.
  rewrite Hcols, length_map, Hlen, Nat.eqb_refl.
  destruct (Nat.eqb (List.length (GetColumns table_schema)) 0) eqn:E0; simpl.
  - rewrite <- Hlen, firstn_all2 by lia.
    destruct (validate_all_settled (combine (GetColumns table_schema) values))
      with (v := v) as [v' E].
    + intros [c val] Hin. apply Hset. eapply in_combine_r. exact Hin.
    + rewrite combine_snd in E by lia. exists v'. exact E.
  - pose proof (schema_ordered_full (GetColumns table_schema) [] [] values v) as K.
    simpl in K. rewrite K by (auto; lia). simpl.
    destruct (validate_all_settled (combine (GetColumns table_schema) values))
      with (v := v) as [v' E].
    + intros [c val] Hin. apply Hset. eapply in_combine_r. exact Hin.
    + rewrite combine_snd in E by lia. exists v'. exact E.
Qed.

(** **** The first pass *)

Lemma ValidateAndCorrectInsertValues_length
  (node : InsertStatement) (values values' : list AbstractExpression)
  (table_schema : Schema) (v v' : BindNodeVisitor) :
  ValidateAndCorrectInsertValues Accept ExprEq node values table_schema v
  = Ok (values', v') ->
  List.length values' = List.length (GetColumns table_schema).
Proof.
  unfold ValidateAndCorrectInsertValues. intros H.
  destruct (Nat.eqb (List.length (GetInsertColumns node)) 0) eqn:E0; simpl in H.
  - destruct (Nat.eqb (List.length values) (List.length (GetColumns table_schema)))
      eqn:E1; simpl in H; [|discriminate H].
    apply Nat.eqb_eq in E1. apply mapS_length in H.
    rewrite H, length_combine, length_firstn. lia.
  - rewrite orb_false_r in H.
    destruct (Nat.eqb (List.length values) (List.length (GetInsertColumns node)));
      simpl in H; [|discriminate H].
    bind_ok H. destruct a as [cols v1].
    apply mapS_length in H. apply mapS_length in E. lia.
Qed.

Lemma Visit_InsertStatement_ok (node node' : InsertStatement) (v v' : BindNodeVisitor) :
  Visit_InsertStatement Accept ExprEq VisitSelectStatement TableMapping node v
  = Ok (node', v') ->
  exists info table_schema,
    GetTableInfo (InitTableRef (GetInsertionTable node)) = Some info /\
    TableMapping v info (GetTableAlias (InitTableRef (GetInsertionTable node)))
    = Ok table_schema /\
    GetInsertColumns node' = map Name (GetColumns table_schema) /\
    forall row, In row (rows_of node') ->
                List.length row = List.length (GetColumns table_schema).
Proof.
  unfold Visit_InsertStatement. intros H. cbv zeta in H.
  change (GetInsertionTable
            (SetInsertionTable node (InitTableRef (GetInsertionTable node))))
    with (InitTableRef (GetInsertionTable node)) in H.
  change (GetInsertColumns
            (SetInsertionTable node (InitTableRef (GetInsertionTable node))))
    with (GetInsertColumns node) in H.
  change (GetInsertSelect
            (SetInsertionTable node (InitTableRef (GetInsertionTable node))))
    with (GetInsertSelect node) in H.
  change (GetValues
            (SetInsertionTable node (InitTableRef (GetInsertionTable node))))
    with (GetValues node) in H.
  destruct (GetTableInfo (InitTableRef (GetInsertionTable node))) as [info|];
    simpl in H; [|discriminate H].
  destruct (ValidateDatabaseName v (database_name_ info)); simpl in H;
    [|discriminate H].
  destruct (TableMapping v info _) as [table_schema|] eqn:Et; simpl in H;
    [|discriminate H].
  destruct (mapR _ (GetInsertColumns node)); simpl in H; [|discriminate H].
  exists info, table_schema. split; [reflexivity|]. split; [exact Et|].
  destruct (GetInsertSelect node) as [select|] eqn:Es.
  - destruct (VisitSelectStatement select v) as [[select1 v1]|] eqn:E1;
      simpl in H; [|discriminate H].
    destruct (ValidateAndCorrectInsertValues Accept ExprEq _
                (GetSelectColumns select1) table_schema v1)
      as [[cols v2]|] eqn:E2; simpl in H; [|discriminate H].
    inversion H; subst. split; [reflexivity|].
    intros row Hrow. unfold rows_of in Hrow. simpl in Hrow.
    destruct Hrow as [Hrow|[]]. subst row.
    destruct select1. simpl.
    eapply ValidateAndCorrectInsertValues_length. exact E2.
  - destruct (mapS _ (GetValues node) v) as [[rows v1]|] eqn:E1; simpl in H;
      [|discriminate H].
    inversion H; subst. split; [reflexivity|].
    intros row Hrow. unfold rows_of in Hrow. simpl in Hrow.
    unfold GetInsertSelect in Es. rewrite Es in Hrow.
    destruct (mapS_In _ _ _ _ _ _ E1 Hrow) as [values [s0 [s1 [_ Hf]]]].
    eapply ValidateAndCorrectInsertValues_length. exact Hf.
Qed.

(** **** A schema column left out of the insert-column list *)

Lemma find_index_lt (x : string) (xs : list string) (i : nat) :
  find_index x xs = Some i -> (i < List.length xs)%nat.
Proof.
  revert i. induction xs as [|y xs IH]; simpl; intros i H; [discriminate H|].
  destruct (String.eqb y x).
  - inversion H; lia.
  - destruct (find_index x xs); [|discriminate H].
    inversion H; subst. specialize (IH n eq_refl). lia.
Qed.

Lemma schema_ordered_entry_cases insert_columns values schema_col v :
  List.length values = List.length insert_columns ->
  (exists r, schema_ordered_entry ExprEq insert_columns values schema_col v = Ok r)
  \/ schema_ordered_entry ExprEq insert_columns values schema_col v =
     Err (BinderException
            "Column not present, does not have a default and is non-nullable."
            ERRCODE_SYNTAX_ERROR).
Proof.
  intros Hlen. unfold schema_ordered_entry.
  destruct (find_index (Name schema_col) insert_columns) as [index|] eqn:E.
  - apply find_index_lt in E.
    destruct (nth_error values index) eqn:K.
    + left. eexists. reflexivity.
    + apply nth_error_None in K. lia.
  - destruct (ExprEq _ _); simpl; [|left; eexists; reflexivity].
    destruct (Nullable schema_col); [left; eexists; reflexivity|].
    right. reflexivity.
Qed.

Lemma schema_ordered_absent insert_columns values (cols : list Column) c :
  List.length values = List.length insert_columns ->
  In c cols ->
  find_index (Name c) insert_columns = None ->
  ExprEq (StoredExpression c) (NullConstant (Type_ c)) = true ->
  Nullable c = false ->
  forall v,
    mapS (schema_ordered_entry ExprEq insert_columns values) cols v =
    Err (BinderException
           "Column not present, does not have a default and is non-nullable."
           ERRCODE_SYNTAX_ERROR).
Proof.
  intros Hlen Hin Hnone Heq Hnn.
  induction cols as [|col cols IH]; intros v; [contradiction|].
  simpl.
  destruct (schema_ordered_entry_cases insert_columns values col v Hlen)
    as [[[p v1] E]|E]; rewrite E; simpl; [|reflexivity].
  destruct Hin as [Hin|Hin].
  - subst col. unfold schema_ordered_entry in E.
    rewrite Hnone, Heq, Hnn in E. discriminate E.
  - rewrite (IH Hin). reflexivity.
Qed.

(** The first half of C2: a schema column that is absent from a given
    insert-column list, has no stored default and is not nullable makes
    [ValidateAndCorrectInsertValues] fail with [SyntaxError]. *)
Lemma absent_not_null_column_SyntaxError
  (node : InsertStatement) (values : list AbstractExpression)
  (table_schema : Schema) (v : BindNodeVisitor) (c : Column) :
  GetInsertColumns node <> [] ->
  In c (GetColumns table_schema) ->
  find_index (Name c) (GetInsertColumns node) = None ->
  ExprEq (StoredExpression c) (NullConstant (Type_ c)) = true ->
  Nullable c = false ->
  fails_with
    (ValidateAndCorrectInsertValues Accept ExprEq node values table_schema v)
    SyntaxError.
Proof.
  intros Hne Hin Hnone Heq Hnn. unfold ValidateAndCorrectInsertValues.
  destruct (GetInsertColumns node) as [|x xs] eqn:Ec; [contradiction|].
  simpl List.length. simpl Nat.eqb at 1. simpl negb. rewrite orb_false_r.
  simpl andb.
  destruct (Nat.eqb (List.length values) (S (List.length xs))) eqn:E; simpl.
  - apply Nat.eqb_eq in E.
    rewrite (schema_ordered_absent (x :: xs) values _ c); auto.
    eexists. split; reflexivity.
  - eexists. split; reflexivity.
Qed.

(** The DEFAULT marker: the value becomes a copy of the stored expression
    of the column and is visited; whether the column is nullable is not
    looked at. *)
Lemma validate_entry_default (col : Column) (val : AbstractExpression) v :
  GetExpressionType val = VALUE_DEFAULT ->
  GetExpressionType (StoredExpression col) <> OPERATOR_CAST ->
  validate_entry Accept (col, val) v =
  Accept (StoredExpression col)
    (AddExpression
       (SetDesiredType (SetDesiredType v val (Type_ col))
          (StoredExpression col) (Type_ col))
       (StoredExpression col)).
Proof.
  intros Hd Hc. unfold validate_entry. simpl.
  rewrite Hd, ExpressionType_eqb_refl. unfold Copy.
  rewrite (ExpressionType_eqb_neq _ _ Hc). reflexivity.
Qed.

(** C1, as amended.  After an INSERT statement has been bound, its
    insert-column list is the list of the names of all columns of the
    target table, in schema order, whatever column list the statement came
    with.  Running [ValidateAndCorrectInsertValues] once more on a row of
    the bound statement returns the row unchanged, provided the columns of
    the table have distinct names and every value of the row is settled:
    it is neither a DEFAULT marker nor a CAST node, and visiting it again
    changes nothing in it. *)
Theorem Visit_InsertStatement_columns_and_second_pass
  (node node' : InsertStatement) (v v' : BindNodeVisitor) :
  Visit_InsertStatement Accept ExprEq VisitSelectStatement TableMapping node v
  = Ok (node', v') ->
  exists info table_schema,
    GetTableInfo (InitTableRef (GetInsertionTable node)) = Some info /\
    TableMapping v info (GetTableAlias (InitTableRef (GetInsertionTable node)))
    = Ok table_schema /\
    GetInsertColumns node' = map Name (GetColumns table_schema) /\
    (NoDup (map Name (GetColumns table_schema)) ->
     forall row,
       In row (rows_of node') ->
       (forall val, In val row -> settled Accept val) ->
       forall v0, exists v1,
         ValidateAndCorrectInsertValues Accept ExprEq node' row table_schema v0
         = Ok (row, v1)).
Proof.
  intros H.
  destruct (Visit_InsertStatement_ok _ _ _ _ H)
    as [info [table_schema [Hi [Ht [Hc Hl]]]]].
  exists info, table_schema. repeat split; auto.
  intros Hnd row Hrow Hset v0.
  apply ValidateAndCorrectInsertValues_settled; auto.
Qed.

End InsertFacts.


(** **** Sample runs *)

(** [INSERT INTO t VALUES (1, 2)] binds; the column list becomes [a, b] and
    a second pass over the row changes nothing. *)
Lemma Visit_InsertStatement_columns_and_second_pass_witness :
  exists node' v',
    Visit_InsertStatement Accept_unchanged ConstantEq no_select
      (mapping_of schema_t) insert_1_2 sample_visitor = Ok (node', v') /\
    GetInsertColumns node' = ["a"; "b"]%string /\
    forall v0, exists v1,
      ValidateAndCorrectInsertValues Accept_unchanged ConstantEq node'
        [IntegerConstant 1; IntegerConstant 2] schema_t v0
      = Ok ([IntegerConstant 1; IntegerConstant 2], v1).
Proof.
  eexists. eexists. split; [reflexivity|].
  destruct (Visit_InsertStatement_columns_and_second_pass
              Accept_unchanged ConstantEq no_select (mapping_of schema_t)
              insert_1_2 _ sample_visitor _ eq_refl)
    as [info [table_schema [Hi [Ht [Hc Hs]]]]].
  inversion Ht; subst table_schema.
  split; [exact Hc|].
  apply Hs.
  - simpl. repeat constructor; simpl; intuition discriminate.
  - left. reflexivity.
  - intros val [Hv|[Hv|[]]]; subst val;
      (split; [discriminate|split; [discriminate|]]);
      intros v0; exists v0; reflexivity.
Defined.

(** [INSERT INTO u VALUES (CAST(CAST(1 AS INTEGER) AS INTEGER))] binds; the
    bound statement carries the full column list and the row
    [CAST(1 AS INTEGER)]; a second pass turns the row into [1]. *)
Lemma second_pass_strips_a_nested_cast :
  exists node' v' v'',
    Visit_InsertStatement Accept_unchanged ConstantEq no_select
      (mapping_of schema_u) insert_nested_cast sample_visitor = Ok (node', v') /\
    GetInsertColumns node' = map Name (GetColumns schema_u) /\
    GetValues node' = [[Cast SqlTypeId.Integer (IntegerConstant 1)]] /\
    ValidateAndCorrectInsertValues Accept_unchanged ConstantEq node'
      [Cast SqlTypeId.Integer (IntegerConstant 1)] schema_u v'
    = Ok ([IntegerConstant 1], v'') /\
    [IntegerConstant 1] <> [Cast SqlTypeId.Integer (IntegerConstant 1)].
Proof.
  eexists. eexists. eexists.
  split; [reflexivity|]. split; [reflexivity|]. split; [reflexivity|].
  split; [reflexivity|]. discriminate.
Qed.

(** C2, on the code.  The statement says that an INSERT fails with
    [SyntaxError] when a column that is not nullable and has no stored
    default gets no usable value, be it absent from the insert-column list
    or given as the DEFAULT marker.  The absent column does fail so
    ([absent_not_null_column_SyntaxError]).  The DEFAULT marker does not:
    for [INSERT INTO t VALUES (1, DEFAULT)], where [b] is not nullable and
    has no default, binding succeeds and the row becomes [(1, NULL)]. *)
Lemma insert_default_into_not_null_column_binds :
  Nullable (int_not_null "b" 2%N) = false /\
  ConstantEq (StoredExpression (int_not_null "b" 2%N))
    (NullConstant (Type_ (int_not_null "b" 2%N))) = true /\
  (exists node' v',
     Visit_InsertStatement Accept_unchanged ConstantEq no_select
       (mapping_of schema_t) insert_1_default sample_visitor = Ok (node', v') /\
     GetValues node' = [[IntegerConstant 1; NullConstant SqlTypeId.Integer]]) /\
  ~ fails_with
      (Visit_InsertStatement Accept_unchanged ConstantEq no_select
         (mapping_of schema_t) insert_1_default sample_visitor)
      SyntaxError.
Proof.
  split; [reflexivity|]. split; [reflexivity|]. split.
  - eexists. eexists. split; reflexivity.
  - intros [e [H _]]. discriminate H.
Qed.

(** [INSERT INTO t (a) VALUES (1)], where [b] is not nullable and has no
    default, fails with [SyntaxError]. *)
Lemma insert_without_not_null_column_fails :
  fails_with
    (Visit_InsertStatement Accept_unchanged ConstantEq no_select
       (mapping_of schema_t) insert_a_only sample_visitor)
    SyntaxError.
Proof. eexists. split; reflexivity. Qed.

End insert_facts.

(* ===================================================================== *)
(** ** The fuel of the visitor

    With fuel for the nesting depth of the statement, [Visit] never stops
    for lack of fuel: it ends in a value or in an exception of the code.
    A visit returns a node that is no deeper than the one it was given, so
    the nodes that the transformer visits a second time (the WITH clauses,
    the children of a comparison after its sub-select was replaced by a
    column) are within the same fuel. *)
(* ===================================================================== *)
Module fuel_facts.
Import optimizer optimizer_spec.

Lemma within_by_runs {R} (m : R -> nat) b (r : result R) : within_by m b r -> runs r.
Proof. intros H K. subst r. exact H. Qed.

Lemma within_by_bind {B R} (r : result B) (k : B -> result R) (m : R -> nat) bound :
  runs r ->
  (forall b, r = Ok b -> within_by m bound (k b)) ->
  within_by m bound (bindR r k).
Proof.
  intros Hr Hk. destruct r as [b|e]; simpl.
  - apply Hk. reflexivity.
  - destruct e; try exact I. apply Hr. reflexivity.
Qed.

Lemma within_by_weaken {R} (m : R -> nat) b b' (r : result R) :
  (b <= b')%nat -> within_by m b r -> within_by m b' r.
Proof.
  intros Hb H. destruct r as [x|e]; simpl in *; [lia|exact H].
Qed.

Lemma runs_deref {A} what (p : option A) : runs (deref what p).
Proof. destruct p; discriminate. Qed.

Lemma runs_at {A} (v : list A) i : runs (at_ v i).
Proof. unfold at_. destruct (nth_error v i); discriminate. Qed.

Lemma runs_GetChild e i : runs (GetChild e i).
Proof. apply runs_deref. Qed.

Lemma runs_bind {A B} (r : result A) (k : A -> result B) :
  runs r -> (forall a, r = Ok a -> runs (k a)) -> runs (bindR r k).
Proof.
  intros Hr Hk. destruct r as [a|e]; simpl; [apply Hk; reflexivity|].
  intros K. apply Hr. congruence.
Qed.

Lemma runs_mapR {A B} (f : A -> result B) (xs : list A) :
  (forall x, In x xs -> runs (f x)) -> runs (mapR f xs).
Proof.
  induction xs as [|x xs IH]; intros H; simpl; [discriminate|].
  apply runs_bind; [apply H; left; reflexivity|]. intros y _.
  apply runs_bind; [apply IH; intros z Hz; apply H; right; exact Hz|].
  intros. discriminate.
Qed.

Lemma runs_vector_set {A} (v : list A) i x : runs (vector_set v i x).
Proof.
  revert i. induction v as [|y v IH]; intros i; simpl; [discriminate|].
  destruct i; [discriminate|]. apply runs_bind; [apply IH|]. intros. discriminate.
Qed.

Lemma runs_RequireAggregation D op : runs (RequireAggregation D op).
Proof.
  unfold RequireAggregation. destruct (GetSelectGroupBy op); [discriminate|].
  destruct (fold_left _ _ _) as [a b]. destruct (a && b); discriminate.
Qed.

Lemma runs_IsSupportedSubSelect_conjunct d pred :
  runs (IsSupportedSubSelect_conjunct d pred).
Proof.
  unfold IsSupportedSubSelect_conjunct.
  destruct (GetDepth pred <? d)%Z; [|discriminate].
  destruct (negb _); [discriminate|].
  apply runs_bind; [apply runs_GetChild|]. intros c1 _.
  apply runs_bind.
  - destruct (GetDepth c1 =? d)%Z; [|discriminate].
    apply runs_bind; [apply runs_GetChild|]. intros. discriminate.
  - intros [|] _; [discriminate|].
    apply runs_bind; [apply runs_GetChild|]. intros c0 _.
    destruct (GetDepth c0 =? d)%Z; discriminate.
Qed.

Lemma runs_IsSupportedSubSelect D op : runs (IsSupportedSubSelect D op).
Proof.
  unfold IsSupportedSubSelect.
  apply runs_bind; [apply runs_RequireAggregation|]. intros [|] _; [|discriminate].
  simpl. induction (SplitPredicates_ptr (GetSelectCondition op)) as [|p ps IH];
    simpl; [discriminate|].
  apply runs_bind; [apply runs_IsSupportedSubSelect_conjunct|].
  intros [|] _; [exact IH|discriminate].
Qed.

Lemma runs_IsSupportedConjunctivePredicate e :
  runs (IsSupportedConjunctivePredicate e).
Proof.
  unfold IsSupportedConjunctivePredicate.
  destruct (negb (HasSubquery e)); [discriminate|].
  apply runs_bind.
  - destruct (ExpressionType_eqb _ COMPARE_IN); [|discriminate].
    apply runs_bind; [apply runs_GetChild|]. intros c0 _.
    destruct (negb _); [|discriminate].
    apply runs_bind; [apply runs_GetChild|]. intros. discriminate.
  - intros [|] _; [discriminate|].
    apply runs_bind.
    + destruct (ExpressionType_eqb _ OPERATOR_EXISTS); [|discriminate].
      apply runs_bind; [apply runs_GetChild|]. intros. discriminate.
    + intros [|] _; [discriminate|].
      destruct (is_plain_comparison _); [|discriminate].
      apply runs_bind; [apply runs_GetChild|]. intros c0 _.
      apply runs_bind.
      * destruct (negb _); [|discriminate].
        apply runs_bind; [apply runs_GetChild|]. intros. discriminate.
      * intros [|] _; [discriminate|].
        apply runs_bind; [apply runs_GetChild|]. intros c1 _.
        destruct (negb _); discriminate.
Qed.

Lemma runs_GenerateTableAliasSet e : forall s, runs (GenerateTableAliasSet e s).
Proof.
  (* by induction on the height of the expression *)
  assert (H : forall n e, (height_expr e <= n)%nat ->
                          forall s, runs (GenerateTableAliasSet e s)).
  { induction n as [|n IH]; intros [cls base children] Hh s; simpl in Hh; [lia|].
    simpl. destruct (ExpressionType_eqb _ COLUMN_VALUE).
    - destruct cls; discriminate.
    - assert (Hc : forall c, In c children -> (height_expr c <= n)%nat).
      { intros c Hc. unfold list_height in Hh.
        assert (K : (height_expr c <= list_max (map height_expr children))%nat).
        { pose proof (list_max_le (map height_expr children)
                        (list_max (map height_expr children))) as [L _].
          specialize (L (Nat.le_refl _)).
          rewrite Forall_forall in L. apply L. apply in_map. exact Hc. }
        lia. }
      clear Hh. revert s. induction children as [|c cs IHc]; intros s; [discriminate|].
      apply runs_bind; [apply IH; apply Hc; left; reflexivity|].
      intros s' _. apply IHc. intros x Hx. apply Hc. right. exact Hx. }
  intros s. eapply H. apply Nat.le_refl.
Qed.

Lemma runs_ExtractPredicates e : runs (ExtractPredicates e).
Proof.
  unfold ExtractPredicates. apply runs_mapR. intros x _.
  apply runs_bind; [apply runs_GenerateTableAliasSet|]. intros. discriminate.
Qed.

Lemma runs_ConstructSelectElementMap l : runs (ConstructSelectElementMap l).
Proof.
  unfold ConstructSelectElementMap.
  assert (H : forall acc, runs acc ->
     runs (fold_left
       (fun res expr =>
          res <- res ;;
          if negb (Empty (GetAlias expr)) then
            Ok (map_assign res (GetAlias expr) expr)
          else if ExpressionType_eqb (GetExpressionType expr) COLUMN_VALUE then
            match GetClass expr with
            | ColumnValueExpression _ column_name _ _ _ =>
                Ok (map_assign res (MakeAliasNoSerial column_name) expr)
            | _ => Err (UndefinedBehaviour "cast to ColumnValueExpression")
            end
          else Ok res) l acc)).
  { induction l as [|x l IH]; intros acc Ha; simpl; [exact Ha|].
    apply IH. apply runs_bind; [exact Ha|]. intros res _.
    destruct (negb _); [discriminate|].
    destruct (ExpressionType_eqb _ _); [|discriminate].
    destruct (GetClass x); discriminate. }
  apply H. discriminate.
Qed.

Lemma runs_GetTableName t : runs (GetTableName t).
Proof.
  unfold GetTableName. apply runs_bind; [apply runs_deref|]. intros. discriminate.
Qed.

Lemma within_by_ok {R} (m : R -> nat) b (r : result R) x :
  within_by m b r -> r = Ok x -> (m x <= b)%nat.
Proof. intros H E. subst r. exact H. Qed.

Lemma In_list_height {A} (h : A -> nat) x l : In x l -> (h x <= list_height h l)%nat.
Proof.
  unfold list_height. induction l as [|y l IH]; simpl; [tauto|].
  intros [->|H]; [lia|]. specialize (IH H). lia.
Qed.

Lemma list_height_le {A} (h : A -> nat) l b :
  (forall x, In x l -> (h x <= b)%nat) -> (list_height h l <= b)%nat.
Proof.
  unfold list_height. induction l as [|y l IH]; simpl; intros H; [lia|].
  assert (h y <= b)%nat by (apply H; left; reflexivity).
  assert (list_max (map h l) <= b)%nat by (apply IH; intros; apply H; right; assumption).
  lia.
Qed.

Lemma list_height_cons {A} (h : A -> nat) x l :
  list_height h (x :: l) = Nat.max (h x) (list_height h l).
Proof. reflexivity. Qed.

Lemma nth_error_height {A} (h : A -> nat) l i x :
  nth_error l i = Some x -> (h x <= list_height h l)%nat.
Proof. intros H. apply In_list_height. eapply nth_error_In. exact H. Qed.

Lemma at_height {A} (h : A -> nat) l i x :
  at_ l i = Ok x -> (h x <= list_height h l)%nat.
Proof.
  unfold at_. destruct (nth_error l i) eqn:E; [|discriminate].
  intros K. injection K as <-. eapply nth_error_height. exact E.
Qed.

Lemma GetChild_height e i c : GetChild e i = Ok c -> (S (height_expr c) <= height_expr e)%nat.
Proof.
  unfold GetChild, deref. destruct (nth_error _ _) eqn:E; [|discriminate].
  intros K. injection K as <-. destruct e as [cls base children]. simpl in *.
  pose proof (nth_error_height height_expr _ _ _ E). lia.
Qed.

Lemma vector_set_height {A} (h : A -> nat) (v : list A) i x v' :
  vector_set v i x = Ok v' ->
  (list_height h v' <= Nat.max (list_height h v) (h x))%nat.
Proof.
  revert i v'. induction v as [|y v IH]; intros i v'; simpl; [discriminate|].
  destruct i.
  - intros K. injection K as <-. rewrite !list_height_cons. lia.
  - destruct (vector_set v i x) as [v''|] eqn:E; simpl; [|discriminate].
    intros K. injection K as <-. rewrite !list_height_cons.
    specialize (IH _ _ E). lia.
Qed.

Lemma SetChild_height e i c e' :
  SetChild e i c = Ok e' ->
  (S (height_expr c) <= height_expr e)%nat ->
  (height_expr e' <= height_expr e)%nat.
Proof.
  unfold SetChild. destruct (vector_set _ _ _) as [cs|] eqn:E; simpl; [|discriminate].
  intros K Hc. injection K as <-. destruct e as [cls base children]. simpl in *.
  pose proof (vector_set_height height_expr _ _ _ _ E). lia.
Qed.

Lemma within_mapS {A S} (h : A -> nat) (f : A -> S -> result (A * S)) xs :
  (forall x s, In x xs -> within h (h x) (f x s)) ->
  forall s, within (list_height h) (list_height h xs) (mapS f xs s).
Proof.
  unfold within. induction xs as [|x xs IH]; intros Hf s; simpl; [unfold list_height; simpl; lia|].
  apply within_by_bind.
  { eapply within_by_runs. apply Hf. left. reflexivity. }
  intros [y s1] Hy.
  pose proof (within_by_ok _ _ _ _ (Hf x s (or_introl eq_refl)) Hy) as Hhy. simpl in Hhy.
  assert (IH' := IH (fun z s' Hz => Hf z s' (or_intror Hz)) s1).
  apply within_by_bind.
  { eapply within_by_runs. exact IH'. }
  intros [ys s2] Hys.
  pose proof (within_by_ok _ _ _ _ IH' Hys) as Hhys. simpl in Hhys.
  simpl. rewrite !list_height_cons. lia.
Qed.

Section SubqueryBodies.

Variable rec : Visitors.
Variable D : Collaborators.
Variable n : nat.
Hypothesis rec_good : good rec n.

Lemma GenerateSubqueryTree_within expr child_id single_join t :
  (height_expr expr <= S n)%nat ->
  within_by (fun r => height_expr (snd (fst r))) (height_expr expr)
    (GenerateSubqueryTree rec D expr child_id single_join t).
Proof.
  intros Hh. unfold GenerateSubqueryTree.
  apply within_by_bind; [apply runs_GetChild|]. intros sub Hsub.
  apply GetChild_height in Hsub.
  destruct (negb _); [simpl; lia|].
  apply within_by_bind; [destruct (GetClass sub); discriminate|]. intros sel Hsel.
  assert (Hsel' : (S (height_select sel) <= height_expr sub)%nat).
  { destruct sub as [cls base children]. simpl in Hsel.
    destruct cls; try discriminate. injection Hsel as ->. simpl. lia. }
  apply within_by_bind; [apply runs_IsSupportedSubSelect|]. intros supported _.
  destruct (negb supported); [exact I|].
  destruct (negb (Nat.eqb _ _)); [exact I|].
  unfold move_output_expr. cbv beta iota zeta.
  pose proof (good_select _ _ rec_good sel (set_output_expr t None)
                ltac:(lia)) as Hv.
  apply within_by_bind; [eapply within_by_runs; exact Hv|].
  intros [sel' t'] Hsel2.
  pose proof (within_by_ok _ _ _ _ Hv Hsel2) as Hle. simpl in Hle.
  apply within_by_bind; [apply runs_at|]. intros column Hcol.
  pose proof (at_height height_expr _ _ _ Hcol) as Hc.
  assert (S (height_expr column) <= height_select sel')%nat.
  { destruct sel'. simpl in *. lia. }
  apply within_by_bind.
  { unfold SetChild. apply runs_bind; [apply runs_vector_set|]. intros. discriminate. }
  intros expr' Hset. simpl.
  eapply SetChild_height; [exact Hset|lia].
Qed.

Lemma AcceptChildren_within expr t :
  (height_expr expr <= S n)%nat ->
  within height_expr (height_expr expr) (AcceptChildren rec expr t).
Proof.
  intros Hh. unfold AcceptChildren, within.
  assert (Hm := within_mapS height_expr (visit_expression rec) (GetChildren expr)).
  assert (Hc : forall x s, In x (GetChildren expr) ->
             within height_expr (height_expr x) (visit_expression rec x s)).
  { intros x s Hx. apply (good_expression _ _ rec_good).
    pose proof (In_list_height height_expr _ _ Hx).
    destruct expr; simpl in *. lia. }
  specialize (Hm Hc t).
  apply within_by_bind; [eapply within_by_runs; exact Hm|].
  intros [children t'] Hch.
  pose proof (within_by_ok _ _ _ _ Hm Hch) as Hle. simpl in Hle.
  destruct expr; simpl in *. lia.
Qed.

End SubqueryBodies.

Ltac runs_now :=
  unfold runs, NOT_IMPLEMENTED_EXCEPTION, OPTIMIZER_EXCEPTION; discriminate.

Lemma SetExpressionType_height e ty : height_expr (SetExpressionType e ty) = height_expr e.
Proof. destruct e; reflexivity. Qed.

Lemma bindR_assoc {A B C} (c : result A) (k1 : A -> result B) (k2 : B -> result C) :
  bindR (bindR c k1) k2 = bindR c (fun x => bindR (k1 x) k2).
Proof. destruct c; reflexivity. Qed.

Section ExpressionBodies.

Variable rec : Visitors.
Variable D : Collaborators.
Variable n : nat.
Hypothesis rec_good : good rec n.

Lemma GenerateSubqueryTree_then expr child_id single_join t bound
  (k : bool * AbstractExpression * QueryToOperatorTransformer ->
       result (AbstractExpression * QueryToOperatorTransformer)) :
  (height_expr expr <= S n)%nat ->
  (forall done expr' t', (height_expr expr' <= height_expr expr)%nat ->
     within height_expr bound (k (done, expr', t'))) ->
  within height_expr bound
    (bindR (GenerateSubqueryTree rec D expr child_id single_join t) k).
Proof.
  intros Hh Hk.
  pose proof (GenerateSubqueryTree_within rec D n rec_good expr child_id single_join t Hh) as Hg.
  apply within_by_bind; [eapply within_by_runs; exact Hg|].
  intros [[done expr'] t'] E. apply Hk.
  exact (within_by_ok _ _ _ _ Hg E).
Qed.

Lemma AcceptChildren_le expr t bound :
  (height_expr expr <= S n)%nat -> (height_expr expr <= bound)%nat ->
  within height_expr bound (AcceptChildren rec expr t).
Proof.
  intros H1 H2. eapply within_by_weaken; [exact H2|].
  apply (AcceptChildren_within rec n rec_good); exact H1.
Qed.

Lemma Visit_ComparisonExpression_within expr t :
  (height_expr expr <= S n)%nat ->
  within height_expr (height_expr expr) (Visit_ComparisonExpression rec D expr t).
Proof.
  intros Hh. unfold Visit_ComparisonExpression. cbv zeta.
  destruct (ExpressionType_eqb (GetExpressionType expr) COMPARE_IN).
  { rewrite bindR_assoc. apply GenerateSubqueryTree_then; [exact Hh|].
    intros done e1 t1 H1. cbn [bindR]. apply AcceptChildren_le; lia. }
  destruct (is_plain_comparison (GetExpressionType expr)).
  2:{ cbn [bindR]. apply AcceptChildren_le; lia. }
  rewrite bindR_assoc. apply within_by_bind; [apply runs_GetChild|]. intros c0 _.
  rewrite bindR_assoc. apply within_by_bind.
  { destruct (ExpressionType_eqb _ ROW_SUBQUERY); [|discriminate].
    apply runs_bind; [apply runs_GetChild|]. intros. discriminate. }
  intros [|] _; [exact I|].
  rewrite bindR_assoc. apply GenerateSubqueryTree_then; [exact Hh|].
  intros [|] e1 t1 H1.
  { cbn [bindR]. apply AcceptChildren_le; lia. }
  rewrite bindR_assoc. apply GenerateSubqueryTree_then; [lia|].
  intros done e2 t2 H2. cbn [bindR]. apply AcceptChildren_le; lia.
Qed.

Lemma Visit_OperatorExpression_within expr t :
  (height_expr expr <= S n)%nat ->
  within height_expr (height_expr expr) (Visit_OperatorExpression rec D expr t).
Proof.
  intros Hh. unfold Visit_OperatorExpression.
  destruct (ExpressionType_eqb (GetExpressionType expr) OPERATOR_EXISTS).
  2:{ cbn [bindR]. apply AcceptChildren_le; lia. }
  rewrite bindR_assoc. apply GenerateSubqueryTree_then; [exact Hh|].
  intros [|] e1 t1 H1; cbn [bindR]; apply AcceptChildren_le;
    rewrite ?SetExpressionType_height; lia.
Qed.

Lemma Visit_Expression_within expr t :
  (height_expr expr <= S n)%nat ->
  within height_expr (height_expr expr) (Visit_Expression rec D expr t).
Proof.
  intros Hh. unfold Visit_Expression, SqlNodeVisitor_Visit.
  destruct (GetClass expr);
    first [ apply Visit_ComparisonExpression_within; exact Hh
          | apply Visit_OperatorExpression_within; exact Hh
          | apply AcceptChildren_le; lia ].
Qed.

Lemma CollectPredicates_within expr t :
  (option_height height_expr expr <= n)%nat ->
  within_by (fun r => option_height height_expr (fst (fst r)))
    (option_height height_expr expr) (CollectPredicates rec D expr t).
Proof.
  intros Hh. unfold CollectPredicates. cbv zeta.
  apply within_by_bind.
  { apply runs_mapR. intros pred _.
    apply runs_bind; [apply runs_IsSupportedConjunctivePredicate|].
    intros [|] _; simpl; runs_now. }
  intros _ _.
  apply within_by_bind; [apply runs_deref|]. intros e He.
  destruct expr as [e0|]; [|discriminate]. injection He as ->. simpl in Hh.
  pose proof (good_expression _ _ rec_good e t Hh) as Hv.
  apply within_by_bind; [eapply within_by_runs; exact Hv|].
  intros [e' t'] E. pose proof (within_by_ok _ _ _ _ Hv E) as Hle. simpl in Hle.
  apply within_by_bind; [apply runs_ExtractPredicates|]. intros annotated _.
  simpl. exact Hle.
Qed.

End ExpressionBodies.

Lemma height_expr_eq cls base children :
  height_expr (Expression cls base children)
  = S (Nat.max (height_class cls) (list_height height_expr children)).
Proof. reflexivity. Qed.

Lemma height_select_eq cols d from where_ group_by o l union dp withs :
  height_select (Select cols d from where_ group_by o l union dp withs)
  = S (Nat.max (list_height height_expr cols)
        (Nat.max (option_height height_table_ref from)
          (Nat.max (option_height height_expr where_)
            (Nat.max (option_height height_group_by group_by)
              (Nat.max (option_height height_select union)
                 (list_height height_table_ref withs)))))).
Proof. reflexivity. Qed.

Lemma height_table_ref_eq a i s c ct l j :
  height_table_ref (MkTableRef a i s c ct l j)
  = S (Nat.max (option_height height_select s)
        (Nat.max (list_height height_table_ref l) (option_height height_join j))).
Proof. reflexivity. Qed.

Lemma height_join_eq ty l r c :
  height_join (MkJoin ty l r c)
  = S (Nat.max (height_table_ref l)
        (Nat.max (height_table_ref r) (option_height height_expr c))).
Proof. reflexivity. Qed.

Lemma height_group_by_eq cols having :
  height_group_by (MkGroupBy cols having)
  = S (Nat.max (list_height height_expr cols) (option_height height_expr having)).
Proof. reflexivity. Qed.

Create Rewrite HintDb heights.
#[local] Hint Rewrite height_expr_eq height_select_eq height_table_ref_eq
  height_join_eq height_group_by_eq @list_height_cons : heights.

Ltac heights :=
  cbn [within_by fst snd option_height
       SetSelect SetTableAlias SetList SetJoin SetSelectWith SetSelectTable
       SetSelectCondition SetSelectGroupBy SetUnionSelect WithChildren
       GetSelectWith GetSelectTable GetSelectCondition GetSelectGroupBy
       GetUnionSelect GetSelectColumns GetHaving parser.GetColumns GetSelect
       GetJoin GetList] in *;
  autorewrite with heights in *;
  cbn [option_height] in *.

Section TableBodies.

Variable rec : Visitors.
Variable D : Collaborators.
Variable n : nat.
Hypothesis rec_good : good rec n.

Lemma Visit_JoinDefinition_within node t :
  (height_join node <= S n)%nat ->
  within height_join (height_join node) (Visit_JoinDefinition rec D node t).
Proof.
  destruct node as [type l r condition]. intros Hh. unfold within. heights.
  unfold Visit_JoinDefinition.
  pose proof (good_table_ref _ _ rec_good l t ltac:(lia)) as Hl.
  apply within_by_bind; [eapply within_by_runs; exact Hl|].
  intros [l' t1] El. pose proof (within_by_ok _ _ _ _ Hl El) as Hl'. simpl in Hl'.
  unfold move_output_expr. cbv beta iota zeta.
  pose proof (good_table_ref _ _ rec_good r (set_output_expr t1 None) ltac:(lia)) as Hr.
  apply within_by_bind; [eapply within_by_runs; exact Hr|].
  intros [r' t2] Er. pose proof (within_by_ok _ _ _ _ Hr Er) as Hr'. simpl in Hr'.
  cbv beta iota zeta.
  pose proof (CollectPredicates_within rec D n rec_good condition
                (set_output_expr t2 None) ltac:(lia)) as Hc.
  apply within_by_bind; [eapply within_by_runs; exact Hc|].
  intros [[condition' join_predicates] t3] Ec.
  pose proof (within_by_ok _ _ _ _ Hc Ec) as Hc'. simpl in Hc'.
  apply within_by_bind; [destruct type; runs_now|]. intros join_op _.
  heights. lia.
Qed.

Lemma implicit_join_loop_within elems : forall prev_expr t,
  (list_height height_table_ref elems <= n)%nat ->
  within_by (fun r => list_height height_table_ref (fst (fst r)))
    (list_height height_table_ref elems) (implicit_join_loop rec elems prev_expr t).
Proof.
  induction elems as [|x elems IH]; intros prev_expr t Hh; simpl; [lia|].
  rewrite list_height_cons in Hh.
  pose proof (good_table_ref _ _ rec_good x t ltac:(lia)) as Hx.
  apply within_by_bind; [eapply within_by_runs; exact Hx|].
  intros [x' t1] Ex. pose proof (within_by_ok _ _ _ _ Hx Ex) as Hx'. simpl in Hx'.
  unfold move_output_expr. cbv beta iota zeta.
  match goal with
  | |- within_by _ _ (bindR (implicit_join_loop _ _ ?p ?s) _) =>
      pose proof (IH p s ltac:(lia)) as Hl
  end.
  apply within_by_bind; [eapply within_by_runs; exact Hl|].
  intros [[elems' prev'] t2] El.
  pose proof (within_by_ok _ _ _ _ Hl El) as Hl'. simpl in Hl'.
  simpl. rewrite !list_height_cons. lia.
Qed.

Lemma skipn_height {A} (h : A -> nat) k (l : list A) :
  (list_height h (skipn k l) <= list_height h l)%nat.
Proof.
  apply list_height_le. intros x Hx. apply In_list_height.
  rewrite <- (firstn_skipn k l). apply in_or_app. right. exact Hx.
Qed.

Lemma Visit_TableRef_within node t :
  (height_table_ref node <= S n)%nat ->
  within height_table_ref (height_table_ref node) (Visit_TableRef rec node t).
Proof.
  destruct node as [alias info select aliases cte_type list join].
  intros Hh. unfold Visit_TableRef, within.
  cbn [GetSelect GetJoin GetList].
  destruct select as [select|].
  { cbv zeta. heights.
    apply within_by_bind; [apply runs_ConstructSelectElementMap|]. intros m _.
    pose proof (good_select _ _ rec_good select t ltac:(lia)) as Hs.
    apply within_by_bind; [eapply within_by_runs; exact Hs|].
    intros [select' t1] Es. pose proof (within_by_ok _ _ _ _ Hs Es) as Hs'.
    unfold move_output_expr. cbv beta iota zeta. heights. lia. }
  destruct join as [join|].
  { heights.
    pose proof (good_join _ _ rec_good join t ltac:(lia)) as Hj.
    apply within_by_bind; [eapply within_by_runs; exact Hj|].
    intros [join' t1] Ej. pose proof (within_by_ok _ _ _ _ Hj Ej) as Hj'.
    heights. lia. }
  heights.
  destruct (1 <? List.length list)%nat.
  { apply within_by_bind; [apply runs_at|]. intros first Hfirst.
    pose proof (at_height height_table_ref _ _ _ Hfirst) as Hf.
    pose proof (good_table_ref _ _ rec_good first t ltac:(lia)) as Hv.
    apply within_by_bind; [eapply within_by_runs; exact Hv|].
    intros [first' t1] Ef. pose proof (within_by_ok _ _ _ _ Hv Ef) as Hf'.
    simpl in Hf'. unfold move_output_expr. cbv beta iota zeta.
    pose proof (skipn_height height_table_ref 1 list) as Hsk.
    match goal with
    | |- within_by _ _ (bindR (implicit_join_loop _ _ ?p ?s) _) =>
        pose proof (implicit_join_loop_within (skipn 1 list) p s ltac:(lia)) as Hl
    end.
    apply within_by_bind; [eapply within_by_runs; exact Hl|].
    intros [[elems prev] t2] El. pose proof (within_by_ok _ _ _ _ Hl El) as Hl'.
    heights. lia. }
  apply within_by_bind.
  { destruct (Nat.eqb _ 1); [apply runs_at|discriminate]. }
  intros single _.
  apply within_by_bind; [apply runs_GetTableName|]. intros table_name _.
  destruct (find_index _ _).
  - repeat (apply within_by_bind; [apply runs_deref|]; intros ? _).
    heights. lia.
  - heights. lia.
Qed.

End TableBodies.

Lemma runs_FindFirstCTEScanNode :
  forall node name out, runs (FindFirstCTEScanNode node name out).
Proof.
  fix IH 1. intros [contents children] name out. simpl.
  destruct (is_cte_scan_of contents name); [discriminate|].
  apply runs_bind; [|intros [[? ?] ?] _; discriminate].
  induction children as [|[c|] cs IHcs]; [discriminate| |discriminate].
  apply runs_bind; [apply IH|]. intros [[[|] i] left_over] _; [discriminate|].
  apply runs_bind; [exact IHcs|]. intros [[? ?] ?] _. discriminate.
Qed.

Section SelectBodies.

Variable rec : Visitors.
Variable D : Collaborators.
Variable n : nat.
Hypothesis rec_good : good rec n.

Lemma Select_With_entry_within with_ t :
  (height_table_ref with_ <= n)%nat ->
  within height_table_ref (height_table_ref with_) (Select_With_entry rec D with_ t).
Proof.
  intros Hh. unfold Select_With_entry, within.
  pose proof (good_table_ref _ _ rec_good with_ t Hh) as Hv.
  apply within_by_bind; [eapply within_by_runs; exact Hv|].
  intros [with' t1] Ew. pose proof (within_by_ok _ _ _ _ Hv Ew) as Hw.
  cbn [fst] in Hw.
  destruct (GetNewTempOid (accessor_ t1)) as [temp accessor]. cbv zeta.
  apply within_by_bind; [apply runs_deref|]. intros select _.
  apply within_by_bind.
  { apply runs_mapR. intros i _. apply runs_bind; [apply runs_deref|].
    intros. discriminate. }
  intros col_types _.
  apply within_by_bind; [apply runs_GetTableName|]. intros table_name _.
  unfold move_output_expr. cbv beta iota zeta. cbn [within_by fst]. exact Hw.
Qed.

Lemma Select_With_within op t :
  (height_select op <= S n)%nat ->
  within (list_height height_table_ref)
    (list_height height_table_ref (GetSelectWith op)) (Select_With rec D op t).
Proof.
  intros Hh. unfold Select_With. apply within_mapS.
  intros x s Hx. apply Select_With_entry_within.
  pose proof (In_list_height height_table_ref _ _ Hx).
  destruct op. heights. lia.
Qed.

Lemma Select_From_within op t :
  (height_select op <= S n)%nat ->
  within (option_height height_table_ref)
    (option_height height_table_ref (GetSelectTable op)) (Select_From rec op t).
Proof.
  intros Hh. unfold Select_From, within. destruct op. heights.
  destruct from_ as [table|]; heights; [|lia].
  pose proof (good_table_ref _ _ rec_good table t ltac:(lia)) as Hv.
  apply within_by_bind; [eapply within_by_runs; exact Hv|].
  intros [table' t1] Et. pose proof (within_by_ok _ _ _ _ Hv Et) as Hw.
  heights. exact Hw.
Qed.

Lemma Select_Where_within op t :
  (height_select op <= S n)%nat ->
  within (option_height height_expr)
    (option_height height_expr (GetSelectCondition op)) (Select_Where rec D op t).
Proof.
  intros Hh. unfold Select_Where, within. destruct op. heights.
  apply within_by_bind.
  - destruct where_ as [condition|]; [|discriminate].
    pose proof (CollectPredicates_within rec D n rec_good (Some condition) t
                  ltac:(heights; lia)) as Hc.
    apply runs_bind; [eapply within_by_runs; exact Hc|].
    intros [[? ?] ?] _. discriminate.
  - intros [condition' t1] E. heights.
    destruct where_ as [condition|].
    + pose proof (CollectPredicates_within rec D n rec_good (Some condition) t
                    ltac:(heights; lia)) as Hc.
      destruct (CollectPredicates rec D (Some condition) t)
        as [[[c collected] t2]|] eqn:Ec; [|discriminate E].
      cbn [bindR] in E. injection E as <- _. exact Hc.
    + injection E as <- _. heights. lia.
Qed.

Lemma Select_Aggregation_within op t :
  (height_select op <= S n)%nat ->
  within (option_height height_group_by)
    (option_height height_group_by (GetSelectGroupBy op))
    (Select_Aggregation rec D op t).
Proof.
  intros Hh. unfold Select_Aggregation, within.
  apply within_by_bind; [apply runs_RequireAggregation|]. intros [|] _.
  - destruct op. heights. destruct group_by_ as [[cols having]|].
    + unfold move_output_expr. cbv beta iota zeta. heights.
      apply within_by_bind.
      * destruct having as [h|]; [|discriminate].
        eapply within_by_runs.
        apply (CollectPredicates_within rec D n rec_good (Some h)).
        heights. lia.
      * intros [[having_expr hv] t1] E. heights.
        destruct having as [h|].
        -- match type of E with
           | CollectPredicates _ _ _ ?s = _ =>
               pose proof (CollectPredicates_within rec D n rec_good (Some h) s
                             ltac:(heights; lia)) as Hc
           end.
           rewrite E in Hc. heights. lia.
        -- injection E as <- _ _. heights. lia.
    + unfold move_output_expr. cbv beta iota zeta. heights. lia.
  - destruct (IsSelectDistinct op).
    + unfold move_output_expr. cbv beta iota zeta. heights. lia.
    + heights. lia.
Qed.

Lemma Select_AttachCte_entry_within with_ st :
  (height_table_ref with_ <= n)%nat ->
  within height_table_ref (height_table_ref with_)
    (Select_AttachCte_entry rec with_ st).
Proof.
  intros Hh. unfold Select_AttachCte_entry, within. destruct st as [child_expr t].
  pose proof (good_table_ref _ _ rec_good with_ t Hh) as Hv.
  apply within_by_bind; [eapply within_by_runs; exact Hv|].
  intros [with' t1] Ew. pose proof (within_by_ok _ _ _ _ Hv Ew) as Hw.
  apply within_by_bind; [apply runs_deref|]. intros child _.
  apply within_by_bind; [apply runs_FindFirstCTEScanNode|].
  intros [[? child'] left_over] _. heights. exact Hw.
Qed.

Lemma Select_AttachCtes_within withs t :
  (list_height height_table_ref withs <= n)%nat ->
  within (list_height height_table_ref) (list_height height_table_ref withs)
    (Select_AttachCtes rec withs t).
Proof.
  intros Hh. unfold Select_AttachCtes, within.
  destruct withs as [|w ws]; [heights; lia|].
  unfold move_output_expr. cbv beta iota zeta.
  match goal with
  | |- within_by _ _ (bindR (mapS _ ?l ?s) _) =>
      pose proof (within_mapS height_table_ref (Select_AttachCte_entry rec) l
                    (fun x s' Hx => Select_AttachCte_entry_within x s'
                       (Nat.le_trans _ _ _ (In_list_height height_table_ref _ _ Hx) Hh))
                    s) as Hm
  end.
  apply within_by_bind; [eapply within_by_runs; exact Hm|].
  intros [withs' [child_expr t1]] E.
  pose proof (within_by_ok _ _ _ _ Hm E) as Hw. cbn [within_by fst] in *. exact Hw.
Qed.

Lemma Select_Union_within op t :
  (height_select op <= S n)%nat ->
  within height_select (height_select op) (Select_Union rec op t).
Proof.
  intros Hh. unfold Select_Union, within. destruct op. heights.
  destruct union_select_ as [union_select|]; [|heights; lia].
  unfold move_output_expr. cbv beta iota zeta. heights.
  match goal with
  | |- within_by _ _ (bindR (visit_select _ _ ?s) _) =>
      pose proof (good_select _ _ rec_good union_select s ltac:(lia)) as Hv
  end.
  apply within_by_bind; [eapply within_by_runs; exact Hv|].
  intros [union' t1] E. pose proof (within_by_ok _ _ _ _ Hv E) as Hw.
  heights. lia.
Qed.

Lemma Visit_SelectStatement_within op t :
  (height_select op <= S n)%nat ->
  within height_select (height_select op) (Visit_SelectStatement rec D op t).
Proof.
  intros Hh. unfold Visit_SelectStatement, within. cbv zeta.
  pose proof (Select_With_within op (set_predicates t []) Hh) as H1.
  apply within_by_bind; [eapply within_by_runs; exact H1|].
  intros [withs t1] E1. pose proof (within_by_ok _ _ _ _ H1 E1) as L1. clear H1 E1.
  assert (B1 : (height_select (SetSelectWith op withs) <= height_select op)%nat)
    by (destruct op; heights; lia).
  set (op1 := SetSelectWith op withs) in *.
  pose proof (Select_From_within op1 t1 ltac:(lia)) as H2.
  apply within_by_bind; [eapply within_by_runs; exact H2|].
  intros [table t2] E2. pose proof (within_by_ok _ _ _ _ H2 E2) as L2. clear H2 E2.
  assert (B2 : (height_select (SetSelectTable op1 table) <= height_select op1)%nat)
    by (destruct op1; heights; lia).
  set (op2 := SetSelectTable op1 table) in *.
  pose proof (Select_Where_within op2 t2 ltac:(lia)) as H3.
  apply within_by_bind; [eapply within_by_runs; exact H3|].
  intros [condition t3] E3. pose proof (within_by_ok _ _ _ _ H3 E3) as L3. clear H3 E3.
  assert (B3 : (height_select (SetSelectCondition op2 condition) <= height_select op2)%nat)
    by (destruct op2; heights; lia).
  set (op3 := SetSelectCondition op2 condition) in *.
  pose proof (Select_Aggregation_within op3 t3 ltac:(lia)) as H4.
  apply within_by_bind; [eapply within_by_runs; exact H4|].
  intros [group_by t4] E4. pose proof (within_by_ok _ _ _ _ H4 E4) as L4. clear H4 E4.
  assert (B4 : (height_select (SetSelectGroupBy op3 group_by) <= height_select op3)%nat)
    by (destruct op3; heights; lia).
  set (op4 := SetSelectGroupBy op3 group_by) in *.
  assert (W4 : (list_height height_table_ref (GetSelectWith op4) <= n)%nat).
  { assert (S (list_height height_table_ref (GetSelectWith op4)) <= height_select op4)%nat
      by (destruct op4; heights; lia). lia. }
  pose proof (Select_AttachCtes_within (GetSelectWith op4) (Select_Limit op4 t4) W4) as H5.
  apply within_by_bind; [eapply within_by_runs; exact H5|].
  intros [withs' t5] E5. pose proof (within_by_ok _ _ _ _ H5 E5) as L5. clear H5 E5.
  assert (B5 : (height_select (SetSelectWith op4 withs') <= height_select op4)%nat)
    by (destruct op4; heights; lia).
  set (op5 := SetSelectWith op4 withs') in *.
  pose proof (Select_Union_within op5 t5 ltac:(lia)) as H6.
  apply within_by_bind; [eapply within_by_runs; exact H6|].
  intros [op6 t6] E6. pose proof (within_by_ok _ _ _ _ H6 E6) as L6.
  cbn [within_by fst] in *. lia.
Qed.

End SelectBodies.

Lemma height_select_pos op : (1 <= height_select op)%nat.
Proof. destruct op. heights. lia. Qed.
Lemma height_table_ref_pos x : (1 <= height_table_ref x)%nat.
Proof. destruct x. heights. lia. Qed.
Lemma height_join_pos x : (1 <= height_join x)%nat.
Proof. destruct x. heights. lia. Qed.
Lemma height_expr_pos x : (1 <= height_expr x)%nat.
Proof. destruct x. heights. lia. Qed.

(** The visitor with fuel [n] is good for the trees of depth at most [n]. *)
Lemma Visit_good D : forall n, good (Visit D n) n.
Proof.
  induction n as [|n IH].
  - split; intros x t H.
    + pose proof (height_select_pos x). lia.
    + pose proof (height_table_ref_pos x). lia.
    + pose proof (height_join_pos x). lia.
    + pose proof (height_expr_pos x). lia.
  - split; intros x t H; cbn [Visit visit_select visit_table_ref visit_join visit_expression].
    + apply (Visit_SelectStatement_within _ D n IH); exact H.
    + apply (Visit_TableRef_within _ n IH); exact H.
    + apply (Visit_JoinDefinition_within _ D n IH); exact H.
    + apply (Visit_Expression_within _ D n IH); exact H.
Qed.

(** Fuel for the nesting depth is enough for [ConvertToOpExpression]. *)
Lemma Visit_select_runs D fuel op t :
  (height_select op <= fuel)%nat -> runs (visit_select (Visit D fuel) op t).
Proof.
  intros H. eapply within_by_runs. apply (good_select _ _ (Visit_good D fuel)). exact H.
Qed.

Lemma ConvertToOpExpression_runs D fuel op t :
  (height_select op <= fuel)%nat -> runs (ConvertToOpExpression D fuel op t).
Proof.
  intros H. unfold ConvertToOpExpression. cbv zeta.
  apply runs_bind; [apply Visit_select_runs; exact H|].
  intros [op' t'] _. discriminate.
Qed.

End fuel_facts.

(* ===================================================================== *)
(** ** The predicate utilities of the transformer *)
(* ===================================================================== *)

Module predicate_facts.
Import optimizer optimizer_spec optimizer_props.

Lemma ExpressionType_eqb_true (a b : ExpressionType) :
  ExpressionType_eqb a b = true <-> a = b.
Proof.
  unfold ExpressionType_eqb. destruct (ExpressionType_eq_dec a b); split;
    intros H; try assumption; try reflexivity; try discriminate H; contradiction.
Qed.

Lemma ExpressionType_eqb_false (a b : ExpressionType) :
  ExpressionType_eqb a b = false <-> a <> b.
Proof.
  unfold ExpressionType_eqb. destruct (ExpressionType_eq_dec a b); split;
    intros H; try assumption; try reflexivity; try discriminate H; contradiction.
Qed.

(** Induction on an expression, with the hypothesis for every child. *)
Lemma expression_ind (P : AbstractExpression -> Prop) :
  (forall cls base children,
     (forall child, In child children -> P child) ->
     P (Expression cls base children)) ->
  forall e, P e.
Proof.
  intros step.
  assert (H : forall n e, (height_expr e <= n)%nat -> P e).
  { induction n as [|n IH]; intros [cls base children] Hh;
      rewrite fuel_facts.height_expr_eq in Hh; [lia|].
    apply step. intros child Hc. apply IH.
    pose proof (fuel_facts.In_list_height height_expr _ _ Hc). lia. }
  intros e. apply (H (height_expr e)). apply Nat.le_refl.
Qed.

(** The loop of [SplitPredicates] over the children of an AND node. *)
Lemma SplitPredicates_and cls base children :
  expression_type_ base = CONJUNCTION_AND ->
  SplitPredicates (Expression cls base children) = flat_map SplitPredicates children.
Proof.
  intros H. simpl. rewrite H. simpl.
  induction children as [|c cs IH]; [reflexivity|].
  simpl. rewrite IH. reflexivity.
Qed.

Lemma SplitPredicates_other e :
  GetExpressionType e <> CONJUNCTION_AND -> SplitPredicates e = [e].
Proof.
  destruct e as [cls base children]. unfold GetExpressionType. simpl. intros H.
  apply ExpressionType_eqb_false in H. rewrite H. reflexivity.
Qed.

Lemma SplitPredicates_not_and e :
  forall p, In p (SplitPredicates e) -> GetExpressionType p <> CONJUNCTION_AND.
Proof.
  induction e as [cls base children IH] using expression_ind. intros p Hp.
  destruct (ExpressionType_eq_dec (expression_type_ base) CONJUNCTION_AND) as [E|E].
  - rewrite (SplitPredicates_and _ _ _ E) in Hp. apply in_flat_map in Hp.
    destruct Hp as [c [Hc Hp]]. exact (IH c Hc p Hp).
  - rewrite SplitPredicates_other in Hp by exact E.
    destruct Hp as [<-|[]]. exact E.
Qed.

Lemma flat_map_SplitPredicates_fixed (ps : list AbstractExpression) :
  (forall p, In p ps -> GetExpressionType p <> CONJUNCTION_AND) ->
  flat_map SplitPredicates ps = ps.
Proof.
  induction ps as [|p ps IH]; intros H; [reflexivity|].
  simpl. rewrite SplitPredicates_other by (apply H; left; reflexivity).
  simpl. f_equal. apply IH. intros q Hq. apply H. right. exact Hq.
Qed.

(** The conjuncts that [SplitPredicates] collects are the conjuncts of the
    predicate. *)
Lemma SplitPredicates_conjunct_of (e p : AbstractExpression) :
  In p (SplitPredicates e) <-> conjunct_of e p.
Proof.
  split.
  - revert p. induction e as [cls base children IH] using expression_ind.
    intros p Hp.
    destruct (ExpressionType_eq_dec (expression_type_ base) CONJUNCTION_AND) as [E|E].
    + rewrite (SplitPredicates_and _ _ _ E) in Hp.
      apply in_flat_map in Hp. destruct Hp as [c [Hc Hp]].
      apply (conjunct_of_operand _ c); [exact E|exact Hc|].
      apply IH; assumption.
    + rewrite SplitPredicates_other in Hp by exact E.
      destruct Hp as [<-|[]]. apply conjunct_itself. exact E.
  - intros H. induction H as [e E|e c p E Hc _ IH].
    + rewrite SplitPredicates_other by exact E. left. reflexivity.
    + destruct e as [cls base children].
      rewrite (SplitPredicates_and _ _ _ E). apply in_flat_map.
      exists c. split; assumption.
Qed.

Lemma SplitPredicates_where_conjunct (op : SelectStatement) (p : AbstractExpression) :
  In p (SplitPredicates_ptr (GetSelectCondition op)) <-> where_conjunct op p.
Proof.
  unfold where_conjunct. destruct (GetSelectCondition op) as [w|]; simpl.
  - rewrite SplitPredicates_conjunct_of. split.
    + intros H. exists w. split; [reflexivity|exact H].
    + intros [w' [E H]]. injection E as <-. exact H.
  - split; [intros []|]. intros [w [E _]]. discriminate E.
Qed.

(** X1.  [SplitPredicates] flattens the tree of AND nodes at the root of a
    predicate: no conjunct that it returns is an AND node, an expression
    that is not an AND node is its own single conjunct, the conjuncts of an
    AND node are those of its children in order (none for an AND node
    without children), and splitting the conjuncts again changes
    nothing. *)
Theorem SplitPredicates_conjuncts (e : AbstractExpression) :
  (forall p, In p (SplitPredicates e) -> GetExpressionType p <> CONJUNCTION_AND) /\
  (GetExpressionType e <> CONJUNCTION_AND -> SplitPredicates e = [e]) /\
  (GetExpressionType e = CONJUNCTION_AND ->
   SplitPredicates e = flat_map SplitPredicates (GetChildren e)) /\
  flat_map SplitPredicates (SplitPredicates e) = SplitPredicates e.
Proof.
  split; [apply SplitPredicates_not_and|].
  split; [apply SplitPredicates_other|].
  split.
  - destruct e as [cls base children]. apply SplitPredicates_and.
  - apply flat_map_SplitPredicates_fixed, SplitPredicates_not_and.
Qed.

(** [SELECT ... WHERE a]: the predicate [a] is its only conjunct. *)
Lemma SplitPredicates_conjuncts_witness :
  SplitPredicates (column "a" 0) = [column "a" 0].
Proof.
  apply (proj1 (proj2 (SplitPredicates_conjuncts (column "a" 0)))). discriminate.
Defined.

(** *** Table aliases *)

Lemma set_insert_In a s x : In x (set_insert a s) <-> In x s \/ x = a.
Proof.
  unfold set_insert. destruct (in_dec AliasType_eq_dec a s) as [Hin|Hout].
  - split; [intros H; left; exact H|]. intros [H| ->]; assumption.
  - rewrite in_app_iff. simpl. split.
    + intros [H|[<-|[]]]; [left; exact H|right; reflexivity].
    + intros [H| ->]; [left; exact H|right; left; reflexivity].
Qed.

Lemma set_insert_NoDup a s : NoDup s -> NoDup (set_insert a s).
Proof.
  unfold set_insert. intros H. destruct (in_dec AliasType_eq_dec a s) as [Hin|Hout];
    [exact H|].
  apply NoDup_app; [exact H|repeat constructor; intros []|].
  intros x Hx [<-|[]]. exact (Hout Hx).
Qed.

Lemma refers_to_column a column_name db_oid table_oid column_oid base children x :
  expression_type_ base = COLUMN_VALUE ->
  refers_to
    (Expression (ColumnValueExpression a column_name db_oid table_oid column_oid)
       base children) x <-> x = a.
Proof.
  intros Hb. split.
  - intros H. inversion H; subst; [reflexivity|congruence].
  - intros ->. constructor. exact Hb.
Qed.

Lemma refers_to_children cls base children x :
  expression_type_ base <> COLUMN_VALUE ->
  refers_to (Expression cls base children) x <->
  exists child, In child children /\ refers_to child x.
Proof.
  intros Hb. split.
  - intros H. inversion H; subst; [congruence|]. eexists. split; eassumption.
  - intros [child [Hc Hr]]. eapply refers_child; eassumption.
Qed.

(** [GenerateTableAliasSet] adds to the set the aliases that the
    expression refers to, and nothing else. *)
Lemma GenerateTableAliasSet_spec e :
  forall s s',
    GenerateTableAliasSet e s = Ok s' ->
    (NoDup s -> NoDup s') /\
    (forall a, In a s' <-> In a s \/ refers_to e a).
Proof.
  induction e as [cls base children IH] using expression_ind. intros s s' H.
  simpl in H.
  destruct (ExpressionType_eqb (expression_type_ base) COLUMN_VALUE) eqn:Eb.
  - apply ExpressionType_eqb_true in Eb.
    destruct cls; try discriminate H. injection H as <-.
    split; [apply set_insert_NoDup|]. intros a.
    rewrite set_insert_In, refers_to_column by exact Eb. reflexivity.
  - apply ExpressionType_eqb_false in Eb.
    assert (Hloop : (NoDup s -> NoDup s') /\
                    (forall a, In a s' <->
                               In a s \/ exists child, In child children /\ refers_to child a)).
    { clear Eb. revert s H. induction children as [|c cs IHcs]; intros s H.
      - injection H as <-. split; [tauto|]. intros a. split; [tauto|].
        intros [K|[child [[] _]]]. exact K.
      - destruct (GenerateTableAliasSet c s) as [s1|] eqn:E1; [|discriminate H].
        cbn [bindR] in H.
        destruct (IH c (or_introl eq_refl) _ _ E1) as [N1 I1].
        destruct (IHcs (fun child Hc => IH child (or_intror Hc)) _ H) as [N2 I2].
        split; [tauto|]. intros a. rewrite I2, I1. split.
        + intros [[K|K]|[child [Hc K]]].
          * left; exact K.
          * right. exists c. split; [left; reflexivity|exact K].
          * right. exists child. split; [right; exact Hc|exact K].
        + intros [K|[child [[<-|Hc] K]]].
          * left; left; exact K.
          * left; right; exact K.
          * right. exists child. split; assumption. }
    destruct Hloop as [N I]. split; [exact N|]. intros a.
    rewrite I, refers_to_children by exact Eb. reflexivity.
Qed.

Lemma mapR_map_fst {A B} (g : B -> A) (f : A -> result B) (xs : list A) :
  (forall x y, f x = Ok y -> g y = x) ->
  forall ys, mapR f xs = Ok ys -> map g ys = xs.
Proof.
  intros Hf. induction xs as [|x xs IH]; simpl; intros ys H.
  - injection H as <-. reflexivity.
  - destruct (f x) as [y|] eqn:E; [|discriminate H]. cbn [bindR] in H.
    destruct (mapR f xs) as [ys'|]; [|discriminate H]. cbn [bindR] in H.
    injection H as <-. simpl. rewrite (Hf _ _ E), (IH _ eq_refl). reflexivity.
Qed.

Lemma mapR_In {A B} (f : A -> result B) (xs : list A) :
  forall ys y, mapR f xs = Ok ys -> In y ys -> exists x, In x xs /\ f x = Ok y.
Proof.
  induction xs as [|x xs IH]; simpl; intros ys y H Hy.
  - injection H as <-. destruct Hy.
  - destruct (f x) as [y0|] eqn:E; [|discriminate H]. cbn [bindR] in H.
    destruct (mapR f xs) as [ys'|] eqn:E'; [|discriminate H]. cbn [bindR] in H.
    injection H as <-. destruct Hy as [<-|Hy].
    + exists x. split; [left; reflexivity|exact E].
    + destruct (IH _ _ eq_refl Hy) as [x' [Hx' Hf]].
      exists x'. split; [right; exact Hx'|exact Hf].
Qed.

(** X2.  When [ExtractPredicates] returns, the annotated predicates are the
    conjuncts of the expression, in order (none for a null expression);
    the set of table aliases of each has no duplicates, and each alias in
    it is the table alias of a column value that the conjunct refers
    to. *)
Theorem ExtractPredicates_annotates (expr : option AbstractExpression)
  (annotated : list AnnotatedExpression) :
  ExtractPredicates expr = Ok annotated ->
  map expr_ annotated = SplitPredicates_ptr expr /\
  forall p, In p annotated ->
    NoDup (table_alias_set_ p) /\
    forall a, In a (table_alias_set_ p) -> refers_to (expr_ p) a.
Proof.
  unfold ExtractPredicates. cbv zeta. intros H. split.
  - eapply mapR_map_fst; [|exact H]. intros x y K. cbv beta in K.
    destruct (GenerateTableAliasSet x []); cbn [bindR] in K; [|discriminate K].
    injection K as <-. reflexivity.
  - intros p Hp. destruct (mapR_In _ _ _ _ H Hp) as [x [_ K]]. cbv beta in K.
    destruct (GenerateTableAliasSet x []) as [s|] eqn:E; cbn [bindR] in K;
      [|discriminate K].
    injection K as <-. cbn [table_alias_set_ expr_].
    destruct (GenerateTableAliasSet_spec _ _ _ E) as [N I].
    split; [apply N; constructor|]. intros a Ha. apply I in Ha.
    destruct Ha as [[]|Ha]. exact Ha.
Qed.

(** [t.a = s.b] is one conjunct, over the aliases [t] and [s]. *)
Lemma ExtractPredicates_annotates_witness :
  map expr_
    [ {| expr_ := t_a_equals_s_b;
         table_alias_set_ := [MakeAliasNoSerial "t"; MakeAliasNoSerial "s"] |} ]
  = SplitPredicates_ptr (Some t_a_equals_s_b).
Proof.
  apply (proj1 (ExtractPredicates_annotates (Some t_a_equals_s_b) _ eq_refl)).
Defined.

(** *** Supported predicates *)

Lemma takes_subquery_false t :
  takes_subquery t = false ->
  ExpressionType_eqb t COMPARE_IN = false /\
  ExpressionType_eqb t OPERATOR_EXISTS = false /\
  is_plain_comparison t = false.
Proof. destruct t; simpl; intros H; try discriminate H; repeat split. Qed.

Lemma is_plain_comparison_true t :
  is_plain_comparison t = true ->
  ExpressionType_eqb t COMPARE_IN = false /\
  ExpressionType_eqb t OPERATOR_EXISTS = false.
Proof. destruct t; simpl; intros H; try discriminate H; repeat split. Qed.

(** X3.  [IsSupportedConjunctivePredicate]: a conjunct without a sub-select
    is always supported; a conjunct with a sub-select whose root is not IN,
    EXISTS or one of the six comparisons (an OR or a NOT over a sub-select,
    for instance) is never supported; a comparison over two operands is
    supported exactly when one operand is the row sub-select and the other
    operand has no sub-select, so a comparison of two sub-selects is not
    supported. *)
Theorem IsSupportedConjunctivePredicate_cases (e : AbstractExpression) :
  (HasSubquery e = false -> IsSupportedConjunctivePredicate e = Ok true) /\
  (HasSubquery e = true -> takes_subquery (GetExpressionType e) = false ->
   IsSupportedConjunctivePredicate e = Ok false) /\
  (forall c0 c1,
     HasSubquery e = true -> is_plain_comparison (GetExpressionType e) = true ->
     GetChild e 0 = Ok c0 -> GetChild e 1 = Ok c1 ->
     (IsSupportedConjunctivePredicate e = Ok true <->
      (HasSubquery c0 = false /\ GetExpressionType c1 = ROW_SUBQUERY) \/
      (HasSubquery c1 = false /\ GetExpressionType c0 = ROW_SUBQUERY)) /\
     (HasSubquery c0 = true -> HasSubquery c1 = true ->
      IsSupportedConjunctivePredicate e = Ok false)).
Proof.
  unfold IsSupportedConjunctivePredicate. split; [intros ->; reflexivity|].
  split.
  - intros -> H. apply takes_subquery_false in H. destruct H as [H1 [H2 H3]].
    cbn [negb]. cbv zeta. rewrite H1, H2, H3. reflexivity.
  - intros c0 c1 -> Hp H0 H1.
    destruct (is_plain_comparison_true _ Hp) as [H2 H3].
    cbn [negb]. cbv zeta. rewrite H2, H3, Hp, H0, H1. cbn [bindR].
    assert (E : forall b, ExpressionType_eqb (GetExpressionType b) ROW_SUBQUERY = true
                          <-> GetExpressionType b = ROW_SUBQUERY)
      by (intros b; apply ExpressionType_eqb_true).
    rewrite <- (E c0), <- (E c1).
    destruct (HasSubquery c0), (HasSubquery c1); cbn [negb bindR];
      destruct (ExpressionType_eqb (GetExpressionType c1) ROW_SUBQUERY);
      destruct (ExpressionType_eqb (GetExpressionType c0) ROW_SUBQUERY);
      cbn [bindR]; (split; [split|]); intros; try reflexivity; try discriminate;
      try (left; split; reflexivity); try (right; split; reflexivity);
      match goal with
      | H : _ \/ _ |- _ => destruct H as [[? ?]|[? ?]]; discriminate
      end.
Qed.

(** [t.a OR (SELECT ...)] has a sub-select under an OR: not supported. *)
Lemma IsSupportedConjunctivePredicate_cases_witness :
  IsSupportedConjunctivePredicate or_with_subquery = Ok false.
Proof.
  apply (proj1 (proj2 (IsSupportedConjunctivePredicate_cases or_with_subquery)));
    reflexivity.
Defined.

(** *** [CollectPredicates] *)

Lemma mapR_first_failure {A B} (f : A -> result B) (pre : list A) (x : A)
  (post : list A) (e : Exception) :
  (forall q, In q pre -> exists y, f q = Ok y) ->
  f x = Err e ->
  mapR f (pre ++ x :: post) = Err e.
Proof.
  intros Hpre Hx. induction pre as [|q pre IH]; simpl.
  - rewrite Hx. reflexivity.
  - destruct (Hpre q (or_introl eq_refl)) as [y ->]. cbn [bindR].
    rewrite IH; [reflexivity|]. intros q' Hq'. apply Hpre. right. exact Hq'.
Qed.

Lemma mapR_all_ok {A} (f : A -> result unit) (xs : list A) :
  (forall q, In q xs -> f q = Ok tt) ->
  exists ys, mapR f xs = Ok ys.
Proof.
  induction xs as [|x xs IH]; intros H; simpl; [eexists; reflexivity|].
  rewrite (H x (or_introl eq_refl)). cbn [bindR].
  destruct (IH (fun q Hq => H q (or_intror Hq))) as [ys ->].
  eexists. reflexivity.
Qed.

(** X4.  [CollectPredicates] checks every conjunct before it transforms
    anything: when the first conjunct that is not supported is [p], it
    throws the not-implemented exception that names the expression type of
    [p], whatever the visit of the expression would do; when all the
    conjuncts are supported, it is the visit of the expression followed by
    [ExtractPredicates] on the visited expression; and on a null
    expression there is no conjunct to reject and the null pointer is
    dereferenced. *)
Theorem CollectPredicates_checks_first
  (rec : Visitors) (D : Collaborators) (t : QueryToOperatorTransformer) :
  (forall expr pre p post,
     SplitPredicates_ptr expr = (pre ++ p :: post)%list ->
     (forall q, In q pre -> IsSupportedConjunctivePredicate q = Ok true) ->
     IsSupportedConjunctivePredicate p = Ok false ->
     CollectPredicates rec D expr t =
       Err (NotImplementedException
              ("Expression type "
               ++ to_string_size (ExpressionTypeCode D (GetExpressionType p))
               ++ " is not supported"))) /\
  (forall e,
     (forall q, In q (SplitPredicates e) ->
                IsSupportedConjunctivePredicate q = Ok true) ->
     CollectPredicates rec D (Some e) t =
       ('(e', t') <- visit_expression rec e t ;;
        annotated <- ExtractPredicates (Some e') ;;
        Ok (Some e', annotated, t'))) /\
  CollectPredicates rec D None t = Err (UndefinedBehaviour "expr->Accept").
Proof.
  split; [|split].
  - intros expr pre p post Hs Hpre Hp. unfold CollectPredicates. cbv zeta.
    rewrite Hs.
    erewrite mapR_first_failure; [reflexivity| |].
    + intros q Hq. rewrite (Hpre q Hq). eexists. reflexivity.
    + rewrite Hp. reflexivity.
  - intros e H. unfold CollectPredicates. cbv zeta. cbn [SplitPredicates_ptr].
    match goal with
    | |- bindR (mapR ?f ?l) _ = _ => destruct (mapR_all_ok f l) as [ys ->]
    end.
    + intros q Hq. rewrite (H q Hq). reflexivity.
    + reflexivity.
  - reflexivity.
Qed.

(** [WHERE t.a = s.b AND (t.a OR (SELECT ...))]: the second conjunct is
    rejected, with the type code that the sample collaborators give. *)
Lemma CollectPredicates_checks_first_witness :
  CollectPredicates (Visit sample_collaborators 0) sample_collaborators
    (Some (conjunction CONJUNCTION_AND t_a_equals_s_b or_with_subquery true))
    sample_transformer
  = Err (NotImplementedException "Expression type 0 is not supported").
Proof.
  apply (proj1 (CollectPredicates_checks_first (Visit sample_collaborators 0)
                  sample_collaborators sample_transformer)
           (Some (conjunction CONJUNCTION_AND t_a_equals_s_b or_with_subquery true))
           [t_a_equals_s_b] or_with_subquery []).
  - reflexivity.
  - intros q [<-|[]]. reflexivity.
  - reflexivity.
Defined.

(** *** [RequireAggregation] *)

Lemma RequireAggregation_flags (D : Collaborators) (cols : list AbstractExpression) :
  forall a b,
    fold_left
      (fun (flags : bool * bool) expr =>
         let '(has_aggregation, has_other_exprs) := flags in
         match GetAggregateExprs D expr with
         | _ :: _ => (true, has_other_exprs)
         | [] => (has_aggregation, true)
         end)
      cols (a, b)
    = (a || existsb (fun e => match GetAggregateExprs D e with [] => false | _ => true end) cols,
       b || existsb (fun e => match GetAggregateExprs D e with [] => true | _ => false end) cols)%bool.
Proof.
  induction cols as [|c cols IH]; intros a b; simpl.
  - rewrite !orb_false_r. reflexivity.
  - destruct (GetAggregateExprs D c); rewrite IH; simpl;
      rewrite ?orb_true_r, ?orb_false_r; reflexivity.
Qed.

Lemma has_aggregate_existsb D op :
  has_aggregate D op <->
  existsb (fun e => match GetAggregateExprs D e with [] => false | _ => true end)
    (GetSelectColumns op) = true.
Proof.
  unfold has_aggregate. rewrite existsb_exists. split; intros [e [He H]]; exists e;
    (split; [exact He|]); destruct (GetAggregateExprs D e); try reflexivity;
    try discriminate; congruence.
Qed.

Lemma has_plain_column_existsb D op :
  has_plain_column D op <->
  existsb (fun e => match GetAggregateExprs D e with [] => true | _ => false end)
    (GetSelectColumns op) = true.
Proof.
  unfold has_plain_column. rewrite existsb_exists. split; intros [e [He H]]; exists e;
    (split; [exact He|]); destruct (GetAggregateExprs D e); try reflexivity;
    try discriminate; congruence.
Qed.

(** X5.  [RequireAggregation]: a SELECT with a GROUP BY aggregates.  Without
    a GROUP BY, a select list that mixes columns with an aggregate and
    columns without one is refused with the optimizer exception; otherwise
    the SELECT aggregates exactly when some column of its select list has
    an aggregate (so never for an empty select list). *)
Theorem RequireAggregation_cases (D : Collaborators) (op : SelectStatement) :
  (GetSelectGroupBy op <> None -> RequireAggregation D op = Ok true) /\
  (GetSelectGroupBy op = None ->
   (has_aggregate D op -> has_plain_column D op ->
    RequireAggregation D op =
      Err (OptimizerException
             "Non aggregation expression must appear in the GROUP BY clause or be used in an aggregate function")) /\
   (has_aggregate D op -> ~ has_plain_column D op ->
    RequireAggregation D op = Ok true) /\
   (~ has_aggregate D op -> RequireAggregation D op = Ok false)).
Proof.
  unfold RequireAggregation. split.
  - destruct (GetSelectGroupBy op); [reflexivity|]. intros H. contradiction.
  - intros ->. rewrite RequireAggregation_flags. cbn [orb].
    rewrite has_aggregate_existsb, has_plain_column_existsb.
    destruct (existsb _ _), (existsb _ _); cbn [andb]; repeat split; intros;
      try reflexivity; try discriminate; exfalso; auto.
Qed.

(** [SELECT COUNT( * ), a] without GROUP BY is refused. *)
Lemma RequireAggregation_cases_witness :
  RequireAggregation sample_collaborators
    (simple_select [count_star; column "a" 0] (Some (table "t")) None None)
  = Err (OptimizerException
           "Non aggregation expression must appear in the GROUP BY clause or be used in an aggregate function").
Proof.
  apply (proj1 (proj2 (RequireAggregation_cases sample_collaborators
                         (simple_select [count_star; column "a" 0]
                            (Some (table "t")) None None)) eq_refl)).
  - exists count_star. split; [left; reflexivity|discriminate].
  - exists (column "a" 0). split; [right; left; reflexivity|reflexivity].
Defined.

End predicate_facts.

Module transformer_facts.
Import optimizer optimizer_spec.

(** *** Sub-selects *)

Lemma IsSupportedSubSelect_conjunct_true (d : Z) (pred : AbstractExpression) :
  IsSupportedSubSelect_conjunct d pred = Ok true <->
  (GetDepth pred < d -> outer_column_equals_inner d pred).
Proof.
  unfold IsSupportedSubSelect_conjunct, outer_column_equals_inner.
  destruct (GetDepth pred <? d) eqn:Ed.
  - apply Z.ltb_lt in Ed.
    unfold ExpressionType_eqb at 1.
    destruct (ExpressionType_eq_dec (GetExpressionType pred) COMPARE_EQUAL)
      as [Ee|Ee]; simpl.
    + destruct (GetChild pred 1) as [c1|] eqn:E1; simpl.
      * destruct (GetChild pred 0) as [c0|] eqn:E0; simpl.
        -- destruct (GetDepth c1 =? d) eqn:D1; simpl.
           ++ apply Z.eqb_eq in D1.
              unfold ExpressionType_eqb at 1.
              destruct (ExpressionType_eq_dec (GetExpressionType c0) COLUMN_VALUE)
                as [T0|T0]; simpl.
              ** split; [|reflexivity]. intros _ _. split; [exact Ee|].
                 exists c0, c1. auto.
              ** destruct (GetDepth c0 =? d) eqn:D0.
                 --- apply Z.eqb_eq in D0. unfold ExpressionType_eqb.
                     destruct (ExpressionType_eq_dec (GetExpressionType c1) COLUMN_VALUE)
                       as [T1|T1].
                     +++ split; [|reflexivity]. intros _ _. split; [exact Ee|].
                         exists c0, c1. auto.
                     +++ split; [discriminate|].
                         intros H. destruct (H Ed) as [_ [x0 [x1 [Hx0 [Hx1 Hs]]]]].
                         inversion Hx0; inversion Hx1; subst.
                         destruct Hs as [[_ K]|[_ K]]; contradiction.
                 --- apply Z.eqb_neq in D0. split; [discriminate|].
                     intros H. destruct (H Ed) as [_ [x0 [x1 [Hx0 [Hx1 Hs]]]]].
                     inversion Hx0; inversion Hx1; subst.
                     destruct Hs as [[_ K]|[K _]]; contradiction.
           ++ apply Z.eqb_neq in D1.
              destruct (GetDepth c0 =? d) eqn:D0.
              ** apply Z.eqb_eq in D0. unfold ExpressionType_eqb.
                 destruct (ExpressionType_eq_dec (GetExpressionType c1) COLUMN_VALUE)
                   as [T1|T1].
                 --- split; [|reflexivity]. intros _ _. split; [exact Ee|].
                     exists c0, c1. auto.
                 --- split; [discriminate|].
                     intros H. destruct (H Ed) as [_ [x0 [x1 [Hx0 [Hx1 Hs]]]]].
                     inversion Hx0; inversion Hx1; subst.
                     destruct Hs as [[K _]|[_ K]]; contradiction.
              ** apply Z.eqb_neq in D0. split; [discriminate|].
                 intros H. destruct (H Ed) as [_ [x0 [x1 [Hx0 [Hx1 Hs]]]]].
                 inversion Hx0; inversion Hx1; subst.
                 destruct Hs as [[K _]|[K _]]; contradiction.
        -- destruct (GetDepth c1 =? d); simpl.
           ++ split; [discriminate|].
              intros H. destruct (H Ed) as [_ [x0 [x1 [Hx0 _]]]]. discriminate Hx0.
           ++ split; [discriminate|].
              intros H. destruct (H Ed) as [_ [x0 [x1 [Hx0 _]]]]. discriminate Hx0.
      * split; [discriminate|].
        intros H. destruct (H Ed) as [_ [x0 [x1 [_ [Hx1 _]]]]]. discriminate Hx1.
    + split; [discriminate|]. intros H. destruct (H Ed) as [K _]. contradiction.
  - apply Z.ltb_ge in Ed. split; [|reflexivity]. intros _ K. lia.
Qed.

Lemma IsSupportedSubSelect_loop_true (d : Z) (predicates : list AbstractExpression) :
  IsSupportedSubSelect_loop d predicates = Ok true <->
  (forall pred, In pred predicates ->
                GetDepth pred < d -> outer_column_equals_inner d pred).
Proof.
  induction predicates as [|pred predicates IH]; simpl.
  - split; [intros _ ? []|reflexivity].
  - destruct (IsSupportedSubSelect_conjunct d pred) as [[|]|] eqn:E; simpl.
    + pose proof (proj1 (IsSupportedSubSelect_conjunct_true d pred) E) as E'.
      rewrite IH. split.
      * intros H p [Hp|Hp]; [subst; exact E' | apply H; exact Hp].
      * intros H p Hp. apply H. right. exact Hp.
    + split; [discriminate|]. intros H.
      assert (K : IsSupportedSubSelect_conjunct d pred = Ok true).
      { apply IsSupportedSubSelect_conjunct_true. apply H. left. reflexivity. }
      rewrite K in E. discriminate E.
    + split; [discriminate|]. intros H.
      assert (K : IsSupportedSubSelect_conjunct d pred = Ok true).
      { apply IsSupportedSubSelect_conjunct_true. apply H. left. reflexivity. }
      rewrite K in E. discriminate E.
Qed.

Lemma IsSupportedSubSelect_conjunct_total (d : Z) (pred : AbstractExpression) :
  (GetExpressionType pred = COMPARE_EQUAL ->
   exists c0 c1, GetChild pred 0 = Ok c0 /\ GetChild pred 1 = Ok c1) ->
  exists b, IsSupportedSubSelect_conjunct d pred = Ok b.
Proof.
  intros H. unfold IsSupportedSubSelect_conjunct.
  destruct (GetDepth pred <? d); [|eauto].
  unfold ExpressionType_eqb at 1.
  destruct (ExpressionType_eq_dec (GetExpressionType pred) COMPARE_EQUAL)
    as [Ee|Ee]; simpl; [|eauto].
  destruct (H Ee) as [c0 [c1 [E0 E1]]]. rewrite E1, E0. simpl.
  destruct (GetDepth c1 =? d); simpl.
  - destruct (ExpressionType_eqb (GetExpressionType c0) COLUMN_VALUE); simpl;
      [eauto|]. destruct (GetDepth c0 =? d); eauto.
  - destruct (GetDepth c0 =? d); eauto.
Qed.

Lemma IsSupportedSubSelect_loop_total (d : Z) (predicates : list AbstractExpression) :
  (forall pred, In pred predicates ->
     GetExpressionType pred = COMPARE_EQUAL ->
     exists c0 c1, GetChild pred 0 = Ok c0 /\ GetChild pred 1 = Ok c1) ->
  exists b, IsSupportedSubSelect_loop d predicates = Ok b.
Proof.
  induction predicates as [|pred predicates IH]; simpl; intros H; [eauto|].
  destruct (IsSupportedSubSelect_conjunct_total d pred) as [b E].
  { apply H. left. reflexivity. }
  rewrite E. simpl. destruct b; [|eauto].
  apply IH. intros p Hp. apply H. right. exact Hp.
Qed.

(** [RequireAggregation] against the select list and the GROUP BY. *)
Lemma RequireAggregation_aggregates (D : Collaborators) (op : SelectStatement) :
  (mixed_select_list D op ->
   RequireAggregation D op =
     Err (OptimizerException
            "Non aggregation expression must appear in the GROUP BY clause or be used in an aggregate function")) /\
  (~ mixed_select_list D op ->
   (aggregates D op -> RequireAggregation D op = Ok true) /\
   (~ aggregates D op -> RequireAggregation D op = Ok false)).
Proof.
  unfold RequireAggregation, mixed_select_list, aggregates.
  destruct (GetSelectGroupBy op) as [g|].
  - split; [intros [H _]; discriminate H|]. intros _. split; [reflexivity|].
    intros H. exfalso. apply H. left. discriminate.
  - rewrite predicate_facts.RequireAggregation_flags. cbn [orb].
    pose proof (predicate_facts.has_aggregate_existsb D op) as Ha.
    pose proof (predicate_facts.has_plain_column_existsb D op) as Hp.
    unfold optimizer_props.has_aggregate in Ha.
    unfold optimizer_props.has_plain_column in Hp.
    destruct (existsb _ _), (existsb _ _); cbn [andb].
    + split; [reflexivity|]. intros H. exfalso. apply H.
      split; [reflexivity|]. split; [apply Ha|apply Hp]; reflexivity.
    + split.
      * intros [_ [_ H]]. apply Hp in H. discriminate H.
      * intros _. split; [reflexivity|]. intros H. exfalso. apply H. right.
        apply Ha. reflexivity.
    + split.
      * intros [_ [H _]]. apply Ha in H. discriminate H.
      * intros _. split; [|reflexivity].
        intros [H|H]; [exfalso; apply H; reflexivity|].
        apply Ha in H. discriminate H.
    + split.
      * intros [_ [H _]]. apply Ha in H. discriminate H.
      * intros _. split; [|reflexivity].
        intros [H|H]; [exfalso; apply H; reflexivity|].
        apply Ha in H. discriminate H.
Qed.

Lemma aggregates_dec (D : Collaborators) (op : SelectStatement) :
  aggregates D op \/ ~ aggregates D op.
Proof.
  unfold aggregates. destruct (GetSelectGroupBy op) as [g|].
  - left. left. discriminate.
  - pose proof (predicate_facts.has_aggregate_existsb D op) as Ha.
    unfold optimizer_props.has_aggregate in Ha.
    destruct (existsb _ _).
    + left. right. apply Ha. reflexivity.
    + right. intros [H|H]; [apply H; reflexivity|].
      apply Ha in H. discriminate H.
Qed.

Lemma IsSupportedSubSelect_true (D : Collaborators) (op : SelectStatement) :
  ~ mixed_select_list D op ->
  (IsSupportedSubSelect D op = Ok true <-> eligible D op).
Proof.
  intros Hm.
  destruct (proj2 (RequireAggregation_aggregates D op) Hm) as [Hyes Hno].
  unfold IsSupportedSubSelect, eligible, correlated.
  destruct (aggregates_dec D op) as [Ha|Ha].
  - rewrite (Hyes Ha). cbn [bindR negb]. cbv zeta.
    rewrite IsSupportedSubSelect_loop_true. split.
    + intros H. right. split; [exact Ha|]. intros pred Hp.
      apply H. apply predicate_facts.SplitPredicates_where_conjunct. exact Hp.
    + intros [H|[_ H]]; [contradiction|]. intros pred Hp. apply H.
      apply predicate_facts.SplitPredicates_where_conjunct. exact Hp.
  - rewrite (Hno Ha). cbn [bindR negb].
    split; [intros _; left; exact Ha | reflexivity].
Qed.

(** C7, as amended.  For a sub-select whose select list does not mix
    columns (without GROUP BY, columns that hold an aggregate together with
    columns that hold none), [IsSupportedSubSelect] accepts it exactly when
    it is eligible: it performs no aggregation, or it aggregates and every
    correlated conjunct of its WHERE clause (depth less than the depth of
    the sub-select) is an equality with a column reference on one side and
    an expression of the depth of the sub-select on the other; when the
    equalities have their two operands, the test rejects exactly the
    sub-selects that are not eligible.  A rejected sub-select makes
    [GenerateSubqueryTree] fail with the not-implemented error "Sub-select
    not supported".  A sub-select whose select list mixes columns is never
    accepted: the test throws the optimizer exception of
    [RequireAggregation], and so does [GenerateSubqueryTree]; this is no
    not-implemented error. *)
Theorem IsSupportedSubSelect_eligible (D : Collaborators) (op : SelectStatement) :
  (~ mixed_select_list D op ->
   (IsSupportedSubSelect D op = Ok true <-> eligible D op)) /\
  (~ mixed_select_list D op -> binary_equalities op ->
   (IsSupportedSubSelect D op = Ok false <-> ~ eligible D op)) /\
  (mixed_select_list D op ->
   IsSupportedSubSelect D op =
     Err (OptimizerException
            "Non aggregation expression must appear in the GROUP BY clause or be used in an aggregate function")) /\
  (forall rec expr child_id single_join t subquery_expr,
     GetChild expr child_id = Ok subquery_expr ->
     GetExpressionType subquery_expr = ROW_SUBQUERY ->
     GetClass subquery_expr = SubqueryExpression op ->
     (IsSupportedSubSelect D op = Ok false ->
      GenerateSubqueryTree rec D expr child_id single_join t =
        Err (NotImplementedException "Sub-select not supported") /\
      fails_with (GenerateSubqueryTree rec D expr child_id single_join t)
        NotImplemented) /\
     (mixed_select_list D op ->
      GenerateSubqueryTree rec D expr child_id single_join t =
        Err (OptimizerException
               "Non aggregation expression must appear in the GROUP BY clause or be used in an aggregate function") /\
      ~ fails_with (GenerateSubqueryTree rec D expr child_id single_join t)
          NotImplemented)).
Proof.
  assert (Hmixed : mixed_select_list D op ->
            IsSupportedSubSelect D op =
              Err (OptimizerException
                     "Non aggregation expression must appear in the GROUP BY clause or be used in an aggregate function")).
  { intros Hm. unfold IsSupportedSubSelect.
    rewrite (proj1 (RequireAggregation_aggregates D op) Hm). reflexivity. }
  split; [apply IsSupportedSubSelect_true|]. split; [|split; [exact Hmixed|]].
  - intros Hm Hb.
    assert (Htot : exists b, IsSupportedSubSelect D op = Ok b).
    { destruct (proj2 (RequireAggregation_aggregates D op) Hm) as [Hyes Hno].
      unfold IsSupportedSubSelect.
      destruct (aggregates_dec D op) as [Ha|Ha].
      - rewrite (Hyes Ha). cbn [bindR negb]. cbv zeta.
        apply IsSupportedSubSelect_loop_total. intros pred Hp. apply Hb.
        apply predicate_facts.SplitPredicates_where_conjunct. exact Hp.
      - rewrite (Hno Ha). cbn [bindR negb]. eauto. }
    destruct Htot as [b Hb']. rewrite <- (IsSupportedSubSelect_true D op Hm), Hb'.
    destruct b; split; intros H; try discriminate H; try reflexivity.
    + exfalso. apply H. reflexivity.
    + intros K. discriminate K.
  - intros rec expr child_id single_join t subquery_expr Hc Ht Hcls. split.
    + intros Hno.
      assert (E : GenerateSubqueryTree rec D expr child_id single_join t =
                  Err (NotImplementedException "Sub-select not supported")).
      { unfold GenerateSubqueryTree. rewrite Hc. simpl.
        rewrite Ht. simpl. rewrite Hcls. simpl. rewrite Hno. reflexivity. }
      split; [exact E|]. rewrite E. eexists; split; reflexivity.
    + intros Hm.
      assert (E : GenerateSubqueryTree rec D expr child_id single_join t =
                  Err (OptimizerException
                         "Non aggregation expression must appear in the GROUP BY clause or be used in an aggregate function")).
      { unfold GenerateSubqueryTree. rewrite Hc. simpl.
        rewrite Ht. simpl. rewrite Hcls. simpl. rewrite (Hmixed Hm). reflexivity. }
      split; [exact E|]. rewrite E. intros [e [He Hk]].
      injection He as <-. discriminate Hk.
Qed.

(** [t.a = (SELECT COUNT( * ) FROM s WHERE s.b < t.a)]: the sub-select
    aggregates and its correlated conjunct is not an equality. *)
Lemma IsSupportedSubSelect_eligible_witness :
  GenerateSubqueryTree (Visit sample_collaborators 3) sample_collaborators
    a_equals_count 1 true sample_transformer =
    Err (NotImplementedException "Sub-select not supported") /\
  fails_with
    (GenerateSubqueryTree (Visit sample_collaborators 3) sample_collaborators
       a_equals_count 1 true sample_transformer)
    NotImplemented.
Proof.
  apply (proj1 (proj2 (proj2 (proj2 (IsSupportedSubSelect_eligible
                                       sample_collaborators count_where_less)))
           (Visit sample_collaborators 3) a_equals_count 1%nat true
           sample_transformer (subquery count_where_less)
           eq_refl eq_refl eq_refl));
    reflexivity.
Defined.

(** [t.a = (SELECT s.b, COUNT( * ) FROM s)]: the sub-select aggregates and
    has no correlated conjunct, so it is eligible by the words of the
    statement; it is not accepted, and the transform fails with the
    optimizer exception, not with a not-implemented error. *)
Lemma mixed_subselect_is_eligible_and_refused :
  eligible sample_collaborators column_and_count /\
  IsSupportedSubSelect sample_collaborators column_and_count <> Ok true /\
  GenerateSubqueryTree (Visit sample_collaborators 3) sample_collaborators
    a_equals_column_and_count 1 true sample_transformer =
    Err (OptimizerException
           "Non aggregation expression must appear in the GROUP BY clause or be used in an aggregate function") /\
  ~ fails_with
      (GenerateSubqueryTree (Visit sample_collaborators 3) sample_collaborators
         a_equals_column_and_count 1 true sample_transformer)
      NotImplemented.
Proof.
  split; [|split; [|split]].
  - right. split.
    + right. exists count_star. split; [right; left; reflexivity|discriminate].
    + intros pred [w [Hw _]]. discriminate Hw.
  - discriminate.
  - reflexivity.
  - intros [e [He Hk]]. vm_compute in He. injection He as <-. discriminate Hk.
Qed.

(** *** Comparisons *)

(** C8, as amended.  The visit of a comparison (equal, not-equal, less or
    greater, with or without or-equal) whose two children are row
    sub-queries always fails, with the not-implemented error "Comparisons
    between sub-selects are not supported", which is of kind
    [NotImplemented]. *)
Theorem Visit_ComparisonExpression_two_subselects
  (rec : Visitors) (D : Collaborators) (expr c0 c1 : AbstractExpression)
  (t : QueryToOperatorTransformer) :
  is_plain_comparison (GetExpressionType expr) = true ->
  GetChild expr 0 = Ok c0 ->
  GetChild expr 1 = Ok c1 ->
  GetExpressionType c0 = ROW_SUBQUERY ->
  GetExpressionType c1 = ROW_SUBQUERY ->
  Visit_ComparisonExpression rec D expr t =
    Err (NotImplementedException "Comparisons between sub-selects are not supported")
  /\ fails_with (Visit_ComparisonExpression rec D expr t) NotImplemented
  /\ (GetClass expr = ComparisonExpression ->
      forall fuel,
        visit_expression (Visit D (S fuel)) expr t =
          Err (NotImplementedException
                 "Comparisons between sub-selects are not supported")).
Proof.
  intros Hcmp H0 H1 T0 T1.
  assert (E : forall r, Visit_ComparisonExpression r D expr t =
                Err (NotImplementedException
                       "Comparisons between sub-selects are not supported")).
  { intros r. unfold Visit_ComparisonExpression.
    destruct (ExpressionType_eqb (GetExpressionType expr) COMPARE_IN) eqn:Ein.
    - unfold ExpressionType_eqb in Ein.
      destruct (ExpressionType_eq_dec (GetExpressionType expr) COMPARE_IN) as [K|K];
        [|discriminate Ein].
      rewrite K in Hcmp. discriminate Hcmp.
    - rewrite Hcmp, H0. simpl. rewrite T0. simpl. rewrite H1. simpl.
      rewrite T1. reflexivity. }
  split; [apply E|]. split.
  - rewrite E. eexists; split; reflexivity.
  - intros Hcls fuel. simpl. unfold Visit_Expression. rewrite Hcls. apply E.
Qed.

(** [(SELECT a FROM t) = (SELECT b FROM s)]. *)
Lemma Visit_ComparisonExpression_two_subselects_witness :
  Visit_ComparisonExpression (Visit sample_collaborators 2) sample_collaborators
    subselect_equals_subselect sample_transformer =
    Err (NotImplementedException "Comparisons between sub-selects are not supported")
  /\ fails_with
       (Visit_ComparisonExpression (Visit sample_collaborators 2)
          sample_collaborators subselect_equals_subselect sample_transformer)
       NotImplemented.
Proof.
  destruct (Visit_ComparisonExpression_two_subselects
              (Visit sample_collaborators 2) sample_collaborators
              subselect_equals_subselect
              (subquery (simple_select [column "a" 1] (Some (table "t")) None None))
              (subquery (simple_select [column "b" 1] (Some (table "s")) None None))
              sample_transformer eq_refl eq_refl eq_refl eq_refl eq_refl)
    as [H1 [H2 _]].
  split; assumption.
Defined.

(** The failure on [(SELECT a FROM t) = (SELECT b FROM s)] is not of kind
    [FeatureNotSupported]. *)
Lemma two_subselects_not_FeatureNotSupported :
  ~ fails_with
      (visit_expression (Visit sample_collaborators 3) subselect_equals_subselect
         sample_transformer)
      FeatureNotSupported.
Proof.
  intros [e [H K]]. cbv in H. inversion H; subst. discriminate K.
Qed.

(** *** Implicit joins *)

Lemma implicit_join_loop_chain (rec : Visitors) (elems : list TableRef) :
  forall prev_expr t,
    implicit_join_loop rec elems prev_expr t =
    ('(elems', trees, t') <- visit_all rec elems t ;;
     Ok (elems', fold_left join_step trees prev_expr, t')).
Proof.
  induction elems as [|elem elems IH]; intros prev_expr t; simpl.
  - reflexivity.
  - destruct (visit_table_ref rec elem t) as [[elem' t1]|]; simpl; [|reflexivity].
    rewrite IH.
    destruct (visit_all rec elems (set_output_expr t1 None)) as [[[es trees] t2]|];
      reflexivity.
Qed.

Lemma left_deep_chain_snoc (trees : list (option OperatorNode))
  (tree : option OperatorNode) :
  trees <> [] ->
  left_deep_chain (trees ++ [tree]) =
  Some (MkOperatorNode (LogicalInnerJoin []) [left_deep_chain trees; tree]).
Proof.
  destruct trees as [|first more]; [contradiction|]. intros _.
  simpl. rewrite fold_left_app. reflexivity.
Qed.

(** C9.  For a table reference that is a list of more than one table (no
    derived table and no explicit join at this node), the visit visits the
    tables in list order and leaves in [output_expr_] the left-deep chain
    of Inner-join nodes over their trees: the first two trees are the
    children of the bottom join, and the tree of every further table is
    the right child of a new Inner join whose left child is the chain built
    so far.  The visit fails exactly when the visit of one of the tables
    fails. *)
Theorem Visit_TableRef_implicit_join
  (rec : Visitors) (node : TableRef) (t : QueryToOperatorTransformer) :
  GetSelect node = None ->
  GetJoin node = None ->
  (1 < List.length (GetList node))%nat ->
  Visit_TableRef rec node t =
    ('(tables, trees, t') <- visit_all rec (GetList node) t ;;
     Ok (SetList node tables, set_output_expr t' (left_deep_chain trees)))
  /\ (forall first second,
        left_deep_chain [first; second] =
        Some (MkOperatorNode (LogicalInnerJoin []) [first; second]))
  /\ (forall trees tree,
        trees <> [] ->
        left_deep_chain (trees ++ [tree]) =
        Some (MkOperatorNode (LogicalInnerJoin []) [left_deep_chain trees; tree])).
Proof.
  intros Hs Hj Hl. split; [|split].
  - unfold Visit_TableRef. rewrite Hs, Hj.
    replace (1 <? List.length (GetList node))%nat with true
      by (symmetry; apply Nat.ltb_lt; exact Hl).
    destruct (GetList node) as [|first rest] eqn:El; [simpl in Hl; lia|].
    unfold at_. simpl.
    destruct (visit_table_ref rec first t) as [[first' t1]|]; simpl; [|reflexivity].
    rewrite implicit_join_loop_chain.
    destruct (visit_all rec rest (set_output_expr t1 None)) as [[[es trees] t2]|];
      reflexivity.
  - reflexivity.
  - apply left_deep_chain_snoc.
Qed.

(** [FROM a, b, c] gives [InnerJoin(InnerJoin(Get a, Get b), Get c)]. *)
Lemma Visit_TableRef_implicit_join_witness :
  Visit_TableRef (Visit sample_collaborators 1) from_a_b_c sample_transformer =
    ('(tables, trees, t') <-
       visit_all (Visit sample_collaborators 1) (GetList from_a_b_c)
         sample_transformer ;;
     Ok (SetList from_a_b_c tables, set_output_expr t' (left_deep_chain trees)))
  /\
  exists get_a get_b get_c,
    option_map Contents get_a =
      Some (LogicalGet 1 1001 [] (MakeAliasNoSerial "a") false) /\
    option_map Contents get_b =
      Some (LogicalGet 1 1001 [] (MakeAliasNoSerial "b") false) /\
    option_map Contents get_c =
      Some (LogicalGet 1 1001 [] (MakeAliasNoSerial "c") false) /\
    Visit_TableRef (Visit sample_collaborators 1) from_a_b_c sample_transformer =
      Ok (from_a_b_c,
          set_output_expr sample_transformer
            (Some (MkOperatorNode (LogicalInnerJoin [])
                     [Some (MkOperatorNode (LogicalInnerJoin []) [get_a; get_b]);
                      get_c]))).
Proof.
  split.
  - apply (proj1 (Visit_TableRef_implicit_join (Visit sample_collaborators 1)
                    from_a_b_c sample_transformer eq_refl eq_refl
                    (le_n_S _ _ (le_n_S _ _ (Nat.le_0_l _))))).
  - eexists _, _, _. repeat split; reflexivity.
Defined.

(** *** LIMIT *)

Lemma mapS_preserves {A B S} (P : S -> Prop) (f : A -> S -> result (B * S)) :
  (forall x s y s', f x s = Ok (y, s') -> P s -> P s') ->
  forall xs s ys s', mapS f xs s = Ok (ys, s') -> P s -> P s'.
Proof.
  intros Hf. induction xs as [|x xs IH]; simpl; intros s ys s' H Hs.
  - inversion H; subst. exact Hs.
  - destruct (f x s) as [[y s1]|] eqn:E; simpl in H; [|discriminate H].
    destruct (mapS f xs s1) as [[ys' s2]|] eqn:E'; simpl in H; [|discriminate H].
    inversion H; subst. eapply IH; [exact E'|]. eapply Hf; eassumption.
Qed.

Lemma root_set_predicates t p :
  root_is_not_limit t -> root_is_not_limit (set_predicates t p).
Proof. intros H. exact H. Qed.

Lemma root_of_node t contents children :
  is_limit contents = false ->
  root_is_not_limit (set_output_expr t (Some (MkOperatorNode contents children))).
Proof. intros H. exists contents, children. split; [reflexivity|exact H]. Qed.

Lemma root_of_pushed t contents c :
  is_limit contents = false ->
  root_is_not_limit
    (set_output_expr t (Some (PushChild (MkOperatorNode contents []) c))).
Proof. intros H. apply root_of_node. exact H. Qed.

Lemma wrap_filter_root predicates t :
  root_is_not_limit t -> root_is_not_limit (wrap_filter predicates t).
Proof.
  intros H. destruct predicates; [exact H|]. simpl. apply root_of_node. reflexivity.
Qed.

Lemma GenerateSubqueryTree_root rec D expr child_id single_join t b expr' t' :
  GenerateSubqueryTree rec D expr child_id single_join t = Ok (b, expr', t') ->
  root_is_not_limit t -> root_is_not_limit t'.
Proof.
  unfold GenerateSubqueryTree. intros H Ht.
  destruct (GetChild expr child_id) as [sub|]; simpl in H; [|discriminate H].
  destruct (ExpressionType_eqb (GetExpressionType sub) ROW_SUBQUERY); simpl in H.
  - destruct (GetClass sub); simpl in H; try discriminate H.
    destruct (IsSupportedSubSelect D subselect_) as [[|]|]; simpl in H;
      try discriminate H.
    destruct (Nat.eqb _ 1); simpl in H; [|discriminate H].
    destruct (visit_select rec subselect_ _) as [[s1 t1]|]; simpl in H;
      [|discriminate H].
    destruct (at_ (GetSelectColumns s1) 0); simpl in H; [|discriminate H].
    destruct (SetChild expr child_id a); simpl in H; [|discriminate H].
    inversion H; subst.
    destruct single_join; apply root_of_node; reflexivity.
  - inversion H; subst. exact Ht.
Qed.

Lemma visit_expression_root D :
  forall fuel expr t expr' t',
    visit_expression (Visit D fuel) expr t = Ok (expr', t') ->
    root_is_not_limit t -> root_is_not_limit t'.
Proof.
  induction fuel as [|fuel IH]; intros expr t expr' t' H Ht; [discriminate H|].
  simpl in H. unfold Visit_Expression in H.
  assert (Hchildren : forall e s e' s',
            AcceptChildren (Visit D fuel) e s = Ok (e', s') ->
            root_is_not_limit s -> root_is_not_limit s').
  { intros e s e' s' K Hs. unfold AcceptChildren in K.
    destruct (mapS _ (GetChildren e) s) as [[cs s1]|] eqn:E; simpl in K;
      [|discriminate K].
    inversion K; subst.
    eapply (mapS_preserves root_is_not_limit); [|exact E|exact Hs].
    intros x s0 y s2 Hx Hs0. eapply IH; eassumption. }
  destruct (GetClass expr).
  all: try (eapply Hchildren; eassumption).
  - (* comparison *)
    unfold Visit_ComparisonExpression in H.
    match type of H with
    | bindR ?c _ = _ => destruct c as [[e1 t1]|] eqn:E; simpl in H; [|discriminate H]
    end.
    eapply Hchildren; [exact H|].
    destruct (ExpressionType_eqb (GetExpressionType expr) COMPARE_IN).
    + destruct (GenerateSubqueryTree _ D expr 1 false t) as [[[b e2] t2]|] eqn:G;
        simpl in E; [|discriminate E].
      inversion E; subst. eapply GenerateSubqueryTree_root; eassumption.
    + destruct (is_plain_comparison (GetExpressionType expr)).
      * destruct (GetChild expr 0) as [c0|]; simpl in E; [|discriminate E].
        match type of E with
        | bindR ?c _ = _ => destruct c as [[|]|]; simpl in E; try discriminate E
        end.
        destruct (GenerateSubqueryTree _ D expr 0 true t) as [[[b e2] t2]|] eqn:G;
          simpl in E; [|discriminate E].
        pose proof (GenerateSubqueryTree_root _ _ _ _ _ _ _ _ _ G Ht) as R2.
        destruct b.
        -- inversion E; subst. exact R2.
        -- destruct (GenerateSubqueryTree _ D e2 1 true t2) as [[[b3 e3] t3]|] eqn:G3;
             simpl in E; [|discriminate E].
           inversion E; subst. eapply GenerateSubqueryTree_root; eassumption.
      * inversion E; subst. exact Ht.
  - (* operator *)
    unfold Visit_OperatorExpression in H.
    match type of H with
    | bindR ?c _ = _ => destruct c as [[e1 t1]|] eqn:E; simpl in H; [|discriminate H]
    end.
    eapply Hchildren; [exact H|].
    destruct (ExpressionType_eqb (GetExpressionType expr) OPERATOR_EXISTS).
    + destruct (GenerateSubqueryTree _ D expr 0 false t) as [[[b e2] t2]|] eqn:G;
        simpl in E; [|discriminate E].
      pose proof (GenerateSubqueryTree_root _ _ _ _ _ _ _ _ _ G Ht) as R2.
      destruct b; inversion E; subst; exact R2.
    + inversion E; subst. exact Ht.
Qed.

Lemma CollectPredicates_root D fuel expr t expr' collected t' :
  CollectPredicates (Visit D fuel) D expr t = Ok (expr', collected, t') ->
  root_is_not_limit t -> root_is_not_limit t'.
Proof.
  unfold CollectPredicates. intros H Ht.
  destruct (mapR _ (SplitPredicates_ptr expr)); simpl in H; [|discriminate H].
  destruct expr as [e|]; simpl in H; [|discriminate H].
  destruct (visit_expression (Visit D fuel) e t) as [[e1 t1]|] eqn:E; simpl in H;
    [|discriminate H].
  destruct (ExtractPredicates (Some e1)); simpl in H; [|discriminate H].
  inversion H; subst. eapply visit_expression_root; eassumption.
Qed.

Lemma Visit_JoinDefinition_root rec D node t node' t' :
  Visit_JoinDefinition rec D node t = Ok (node', t') -> root_is_not_limit t'.
Proof.
  unfold Visit_JoinDefinition. destruct node as [type l r condition]. intros H.
  destruct (visit_table_ref rec l t) as [[l1 t1]|]; simpl in H; [|discriminate H].
  destruct (visit_table_ref rec r _) as [[r1 t2]|]; simpl in H; [|discriminate H].
  destruct (CollectPredicates rec D condition _) as [[[c1 preds] t3]|]; simpl in H;
    [|discriminate H].
  destruct type; simpl in H; try discriminate H;
    inversion H; subst; apply root_of_node; reflexivity.
Qed.

Lemma visit_all_length rec tables :
  forall t tables' trees t',
    visit_all rec tables t = Ok (tables', trees, t') ->
    List.length trees = List.length tables.
Proof.
  induction tables as [|x tables IH]; simpl; intros t tables' trees t' H.
  - inversion H; reflexivity.
  - destruct (visit_table_ref rec x t) as [[x1 t1]|]; simpl in H; [|discriminate H].
    destruct (visit_all rec tables _) as [[[ts trs] t2]|] eqn:E; simpl in H;
      [|discriminate H].
    inversion H; subst. simpl. f_equal. eapply IH. exact E.
Qed.

Lemma fold_join_step_root (trees : list (option OperatorNode)) :
  forall prev, trees <> [] ->
    exists children,
      fold_left join_step trees prev =
      Some (MkOperatorNode (LogicalInnerJoin []) children).
Proof.
  induction trees as [|x trees IH]; intros prev H; [contradiction|].
  simpl. destruct trees as [|y trees'].
  - simpl. eexists. reflexivity.
  - apply IH. discriminate.
Qed.

Lemma Visit_TableRef_root D fuel node t node' t' :
  Visit_TableRef (Visit D fuel) node t = Ok (node', t') -> root_is_not_limit t'.
Proof.
  unfold Visit_TableRef. intros H.
  destruct (GetSelect node) as [select|].
  - destruct (ConstructSelectElementMap _); simpl in H; [|discriminate H].
    destruct (visit_select _ select t) as [[s1 t1]|]; simpl in H; [|discriminate H].
    inversion H; subst. apply root_of_node. reflexivity.
  - destruct (GetJoin node) as [join|].
    + destruct (visit_join (Visit D fuel) join t) as [[j1 t1]|] eqn:E; simpl in H;
        [|discriminate H].
      inversion H; subst. destruct fuel as [|fuel]; [discriminate E|].
      simpl in E. eapply Visit_JoinDefinition_root. exact E.
    + destruct (1 <? List.length (GetList node))%nat eqn:El.
      * apply Nat.ltb_lt in El.
        destruct (GetList node) as [|first rest]; [simpl in El; lia|].
        unfold at_ in H. simpl in H.
        destruct (visit_table_ref _ first t) as [[f1 t1]|]; simpl in H;
          [|discriminate H].
        rewrite implicit_join_loop_chain in H.
        destruct (visit_all _ rest _) as [[[es trees] t2]|] eqn:E; simpl in H;
          [|discriminate H].
        inversion H; subst.
        apply visit_all_length in E.
        destruct (fold_join_step_root trees (output_expr_ t1)) as [ch Hch].
        { intros K. subst trees. simpl in E. destruct rest; simpl in *; [lia|discriminate]. }
        simpl. rewrite Hch. apply root_of_node. reflexivity.
      * match type of H with
        | bindR ?c _ = _ => destruct c as [single|]; simpl in H; [|discriminate H]
        end.
        destruct (GetTableName single) as [name|]; simpl in H; [|discriminate H].
        destruct (find_index name (cte_table_name_ t)) as [index|].
        -- destruct (nth_error (cte_oids_ t) index); simpl in H; [|discriminate H].
           destruct (nth_error (cte_schemas_ t) index); simpl in H; [|discriminate H].
           destruct (nth_error (cte_expressions_ t) index); simpl in H;
             [|discriminate H].
           destruct (nth_error (cte_type_ t) index); simpl in H; [|discriminate H].
           inversion H; subst. apply root_of_node. reflexivity.
        -- inversion H; subst. apply root_of_node. reflexivity.
Qed.

Lemma FindFirstCTEScanNode_contents child_expr name out b child' out' :
  FindFirstCTEScanNode child_expr name out = Ok (b, child', out') ->
  Contents child' = Contents child_expr.
Proof.
  destruct child_expr as [contents children]. simpl.
  destruct (is_cte_scan_of contents name).
  - intros H. inversion H; subst. reflexivity.
  - match goal with
    | |- bindR ?c _ = _ -> _ => destruct c as [[[x cs] o]|]; simpl
    end; intros H; [|discriminate H].
    inversion H; subst. reflexivity.
Qed.

Lemma Select_From_root D fuel op t table t' :
  Select_From (Visit D fuel) op t = Ok (table, t') -> root_is_not_limit t'.
Proof.
  unfold Select_From. intros H. destruct (GetSelectTable op) as [from|].
  - destruct (visit_table_ref (Visit D fuel) from t) as [[f1 t1]|] eqn:E;
      simpl in H; [|discriminate H].
    inversion H; subst. destruct fuel as [|fuel]; [discriminate E|].
    simpl in E. eapply Visit_TableRef_root. exact E.
  - inversion H; subst. apply root_of_node. reflexivity.
Qed.

Lemma Select_Where_root D fuel op t condition t' :
  Select_Where (Visit D fuel) D op t = Ok (condition, t') ->
  root_is_not_limit t -> root_is_not_limit t'.
Proof.
  unfold Select_Where. intros H Ht.
  destruct (GetSelectCondition op) as [cond|]; simpl in H.
  - destruct (CollectPredicates _ D (Some cond) t) as [[[c1 collected] t1]|] eqn:E;
      simpl in H; [|discriminate H].
    inversion H; subst. apply root_set_predicates, wrap_filter_root.
    apply root_set_predicates. eapply CollectPredicates_root; eassumption.
  - inversion H; subst. apply root_set_predicates, wrap_filter_root. exact Ht.
Qed.

Lemma Select_Aggregation_root D fuel op t group_by t' :
  Select_Aggregation (Visit D fuel) D op t = Ok (group_by, t') ->
  root_is_not_limit t -> root_is_not_limit t'.
Proof.
  unfold Select_Aggregation. intros H Ht.
  destruct (RequireAggregation D op) as [[|]|]; simpl in H; [| |discriminate H].
  - destruct (GetSelectGroupBy op) as [g|].
    + match type of H with
      | bindR ?c _ = _ =>
          destruct c as [[[h1 having] t1]|] eqn:E; simpl in H; [|discriminate H]
      end.
      inversion H; subst. apply wrap_filter_root.
      destruct (GetHaving g) as [h|].
      * eapply CollectPredicates_root; [exact E|]. apply root_of_node. reflexivity.
      * inversion E; subst. apply root_of_node. reflexivity.
    + inversion H; subst. apply root_of_node. reflexivity.
  - destruct (IsSelectDistinct op); inversion H; subst.
    + apply root_of_node. reflexivity.
    + exact Ht.
Qed.

Lemma Select_Limit_no_limit op t : no_limit op -> Select_Limit op t = t.
Proof.
  unfold Select_Limit. intros [H|[l [H Hl]]]; rewrite H; [reflexivity|].
  rewrite Hl. reflexivity.
Qed.

Lemma Select_AttachCtes_root rec withs t withs' t' :
  Select_AttachCtes rec withs t = Ok (withs', t') ->
  root_is_not_limit t -> root_is_not_limit t'.
Proof.
  unfold Select_AttachCtes. intros H Ht.
  destruct withs as [|w withs]; [inversion H; subst; exact Ht|].
  unfold move_output_expr in H. cbv beta iota in H.
  match type of H with
  | bindR ?c _ = _ =>
      destruct c as [[ws [child t1]]|] eqn:E; simpl in H; [|discriminate H]
  end.
  inversion H; subst.
  pose (P := fun st : option OperatorNode * QueryToOperatorTransformer =>
               exists contents children,
                 fst st = Some (MkOperatorNode contents children) /\
                 is_limit contents = false).
  assert (HP : P (child, t1)).
  { eapply (mapS_preserves P); [|exact E|].
    - intros x [c0 s0] y [c1 s1] Hx [contents [children [Hc Hl]]].
      simpl in Hc. subst c0. unfold Select_AttachCte_entry in Hx.
      destruct (visit_table_ref rec x s0) as [[w1 s2]|]; cbn [bindR] in Hx;
        [|discriminate Hx].
      unfold deref in Hx. cbn [bindR] in Hx.
      destruct (FindFirstCTEScanNode (MkOperatorNode contents children)
                  (name_ (GetTableAlias w1)) (output_expr_ s2))
        as [[[b n] lo]|] eqn:F; cbn [bindR] in Hx; [|discriminate Hx].
      inversion Hx; subst. apply FindFirstCTEScanNode_contents in F.
      destruct n as [c2 ch2]. simpl in F. subst c2.
      exists contents, ch2. split; [reflexivity|exact Hl].
    - destruct Ht as [contents [children [Ho Hl]]].
      exists contents, children. split; [exact Ho|exact Hl]. }
  destruct HP as [contents [children [Hc Hl]]]. simpl in Hc. subst child.
  apply root_of_node. exact Hl.
Qed.

Lemma Select_Union_root rec op t op' t' :
  Select_Union rec op t = Ok (op', t') ->
  root_is_not_limit t -> root_is_not_limit t'.
Proof.
  unfold Select_Union. intros H Ht. destruct (GetUnionSelect op) as [u|].
  - unfold move_output_expr in H. cbv beta iota in H.
    destruct (visit_select rec u (set_output_expr t None)) as [[u1 t1]|];
      simpl in H; [|discriminate H].
    inversion H; subst. apply root_of_node. reflexivity.
  - inversion H; subst. exact Ht.
Qed.

Lemma no_limit_unchanged op withs table condition group_by :
  no_limit op ->
  no_limit
    (SetSelectGroupBy
       (SetSelectCondition (SetSelectTable (SetSelectWith op withs) table) condition)
       group_by).
Proof. destruct op. intros H. exact H. Qed.

Lemma visit_select_root D fuel op t op' t' :
  no_limit op ->
  visit_select (Visit D fuel) op t = Ok (op', t') -> root_is_not_limit t'.
Proof.
  intros Hn H. destruct fuel as [|fuel]; [discriminate H|].
  simpl in H. unfold Visit_SelectStatement in H.
  destruct (Select_With _ D op _) as [[withs t1]|]; simpl in H; [|discriminate H].
  destruct (Select_From _ _ t1) as [[table t2]|] eqn:Ef; simpl in H;
    [|discriminate H].
  destruct (Select_Where _ D _ t2) as [[condition t3]|] eqn:Ew; simpl in H;
    [|discriminate H].
  destruct (Select_Aggregation _ D _ t3) as [[group_by t4]|] eqn:Ea; simpl in H;
    [|discriminate H].
  rewrite Select_Limit_no_limit in H by (apply no_limit_unchanged; exact Hn).
  destruct (Select_AttachCtes _ _ t4) as [[withs' t5]|] eqn:Ec; simpl in H;
    [|discriminate H].
  destruct (Select_Union _ _ t5) as [[op6 t6]|] eqn:Eu; simpl in H;
    [|discriminate H].
  inversion H; subst. apply root_set_predicates.
  eapply Select_Union_root; [exact Eu|].
  eapply Select_AttachCtes_root; [exact Ec|].
  eapply Select_Aggregation_root; [exact Ea|].
  eapply Select_Where_root; [exact Ew|].
  eapply Select_From_root. exact Ef.
Qed.

Lemma Select_Limit_node op t l :
  GetSelectLimit op = Some l -> GetLimit l <> -1 ->
  Select_Limit op t =
  set_output_expr t
    (Some (MkOperatorNode
             (LogicalLimit (Z.max (GetOffset l) 0) (GetLimit l)
                (sort_keys op) (sort_directions op))
             [output_expr_ t])).
Proof.
  intros H Hl. unfold Select_Limit, sort_keys, sort_directions. rewrite H.
  replace (GetLimit l =? -1) with false by (symmetry; apply Z.eqb_neq; exact Hl).
  simpl. destruct (GetSelectOrderBy op); reflexivity.
Qed.

Lemma order_by_is_only_read_by_limit rec D op order_by t :
  no_limit op ->
  Visit_SelectStatement rec D (SetSelectOrderBy op order_by) t =
  ('(op', t') <- Visit_SelectStatement rec D op t ;;
   Ok (SetSelectOrderBy op' order_by,
       match GetUnionSelect op with
       | None => t'
       | Some _ => union_statement_order_by order_by t'
       end)).
Proof.
  intros Hn. destruct op as [c d f w g o l u dp wt].
  assert (Hl : forall o' c' d' f' w' g' wt' s,
             Select_Limit (Select c' d' f' w' g' o' l u dp wt') s = s).
  { intros. apply Select_Limit_no_limit. exact Hn. }
  unfold Visit_SelectStatement.
  change (Select_With rec D (SetSelectOrderBy (Select c d f w g o l u dp wt) order_by))
    with (Select_With rec D (Select c d f w g o l u dp wt)).
  destruct (Select_With rec D _ _) as [[withs t1]|]; [|reflexivity].
  cbn [bindR SetSelectWith SetSelectOrderBy].
  change (Select_From rec (Select c d f w g order_by l u dp withs))
    with (Select_From rec (Select c d f w g o l u dp withs)).
  destruct (Select_From rec _ t1) as [[table t2]|]; [|reflexivity].
  cbn [bindR SetSelectTable].
  change (Select_Where rec D (Select c d table w g order_by l u dp withs))
    with (Select_Where rec D (Select c d table w g o l u dp withs)).
  destruct (Select_Where rec D _ t2) as [[condition t3]|]; [|reflexivity].
  cbn [bindR SetSelectCondition].
  change (Select_Aggregation rec D (Select c d table condition g order_by l u dp withs))
    with (Select_Aggregation rec D (Select c d table condition g o l u dp withs)).
  destruct (Select_Aggregation rec D _ t3) as [[group_by t4]|]; [|reflexivity].
  cbn [bindR SetSelectGroupBy GetSelectWith]. rewrite !Hl.
  destruct (Select_AttachCtes rec withs t4) as [[withs' t5]|]; [|reflexivity].
  cbn [bindR SetSelectWith]. unfold Select_Union. cbn [GetUnionSelect].
  destruct u as [u|]; [|reflexivity].
  unfold move_output_expr. cbv beta iota zeta.
  destruct (visit_select rec u (set_output_expr t5 None)) as [[u1 t6]|];
    [|reflexivity].
  reflexivity.
Qed.

(** C10, as amended.  For a SELECT whose LIMIT clause is absent or whose
    limit is -1, the block that handles ORDER BY, LIMIT and OFFSET leaves
    the transformer as it is: no Limit node is put over the plan of that
    SELECT, and the root of the tree that the visit of the SELECT returns
    is not a Limit node, even when the SELECT has an ORDER BY; with fuel for
    the nesting depth of the SELECT the visit does end, in a value or in an
    exception of the code.  The ORDER BY is read by nothing else: the
    visit of the SELECT with any other ORDER BY (or none) gives the same
    transformer when the SELECT has no UNION, and when it has one, the same
    transformer but for the SELECT statement that the Union node at the
    root holds (the node holds the statement itself, and with it its
    ORDER BY).  So the sort keys and directions are recorded only in the
    Limit node of that block and, under a UNION, in the statement inside
    the Union node.
    (A Limit node deeper in the tree comes from a nested SELECT that has a
    LIMIT of its own.)  When the block does produce a Limit node, the node
    carries the limit, the sort keys and directions and the offset, a
    negative offset being replaced by 0, over the plan built so far. *)
Theorem Select_Limit_block
  (D : Collaborators) (rec : Visitors) (fuel : nat) (op : SelectStatement)
  (t : QueryToOperatorTransformer) :
  (no_limit op -> Select_Limit op t = t) /\
  (no_limit op ->
   forall op' t',
     visit_select (Visit D fuel) op t = Ok (op', t') -> root_is_not_limit t') /\
  ((height_select op <= fuel)%nat ->
   visit_select (Visit D fuel) op t <> Err OutOfFuel) /\
  (no_limit op ->
   forall order_by,
     Visit_SelectStatement rec D (SetSelectOrderBy op order_by) t =
     ('(op', t') <- Visit_SelectStatement rec D op t ;;
      Ok (SetSelectOrderBy op' order_by,
          match GetUnionSelect op with
          | None => t'
          | Some _ => union_statement_order_by order_by t'
          end))) /\
  (forall l,
     GetSelectLimit op = Some l -> GetLimit l <> -1 ->
     Select_Limit op t =
       set_output_expr t
         (Some (MkOperatorNode
                  (LogicalLimit (Z.max (GetOffset l) 0) (GetLimit l)
                     (sort_keys op) (sort_directions op))
                  [output_expr_ t])) /\
     0 <= Z.max (GetOffset l) 0 /\
     (GetOffset l < 0 -> Z.max (GetOffset l) 0 = 0)).
Proof.
  split; [apply Select_Limit_no_limit|].
  split; [intros Hn op' t' H; eapply visit_select_root; eassumption|].
  split; [apply fuel_facts.Visit_select_runs|].
  split; [intros Hn order_by; apply order_by_is_only_read_by_limit; assumption|].
  intros l Hl Hne. split; [apply Select_Limit_node; assumption|]. lia.
Qed.

(** [SELECT a FROM t ORDER BY a DESC LIMIT 10 OFFSET -3]: the Limit node has
    offset 0, limit 10 and the sort key [a], descending. *)
Lemma Select_Limit_block_witness :
  Select_Limit select_negative_offset sample_transformer =
    set_output_expr sample_transformer
      (Some (MkOperatorNode
               (LogicalLimit 0 10 [column "a" 0] [DESC])
               [output_expr_ sample_transformer])).
Proof.
  apply (proj1 (proj2 (proj2 (proj2 (proj2
           (Select_Limit_block sample_collaborators (Visit sample_collaborators 0)
              0 select_negative_offset sample_transformer))))
           {| parser.limit_ := 10; offset_ := -3 |} eq_refl
           ltac:(discriminate))).
Defined.

(** [SELECT a FROM (SELECT a FROM t LIMIT 5) AS x ORDER BY a] has no LIMIT
    of its own, and its tree contains the Limit node of the derived
    table. *)
Lemma limit_of_a_derived_table_is_in_the_tree :
  no_limit select_from_limited /\
  exists tree,
    ConvertToOpExpression sample_collaborators 4 select_from_limited
      sample_transformer = Ok (Some tree) /\
    contains_limit tree = true.
Proof.
  split; [left; reflexivity|]. eexists. split; reflexivity.
Qed.

End transformer_facts.

(* ===================================================================== *)
(** ** The logical tree that the transformer builds *)
(* ===================================================================== *)

Module plan_facts.
Import optimizer optimizer_spec optimizer_props.

(** *** [FindFirstCTEScanNode] *)

(** X6.  When [FindFirstCTEScanNode] returns, it reports whether the tree
    contains a scan of the CTE; when it does not, the tree is returned as
    it was and [output_expr_] is kept; when it does, [output_expr_] has
    been moved into the tree (it is left null): the tree that comes back
    is the tree with the former [output_expr_] as the new last child of
    its first scan of the CTE, depth first and leftmost, and nothing else
    changed; the root operator is the same in both cases. *)
Theorem FindFirstCTEScanNode_found :
  forall (child_expr : OperatorNode) (cte_table_name : string)
         (output_expr : option OperatorNode) (is_added : bool)
         (child_expr' : OperatorNode) (left_over : option OperatorNode),
    FindFirstCTEScanNode child_expr cte_table_name output_expr
    = Ok (is_added, child_expr', left_over) ->
    is_added = contains_cte_scan cte_table_name child_expr /\
    (is_added = false -> child_expr' = child_expr /\ left_over = output_expr) /\
    (is_added = true ->
     left_over = None /\
     attached cte_table_name output_expr child_expr child_expr') /\
    Contents child_expr' = Contents child_expr.
Proof.
  fix IH 1. intros [contents children] name out b child' lo H. simpl in H. simpl.
  destruct (is_cte_scan_of contents name) eqn:Es.
  - injection H as <- <- <-. split; [reflexivity|].
    split; [discriminate|]. split; [|reflexivity].
    intros _. split; [reflexivity|]. apply attached_here. exact Es.
  - cbn [orb].
    match type of H with
    | bindR ?c _ = _ => destruct c as [[[b1 cs1] lo1]|] eqn:E; [|discriminate H]
    end.
    cbn [bindR] in H. injection H as <- <- <-.
    enough (K : b1 = (fix any (cs : list (option OperatorNode)) : bool :=
                        match cs with
                        | [] => false
                        | None :: cs' => any cs'
                        | Some c :: cs' => contains_cte_scan name c || any cs'
                        end) children /\
                (b1 = false -> cs1 = children /\ lo1 = out) /\
                (b1 = true ->
                 lo1 = None /\
                 exists before child child' after,
                   children = (before ++ Some child :: after)%list /\
                   cs1 = (before ++ Some child' :: after)%list /\
                   (forall c, In c before ->
                      exists n, c = Some n /\ contains_cte_scan name n = false) /\
                   attached name out child child')).
    { destruct K as [K1 [K2 K3]]. split; [exact K1|].
      split; [|split; [|reflexivity]].
      - intros Hb. destruct (K2 Hb) as [-> ->]. split; reflexivity.
      - intros Hb.
        destruct (K3 Hb) as [Hlo [before [c [c' [after [-> [-> [Hb4 Ha]]]]]]]].
        split; [exact Hlo|]. apply attached_below; assumption. }
    clear Es. clear contents. revert b1 cs1 lo1 E.
    induction children as [|[c|] cs IHcs]; intros b1 cs1 lo1 E.
    + injection E as <- <- <-. split; [reflexivity|].
      split; [intros _; split; reflexivity|discriminate].
    + destruct (FindFirstCTEScanNode c name out) as [[[b2 c2] lo2]|] eqn:Ec;
        [|discriminate E].
      cbn [bindR] in E. destruct (IH _ _ _ _ _ _ Ec) as [A1 [A2 [A3 _]]].
      destruct b2.
      * injection E as <- <- <-. rewrite <- A1. split; [reflexivity|].
        split; [discriminate|]. intros _.
        destruct (A3 eq_refl) as [Hlo Ha]. split; [exact Hlo|].
        exists [], c, c2, cs. split; [reflexivity|]. split; [reflexivity|].
        split; [intros ? []|exact Ha].
      * match type of E with
        | bindR ?c _ = _ => destruct c as [[[b3 cs3] lo3]|] eqn:E3; [|discriminate E]
        end.
        cbn [bindR] in E. injection E as <- <- <-.
        destruct (IHcs _ _ _ eq_refl) as [B1 [B2 B3]]. rewrite <- A1. cbn [orb].
        destruct (A2 eq_refl) as [-> _].
        split; [exact B1|]. split.
        -- intros Hb. destruct (B2 Hb) as [-> ->]. split; reflexivity.
        -- intros Hb.
           destruct (B3 Hb) as [Hlo [before [x [x' [after [-> [-> [Hb4 Ha]]]]]]]].
           split; [exact Hlo|].
           exists (Some c :: before), x, x', after.
           split; [reflexivity|]. split; [reflexivity|]. split; [|exact Ha].
           intros y [<-|Hy]; [|apply Hb4; exact Hy].
           exists c. split; [reflexivity|]. symmetry. exact A1.
    + discriminate E.
Qed.

(** Under a Filter, the scan of the CTE [c] receives the tree of its
    query. *)
Lemma FindFirstCTEScanNode_found_witness :
  match
    FindFirstCTEScanNode
      (MkOperatorNode (LogicalFilter [])
         [Some (MkOperatorNode
                  (LogicalCteScan "c" "c" 7%N {| GetColumns := [] |} [] SIMPLE []) [])])
      "c" (Some (MkOperatorNode LogicalGet_Make []))
  with
  | Ok (_, tree', left_over) =>
      left_over = None /\
      attached "c" (Some (MkOperatorNode LogicalGet_Make []))
        (MkOperatorNode (LogicalFilter [])
           [Some (MkOperatorNode
                    (LogicalCteScan "c" "c" 7%N {| GetColumns := [] |} [] SIMPLE [])
                    [])])
        tree'
  | Err _ => False
  end.
Proof.
  destruct (FindFirstCTEScanNode _ _ _) as [[[b tree'] left_over]|e] eqn:E.
  - pose proof E as E'. vm_compute in E'. injection E' as Hb _ _. subst b.
    exact (proj1 (proj2 (proj2 (FindFirstCTEScanNode_found _ _ _ _ _ _ E)))
             eq_refl).
  - vm_compute in E. discriminate E.
Defined.

(** *** What a visit keeps of the transformer *)

Lemma post_bind {A R} (Q1 : A -> Prop) (Q : R -> Prop) (c : result A)
  (k : A -> result R) :
  post Q1 c -> (forall a, Q1 a -> post Q (k a)) -> post Q (bindR c k).
Proof.
  intros Hc Hk. destruct c as [a|e]; simpl; [apply Hk; exact Hc|exact I].
Qed.

Lemma post_any {A R} (Q : R -> Prop) (c : result A) (k : A -> result R) :
  (forall a, post Q (k a)) -> post Q (bindR c k).
Proof. intros Hk. destruct c as [a|e]; simpl; [apply Hk|exact I]. Qed.

Lemma post_ok {R} (Q : R -> Prop) (r : result R) x : post Q r -> r = Ok x -> Q x.
Proof. intros H ->. exact H. Qed.

Lemma registry_extends_refl t : registry_extends t t.
Proof.
  exists [], [], [], [], []. rewrite !app_nil_r. repeat split; reflexivity.
Qed.

Lemma registry_extends_trans t1 t2 t3 :
  registry_extends t1 t2 -> registry_extends t2 t3 -> registry_extends t1 t3.
Proof.
  intros [n1 [ty1 [o1 [s1 [e1 [A1 [A2 [A3 [A4 [A5 [L1 [L2 [L3 L4]]]]]]]]]]]]]
         [n2 [ty2 [o2 [s2 [e2 [B1 [B2 [B3 [B4 [B5 [M1 [M2 [M3 M4]]]]]]]]]]]]].
  exists (n1 ++ n2)%list, (ty1 ++ ty2)%list, (o1 ++ o2)%list, (s1 ++ s2)%list,
         (e1 ++ e2)%list.
  rewrite B1, B2, B3, B4, B5, A1, A2, A3, A4, A5, <- !app_assoc, !length_app.
  repeat split; try reflexivity; lia.
Qed.

Lemma framed_refl t : framed t t.
Proof. split; [reflexivity|apply registry_extends_refl]. Qed.

Lemma framed_trans t1 t2 t3 : framed t1 t2 -> framed t2 t3 -> framed t1 t3.
Proof.
  intros [A1 A2] [B1 B2]. split; [congruence|].
  eapply registry_extends_trans; eassumption.
Qed.

Lemma kept_refl t : kept t t.
Proof. split; [reflexivity|apply framed_refl]. Qed.

Lemma kept_trans t1 t2 t3 : kept t1 t2 -> kept t2 t3 -> kept t1 t3.
Proof.
  intros [A1 A2] [B1 B2]. split; [congruence|]. eapply framed_trans; eassumption.
Qed.

Lemma kept_framed t t' : kept t t' -> framed t t'.
Proof. intros [_ H]. exact H. Qed.

Lemma framed_set_output_expr t t' o : framed t t' -> framed t (set_output_expr t' o).
Proof. intros H. exact H. Qed.

Lemma framed_set_predicates t t' p : framed t t' -> framed t (set_predicates t' p).
Proof. intros H. exact H. Qed.

Lemma kept_set_output_expr t t' o : kept t t' -> kept t (set_output_expr t' o).
Proof. intros H. exact H. Qed.

Lemma framed_from_set_output_expr t t' o :
  framed (set_output_expr t o) t' -> framed t t'.
Proof. intros H. exact H. Qed.

Lemma framed_from_set_predicates t t' p :
  framed (set_predicates t p) t' -> framed t t'.
Proof. intros H. exact H. Qed.

Lemma kept_from_set_output_expr t t' o :
  kept (set_output_expr t o) t' -> kept t t'.
Proof. intros H. exact H. Qed.

Ltac chain :=
  first
    [ match goal with
      | |- kept ?t _ => exact (kept_refl t)
      | |- framed ?t _ => exact (framed_refl t)
      end
    | match goal with
      | H : kept _ _ |- kept _ _ => exact H
      | H : kept _ _ |- framed _ _ => exact (kept_framed _ _ H)
      | H : framed _ _ |- framed _ _ => exact H
      | H : kept ?x _ |- kept _ _ => refine (kept_trans _ x _ _ H); chain
      | H : kept ?x _ |- framed _ _ =>
          refine (framed_trans _ x _ _ (kept_framed _ _ H)); chain
      | H : framed ?x _ |- framed _ _ => refine (framed_trans _ x _ _ H); chain
      end ].

(** One call that changes the transformer, then the rest. *)
Ltac visit_step L :=
  refine (post_bind _ _ _ _ L _);
  let x := fresh "x" in
  let t := fresh "t" in
  let H := fresh "K" in
  intros [x t] H; cbn [snd fst] in H; cbv beta iota.

Ltac visit_step3 L :=
  refine (post_bind _ _ _ _ L _);
  let x := fresh "x" in
  let y := fresh "y" in
  let t := fresh "t" in
  let H := fresh "K" in
  intros [[x y] t] H; cbn [snd fst] in H; cbv beta iota.

Ltac pure_step := apply post_any; intro.

Ltac done_step := cbn [post snd fst]; chain.

Lemma kept_mapS {A B S} (state : S -> QueryToOperatorTransformer)
  (f : A -> S -> result (B * S)) (xs : list A) :
  (forall x s, In x xs -> post (fun r => kept (state s) (state (snd r))) (f x s)) ->
  forall s, post (fun r => kept (state s) (state (snd r))) (mapS f xs s).
Proof.
  induction xs as [|x xs IH]; intros Hf s; simpl; [apply kept_refl|].
  refine (post_bind _ _ _ _ (Hf x s (or_introl eq_refl)) _). intros [y s1] K1.
  refine (post_bind _ _ _ _ (IH (fun z s' Hz => Hf z s' (or_intror Hz)) s1) _).
  intros [ys s2] K2. cbn [post snd] in *. eapply kept_trans; eassumption.
Qed.

Section Keeps.

Variable rec : Visitors.
Variable D : Collaborators.
Hypothesis rec_keeps : keeps rec.

Lemma GenerateSubqueryTree_kept expr child_id single_join t :
  post (fun r => kept t (snd r))
    (GenerateSubqueryTree rec D expr child_id single_join t).
Proof.
  unfold GenerateSubqueryTree. pure_step.
  destruct (negb _); [done_step|]. pure_step. pure_step.
  destruct (negb _); [exact I|]. destruct (negb _); [exact I|].
  unfold move_output_expr. cbv beta iota zeta.
  visit_step (keeps_select _ rec_keeps a0 (set_output_expr t None)).
  pure_step. pure_step. done_step.
Qed.

Lemma AcceptChildren_kept expr t :
  post (fun r => kept t (snd r)) (AcceptChildren rec expr t).
Proof.
  unfold AcceptChildren.
  visit_step (kept_mapS (fun s => s) (visit_expression rec) (GetChildren expr)
                (fun x s _ => keeps_expression _ rec_keeps x s) t).
  done_step.
Qed.

Lemma Visit_Expression_kept expr t :
  post (fun r => kept t (snd r)) (Visit_Expression rec D expr t).
Proof.
  assert (HA : forall e s, kept t s ->
             post (fun r => kept t (snd r)) (AcceptChildren rec e s)).
  { intros e s Hs. pose proof (AcceptChildren_kept e s) as K.
    destruct (AcceptChildren rec e s) as [[e' s']|]; [|exact I].
    cbn [post snd] in *. eapply kept_trans; eassumption. }
  assert (HG : forall e i b s (k : _ -> result (AbstractExpression * _)),
             kept t s ->
             (forall done e' s', kept t s' ->
                post (fun r => kept t (snd r)) (k (done, e', s'))) ->
             post (fun r => kept t (snd r))
               (bindR (GenerateSubqueryTree rec D e i b s) k)).
  { intros e i b s k Hs Hk.
    refine (post_bind _ _ _ _ (GenerateSubqueryTree_kept e i b s) _).
    intros [[done e'] s'] K. apply Hk. cbn [snd] in K.
    eapply kept_trans; eassumption. }
  unfold Visit_Expression, SqlNodeVisitor_Visit.
  destruct (GetClass expr); try (apply HA; apply kept_refl).
  - unfold Visit_ComparisonExpression. cbv zeta.
    destruct (ExpressionType_eqb (GetExpressionType expr) COMPARE_IN).
    { rewrite fuel_facts.bindR_assoc. apply HG; [apply kept_refl|].
      intros done e1 s1 K1. cbn [bindR]. apply HA. exact K1. }
    destruct (is_plain_comparison (GetExpressionType expr)).
    2:{ cbn [bindR]. apply HA. apply kept_refl. }
    rewrite fuel_facts.bindR_assoc. pure_step.
    rewrite fuel_facts.bindR_assoc. pure_step.
    destruct a0; [exact I|].
    rewrite fuel_facts.bindR_assoc. apply HG; [apply kept_refl|].
    intros [|] e1 s1 K1.
    { cbn [bindR]. apply HA. exact K1. }
    rewrite fuel_facts.bindR_assoc. apply HG; [exact K1|].
    intros done e2 s2 K2. cbn [bindR]. apply HA. exact K2.
  - unfold Visit_OperatorExpression.
    destruct (ExpressionType_eqb (GetExpressionType expr) OPERATOR_EXISTS).
    2:{ cbn [bindR]. apply HA. apply kept_refl. }
    rewrite fuel_facts.bindR_assoc. apply HG; [apply kept_refl|].
    intros [|] e1 s1 K1; cbn [bindR]; apply HA; exact K1.
Qed.

Lemma CollectPredicates_kept expr t :
  post (fun r => kept t (snd r)) (CollectPredicates rec D expr t).
Proof.
  unfold CollectPredicates. cbv zeta. pure_step. pure_step.
  visit_step (keeps_expression _ rec_keeps a0 t). pure_step. done_step.
Qed.

Lemma Visit_JoinDefinition_kept node t :
  post (fun r => kept t (snd r)) (Visit_JoinDefinition rec D node t).
Proof.
  destruct node as [type l r condition]. unfold Visit_JoinDefinition.
  visit_step (keeps_table_ref _ rec_keeps l t).
  unfold move_output_expr. cbv beta iota zeta.
  visit_step (keeps_table_ref _ rec_keeps r (set_output_expr t0 None)).
  visit_step3 (CollectPredicates_kept condition (set_output_expr t1 None)).
  pure_step. done_step.
Qed.

Lemma implicit_join_loop_kept elems :
  forall prev_expr t,
    post (fun r => kept t (snd r)) (implicit_join_loop rec elems prev_expr t).
Proof.
  induction elems as [|x elems IH]; intros prev_expr t; simpl; [apply kept_refl|].
  visit_step (keeps_table_ref _ rec_keeps x t).
  unfold move_output_expr. cbv beta iota zeta.
  match goal with
  | |- post _ (bindR (implicit_join_loop _ _ ?p ?s) _) => visit_step3 (IH p s)
  end.
  done_step.
Qed.

Lemma Visit_TableRef_kept node t :
  post (fun r => kept t (snd r)) (Visit_TableRef rec node t).
Proof.
  unfold Visit_TableRef. destruct (GetSelect node) as [select|].
  { cbv zeta. pure_step. visit_step (keeps_select _ rec_keeps select t).
    unfold move_output_expr. cbv beta iota zeta. done_step. }
  destruct (GetJoin node) as [join|].
  { visit_step (keeps_join _ rec_keeps join t). done_step. }
  destruct (1 <? List.length (GetList node))%nat.
  { pure_step. visit_step (keeps_table_ref _ rec_keeps a t).
    unfold move_output_expr. cbv beta iota zeta.
    match goal with
    | |- post _ (bindR (implicit_join_loop _ _ ?p ?s) _) =>
        visit_step3 (implicit_join_loop_kept (skipn 1 (GetList node)) p s)
    end.
    done_step. }
  pure_step. pure_step. destruct (find_index _ _).
  - repeat pure_step. done_step.
  - done_step.
Qed.

Lemma kept_register t name type oid schema accessor out master_expressions :
  kept t
    (push_cte_expressions
       (set_output_expr (push_cte_name t name type oid schema accessor) out)
       master_expressions).
Proof.
  split; [reflexivity|]. split; [reflexivity|].
  exists [name], [type], [oid], [schema], [master_expressions].
  repeat split; reflexivity.
Qed.

Lemma Select_With_entry_kept with_ t :
  post (fun r => kept t (snd r)) (Select_With_entry rec D with_ t).
Proof.
  unfold Select_With_entry.
  visit_step (keeps_table_ref _ rec_keeps with_ t).
  destruct (GetNewTempOid (accessor_ t0)) as [temp accessor]. cbv zeta.
  pure_step. pure_step. pure_step.
  unfold move_output_expr. cbv beta iota zeta. cbn [post snd].
  eapply kept_trans; [exact K|]. apply kept_register.
Qed.

Lemma Select_With_kept op t :
  post (fun r => kept t (snd r)) (Select_With rec D op t).
Proof.
  unfold Select_With.
  apply (kept_mapS (fun s => s) (Select_With_entry rec D)).
  intros x s _. apply Select_With_entry_kept.
Qed.

Lemma Select_From_kept op t :
  post (fun r => kept t (snd r)) (Select_From rec op t).
Proof.
  unfold Select_From. destruct (GetSelectTable op) as [table|]; [|done_step].
  visit_step (keeps_table_ref _ rec_keeps table t). done_step.
Qed.

Lemma framed_wrap_filter t t' predicates :
  framed t t' -> framed t (wrap_filter predicates t').
Proof. intros H. destruct predicates; exact H. Qed.

Lemma kept_wrap_filter t t' predicates :
  kept t t' -> kept t (wrap_filter predicates t').
Proof. intros H. destruct predicates; exact H. Qed.

Lemma Select_Where_framed op t :
  post (fun r => framed t (snd r) /\ predicates_ (snd r) = []) (Select_Where rec D op t).
Proof.
  unfold Select_Where.
  refine (post_bind (fun r => framed t (snd r)) _ _ _ _ _).
  - destruct (GetSelectCondition op) as [condition|]; [|apply framed_refl].
    visit_step3 (CollectPredicates_kept (Some condition) t). done_step.
  - intros [condition t1] K. cbn [snd] in K. cbn [post snd].
    split; [|reflexivity]. apply framed_set_predicates, framed_wrap_filter. exact K.
Qed.

Lemma Select_Aggregation_kept op t :
  post (fun r => kept t (snd r)) (Select_Aggregation rec D op t).
Proof.
  unfold Select_Aggregation. pure_step. destruct a.
  - destruct (GetSelectGroupBy op) as [group_by|].
    + unfold move_output_expr. cbv beta iota zeta.
      refine (post_bind (fun r => kept t (snd r)) _ _ _ _ _).
      * destruct (GetHaving group_by) as [h|]; [|done_step].
        match goal with
        | |- post _ (CollectPredicates _ _ _ ?s) =>
            pose proof (CollectPredicates_kept (Some h) s) as K
        end.
        destruct (CollectPredicates _ _ _ _) as [[[? ?] ?]|]; [|exact I].
        exact K.
      * intros [[having_expr having] t1] K. cbn [snd] in K. cbn [post snd].
        apply kept_wrap_filter. exact K.
    + unfold move_output_expr. cbv beta iota zeta. done_step.
  - destruct (IsSelectDistinct op).
    + unfold move_output_expr. cbv beta iota zeta. done_step.
    + done_step.
Qed.

Lemma Select_Limit_kept op t : kept t (Select_Limit op t).
Proof.
  unfold Select_Limit, move_output_expr.
  destruct (GetSelectLimit op) as [l|]; [|apply kept_refl].
  destruct (negb _); [|apply kept_refl].
  destruct (GetSelectOrderBy op); cbv beta iota zeta; chain.
Qed.

Lemma Select_AttachCte_entry_kept with_ st :
  post (fun r => kept (snd st) (snd (snd r))) (Select_AttachCte_entry rec with_ st).
Proof.
  unfold Select_AttachCte_entry. destruct st as [child_expr t]. cbn [snd].
  visit_step (keeps_table_ref _ rec_keeps with_ t).
  pure_step. pure_step. destruct a0 as [[? child] left_over]. done_step.
Qed.

Lemma Select_AttachCtes_kept withs t :
  post (fun r => kept t (snd r)) (Select_AttachCtes rec withs t).
Proof.
  unfold Select_AttachCtes. destruct withs as [|w ws]; [apply kept_refl|].
  unfold move_output_expr. cbv beta iota zeta.
  match goal with
  | |- post _ (bindR (mapS _ ?l ?s) _) =>
      refine (post_bind _ _ _ _
                (kept_mapS snd (Select_AttachCte_entry rec) l
                   (fun x s' _ => Select_AttachCte_entry_kept x s') s) _)
  end.
  intros [withs' [child_expr t1]] K. cbn [snd] in K. done_step.
Qed.

Lemma Select_Union_kept op t :
  post (fun r => kept t (snd r)) (Select_Union rec op t).
Proof.
  unfold Select_Union. destruct (GetUnionSelect op) as [union_select|]; [|done_step].
  unfold move_output_expr. cbv beta iota zeta.
  visit_step (keeps_select _ rec_keeps union_select (set_output_expr t None)).
  done_step.
Qed.

Lemma Visit_SelectStatement_kept op t :
  post (fun r => kept t (snd r)) (Visit_SelectStatement rec D op t).
Proof.
  unfold Visit_SelectStatement. cbv zeta.
  visit_step (Select_With_kept op (set_predicates t [])).
  apply kept_framed in K.
  visit_step (Select_From_kept (SetSelectWith op x) t0). apply kept_framed in K0.
  refine (post_bind _ _ _ _ (Select_Where_framed _ t1) _).
  intros [condition t2] [K1 _]. cbn [snd] in K1.
  visit_step (Select_Aggregation_kept
                (SetSelectCondition (SetSelectTable (SetSelectWith op x) x0) condition)
                t2).
  apply kept_framed in K2.
  match goal with
  | |- post _ (bindR (Select_AttachCtes _ ?l (Select_Limit ?o ?s)) _) =>
      pose proof (kept_framed _ _ (Select_Limit_kept o s)) as K3;
      visit_step (Select_AttachCtes_kept l (Select_Limit o s))
  end.
  apply kept_framed in K4.
  match goal with
  | |- post _ (bindR (Select_Union _ ?o ?s) _) => visit_step (Select_Union_kept o s)
  end.
  apply kept_framed in K5. cbn [post snd].
  split; [reflexivity|]. apply framed_set_predicates. chain.
Qed.

End Keeps.

(** The visitor keeps them with any fuel. *)
Lemma Visit_keeps D : forall fuel, keeps (Visit D fuel).
Proof.
  induction fuel as [|fuel IH].
  - split; intros; exact I.
  - split; intros; cbn [Visit visit_select visit_table_ref visit_join visit_expression].
    + apply Visit_SelectStatement_kept. exact IH.
    + apply Visit_TableRef_kept. exact IH.
    + apply Visit_JoinDefinition_kept. exact IH.
    + apply Visit_Expression_kept. exact IH.
Qed.

Lemma registry_extends_aligned t t' :
  registry_extends t t' -> cte_aligned t -> cte_aligned t'.
Proof.
  intros [n [ty [o [sc [e [A1 [A2 [A3 [A4 [A5 [L1 [L2 [L3 L4]]]]]]]]]]]]] [B1 [B2 [B3 B4]]].
  unfold cte_aligned. rewrite A1, A2, A3, A4, A5, !length_app.
  repeat split; lia.
Qed.

(** X7.  The visit of a SELECT statement, a table reference, a join or an
    expression returns the transformer with [predicates_] as it found them
    (a SELECT collects the conjuncts of its WHERE clause there, moves them
    into its Filter node and puts the previous ones back), and with the
    same database oid. *)
Theorem Visit_restores_predicates (D : Collaborators) (fuel : nat)
  (t : QueryToOperatorTransformer) :
  (forall op op' t',
     visit_select (Visit D fuel) op t = Ok (op', t') ->
     predicates_ t' = predicates_ t /\ db_oid_ t' = db_oid_ t) /\
  (forall node node' t',
     visit_table_ref (Visit D fuel) node t = Ok (node', t') ->
     predicates_ t' = predicates_ t /\ db_oid_ t' = db_oid_ t) /\
  (forall node node' t',
     visit_join (Visit D fuel) node t = Ok (node', t') ->
     predicates_ t' = predicates_ t /\ db_oid_ t' = db_oid_ t) /\
  (forall expr expr' t',
     visit_expression (Visit D fuel) expr t = Ok (expr', t') ->
     predicates_ t' = predicates_ t /\ db_oid_ t' = db_oid_ t).
Proof.
  pose proof (Visit_keeps D fuel) as [Hs Ht Hj He].
  split; [|split; [|split]].
  - intros op op' t' H. destruct (post_ok _ _ _ (Hs op t) H) as [K1 [K2 _]].
    split; assumption.
  - intros node node' t' H. destruct (post_ok _ _ _ (Ht node t) H) as [K1 [K2 _]].
    split; assumption.
  - intros node node' t' H. destruct (post_ok _ _ _ (Hj node t) H) as [K1 [K2 _]].
    split; assumption.
  - intros expr expr' t' H. destruct (post_ok _ _ _ (He expr t) H) as [K1 [K2 _]].
    split; assumption.
Qed.

(** The visit of [WITH c(a) AS (...) SELECT a FROM c WHERE t.a = s.b]
    returns with no predicate left in [predicates_]. *)
Lemma Visit_restores_predicates_witness :
  match visit_select (Visit sample_collaborators 4) select_with_cte
          sample_transformer with
  | Ok (_, t') => predicates_ t' = [] /\ db_oid_ t' = 1%N
  | Err _ => False
  end.
Proof.
  destruct (visit_select (Visit sample_collaborators 4) select_with_cte
              sample_transformer) as [[op' t']|e] eqn:E.
  - exact (proj1 (Visit_restores_predicates sample_collaborators 4
                    sample_transformer) select_with_cte op' t' E).
  - vm_compute in E. discriminate E.
Defined.

(** X8.  A visit only appends to the registry of the CTEs, and the same
    number of entries to each of its five vectors (names, types, oids,
    schemas, expressions): an entry keeps its index, and vectors of the
    same length are returned with the same length. *)
Theorem Visit_extends_registry (D : Collaborators) (fuel : nat)
  (t : QueryToOperatorTransformer) :
  (forall op op' t',
     visit_select (Visit D fuel) op t = Ok (op', t') ->
     registry_extends t t' /\ (cte_aligned t -> cte_aligned t')) /\
  (forall node node' t',
     visit_table_ref (Visit D fuel) node t = Ok (node', t') ->
     registry_extends t t' /\ (cte_aligned t -> cte_aligned t')) /\
  (forall node node' t',
     visit_join (Visit D fuel) node t = Ok (node', t') ->
     registry_extends t t' /\ (cte_aligned t -> cte_aligned t')) /\
  (forall expr expr' t',
     visit_expression (Visit D fuel) expr t = Ok (expr', t') ->
     registry_extends t t' /\ (cte_aligned t -> cte_aligned t')).
Proof.
  pose proof (Visit_keeps D fuel) as [Hs Ht Hj He].
  split; [|split; [|split]].
  - intros op op' t' H. destruct (post_ok _ _ _ (Hs op t) H) as [_ [_ K]].
    split; [exact K|apply registry_extends_aligned; exact K].
  - intros node node' t' H. destruct (post_ok _ _ _ (Ht node t) H) as [_ [_ K]].
    split; [exact K|apply registry_extends_aligned; exact K].
  - intros node node' t' H. destruct (post_ok _ _ _ (Hj node t) H) as [_ [_ K]].
    split; [exact K|apply registry_extends_aligned; exact K].
  - intros expr expr' t' H. destruct (post_ok _ _ _ (He expr t) H) as [_ [_ K]].
    split; [exact K|apply registry_extends_aligned; exact K].
Qed.

(** The visit of [WITH c(a) AS (...) SELECT a FROM c ...] starts with an
    empty registry and returns with an aligned one. *)
Lemma Visit_extends_registry_witness :
  match visit_select (Visit sample_collaborators 4) select_with_cte
          sample_transformer with
  | Ok (_, t') => cte_aligned t'
  | Err _ => False
  end.
Proof.
  destruct (visit_select (Visit sample_collaborators 4) select_with_cte
              sample_transformer) as [[op' t']|e] eqn:E.
  - apply (proj1 (Visit_extends_registry sample_collaborators 4 sample_transformer)
             select_with_cte op' t' E).
    repeat split.
  - vm_compute in E. discriminate E.
Defined.

(** *** Joins *)

(** X9.  When the visit of a join returns, it has visited the left table,
    the right table and the condition in this order; the tree is the join
    operator of the join type, carrying the annotated conjuncts of the
    condition, over the tree of the left table and the tree of the right
    table.  It never returns for an invalid join type, nor for a join
    without a condition (the null condition is dereferenced). *)
Theorem Visit_JoinDefinition_tree (rec : Visitors) (D : Collaborators)
  (type : JoinType) (left_table right_table : TableRef)
  (condition : option AbstractExpression) (t : QueryToOperatorTransformer) :
  (forall node' t',
     Visit_JoinDefinition rec D (MkJoin type left_table right_table condition) t
     = Ok (node', t') ->
     exists l' t1 r' t2 condition' join_predicates t3 join_op,
       visit_table_ref rec left_table t = Ok (l', t1) /\
       visit_table_ref rec right_table (set_output_expr t1 None) = Ok (r', t2) /\
       CollectPredicates rec D condition (set_output_expr t2 None)
       = Ok (condition', join_predicates, t3) /\
       join_operator type join_predicates = Some join_op /\
       node' = MkJoin type l' r' condition' /\
       t' = set_output_expr t3
              (Some (MkOperatorNode join_op [output_expr_ t1; output_expr_ t2]))) /\
  (type = JT_INVALID \/ condition = None ->
   forall node' t',
     Visit_JoinDefinition rec D (MkJoin type left_table right_table condition) t
     <> Ok (node', t')).
Proof.
  unfold Visit_JoinDefinition, move_output_expr. split.
  - intros node' t' H.
    destruct (visit_table_ref rec left_table t) as [[l' t1]|] eqn:E1;
      [|discriminate H].
    cbn [bindR] in H. cbv beta iota zeta in H.
    destruct (visit_table_ref rec right_table (set_output_expr t1 None))
      as [[r' t2]|] eqn:E2; [|discriminate H].
    cbn [bindR] in H. cbv beta iota zeta in H.
    destruct (CollectPredicates rec D condition (set_output_expr t2 None))
      as [[[condition' join_predicates] t3]|] eqn:E3; [|discriminate H].
    cbn [bindR] in H. cbv beta iota zeta in H.
    exists l', t1, r', t2, condition', join_predicates, t3.
    destruct type; cbn [bindR] in H; try discriminate H; injection H as <- <-;
      eexists; (split; [reflexivity|]); (split; [exact E2|]); (split; [exact E3|]);
      repeat split; reflexivity.
  - intros Hbad node' t' H.
    destruct (visit_table_ref rec left_table t) as [[l' t1]|]; [|discriminate H].
    cbn [bindR] in H. cbv beta iota zeta in H.
    destruct (visit_table_ref rec right_table (set_output_expr t1 None))
      as [[r' t2]|]; [|discriminate H].
    cbn [bindR] in H. cbv beta iota zeta in H.
    destruct Hbad as [-> | ->].
    + destruct (CollectPredicates rec D condition (set_output_expr t2 None))
        as [[[condition' join_predicates] t3]|]; discriminate H.
    + discriminate H.
Qed.

(** [FROM t INNER JOIN s ON t.a = s.b]. *)
Lemma Visit_JoinDefinition_tree_witness :
  match Visit_JoinDefinition (Visit sample_collaborators 3) sample_collaborators
          (MkJoin INNER (table "t") (table "s") (Some t_a_equals_s_b))
          sample_transformer with
  | Ok (_, t') =>
      exists join_predicates,
        root_operator t' = Some (LogicalInnerJoin join_predicates)
  | Err _ => False
  end.
Proof.
  destruct (Visit_JoinDefinition (Visit sample_collaborators 3) sample_collaborators
              (MkJoin INNER (table "t") (table "s") (Some t_a_equals_s_b))
              sample_transformer) as [[node' t']|e] eqn:E.
  - destruct (proj1 (Visit_JoinDefinition_tree (Visit sample_collaborators 3)
                       sample_collaborators INNER (table "t") (table "s")
                       (Some t_a_equals_s_b) sample_transformer) node' t' E)
      as [l' [t1 [r' [t2 [condition' [join_predicates [t3 [join_op H]]]]]]]].
    destruct H as [_ [_ [_ [Hop [_ Ht']]]]].
    exists join_predicates. rewrite Ht'. injection Hop as <-. reflexivity.
  - vm_compute in E. discriminate E.
Defined.

(** *** The root of the tree of a SELECT *)

Lemma Select_AttachCtes_contents rec withs t withs' t' :
  Select_AttachCtes rec withs t = Ok (withs', t') ->
  root_operator t' = root_operator t.
Proof.
  unfold Select_AttachCtes. intros H.
  destruct withs as [|w withs]; [injection H as <- <-; reflexivity|].
  unfold move_output_expr in H. cbv beta iota zeta in H.
  match type of H with
  | bindR ?c _ = _ =>
      destruct c as [[ws [child t1]]|] eqn:E; cbn [bindR] in H; [|discriminate H]
  end.
  injection H as <- <-.
  pose (P := fun st : option OperatorNode * QueryToOperatorTransformer =>
               option_map Contents (fst st) = root_operator t).
  change (P (child, t1)).
  eapply (transformer_facts.mapS_preserves P); [|exact E|reflexivity].
  intros x [c0 s0] y [c1 s1] Hx Hc. unfold P in *. cbn [fst] in *.
  unfold Select_AttachCte_entry in Hx.
  destruct (visit_table_ref rec x s0) as [[w1 s2]|]; cbn [bindR] in Hx;
    [|discriminate Hx].
  destruct c0 as [n0|]; cbn [deref bindR] in Hx; [|discriminate Hx].
  destruct (FindFirstCTEScanNode n0 (name_ (GetTableAlias w1)) (output_expr_ s2))
    as [[[b n] lo]|] eqn:F; cbn [bindR] in Hx; [|discriminate Hx].
  injection Hx as <- <- <-.
  apply transformer_facts.FindFirstCTEScanNode_contents in F.
  cbn [option_map] in *. rewrite F. exact Hc.
Qed.

Lemma Select_Union_tree rec op t op' t' :
  Select_Union rec op t = Ok (op', t') ->
  (GetUnionSelect op = None -> t' = t) /\
  (GetUnionSelect op <> None ->
   exists l r right,
     output_expr_ t' =
     Some (MkOperatorNode (LogicalUnion true l r) [output_expr_ t; right])).
Proof.
  unfold Select_Union. intros H. destruct (GetUnionSelect op) as [u|].
  - split; [discriminate|]. intros _.
    unfold move_output_expr in H. cbv beta iota zeta in H.
    destruct (visit_select rec u (set_output_expr t None)) as [[u1 t1]|];
      cbn [bindR] in H; [|discriminate H].
    injection H as <- <-. eexists _, _, _. reflexivity.
  - injection H as <- <-. split; [reflexivity|]. intros K. contradiction.
Qed.

(** A visit of a SELECT sets [predicates_] aside and puts it back. *)
Lemma visit_select_predicates D fuel u s p :
  visit_select (Visit D fuel) u (set_predicates s p) =
  ('(u', s') <- visit_select (Visit D fuel) u s ;; Ok (u', set_predicates s' p)).
Proof.
  destruct fuel as [|fuel]; [reflexivity|].
  cbn [Visit visit_select]. unfold Visit_SelectStatement. cbv zeta.
  change (set_predicates (set_predicates s p) []) with (set_predicates s []).
  destruct (Select_With _ D u _) as [[withs t1]|]; [|reflexivity].
  cbn [bindR].
  destruct (Select_From _ _ t1) as [[table t2]|]; [|reflexivity].
  cbn [bindR].
  destruct (Select_Where _ D _ t2) as [[condition t3]|]; [|reflexivity].
  cbn [bindR].
  destruct (Select_Aggregation _ D _ t3) as [[group_by t4]|]; [|reflexivity].
  cbn [bindR].
  destruct (Select_AttachCtes _ _ _) as [[withs' t5]|]; [|reflexivity].
  cbn [bindR].
  destruct (Select_Union _ _ t5) as [[op6 t6]|]; reflexivity.
Qed.

(** The visit of a SELECT with a UNION is the visit of the same SELECT
    without its UNION, then the visit of the other SELECT, then the Union
    node over the two trees. *)
Lemma Visit_SelectStatement_union D fuel op u t :
  GetUnionSelect op = Some u ->
  Visit_SelectStatement (Visit D fuel) D op t =
  ('(op1, t1) <- Visit_SelectStatement (Visit D fuel) D (SetUnionSelect op None) t ;;
   '(u', t2) <- visit_select (Visit D fuel) u (set_output_expr t1 None) ;;
   Ok (SetUnionSelect op1 (Some u'),
       set_output_expr t2
         (Some (MkOperatorNode
                  (LogicalUnion true (SetUnionSelect op1 (Some u')) u')
                  [output_expr_ t1; output_expr_ t2])))).
Proof.
  intros Hu. destruct op as [c d f w g o l u0 dp wt]. simpl in Hu. subst u0.
  set (rec := Visit D fuel).
  unfold Visit_SelectStatement. cbv zeta.
  change (Select_With rec D (SetUnionSelect (Select c d f w g o l (Some u) dp wt) None))
    with (Select_With rec D (Select c d f w g o l (Some u) dp wt)).
  destruct (Select_With rec D _ _) as [[withs t1]|]; [|reflexivity].
  cbn [bindR SetSelectWith SetUnionSelect].
  change (Select_From rec (Select c d f w g o l None dp withs))
    with (Select_From rec (Select c d f w g o l (Some u) dp withs)).
  destruct (Select_From rec _ t1) as [[table t2]|]; [|reflexivity].
  cbn [bindR SetSelectTable].
  change (Select_Where rec D (Select c d table w g o l None dp withs))
    with (Select_Where rec D (Select c d table w g o l (Some u) dp withs)).
  destruct (Select_Where rec D _ t2) as [[condition t3]|]; [|reflexivity].
  cbn [bindR SetSelectCondition].
  change (Select_Aggregation rec D (Select c d table condition g o l None dp withs))
    with (Select_Aggregation rec D (Select c d table condition g o l (Some u) dp withs)).
  destruct (Select_Aggregation rec D _ t3) as [[group_by t4]|]; [|reflexivity].
  cbn [bindR SetSelectGroupBy GetSelectWith].
  change (Select_Limit (Select c d table condition group_by o l None dp withs) t4)
    with (Select_Limit (Select c d table condition group_by o l (Some u) dp withs) t4).
  destruct (Select_AttachCtes rec withs _) as [[withs' t5]|]; [|reflexivity].
  cbn [bindR SetSelectWith]. unfold Select_Union. cbn [GetUnionSelect bindR].
  unfold move_output_expr. cbv beta iota zeta.
  change (set_output_expr (set_predicates t5 (predicates_ t)) None)
    with (set_predicates (set_output_expr t5 None) (predicates_ t)).
  unfold rec. rewrite visit_select_predicates.
  destruct (visit_select (Visit D fuel) u (set_output_expr t5 None)) as [[u1 t6]|];
    reflexivity.
Qed.

(** X10.  When the visit of a SELECT returns, [output_expr_] holds a tree
    (so [ConvertToOpExpression] never returns a null tree for a SELECT).
    With a UNION, the visit is the visit of the same SELECT without its
    UNION, then the visit of the other SELECT from the transformer that
    the first visit returned, with [output_expr_] emptied; the root is the
    Union node that holds the two statements, and its children are the
    tree of this SELECT and the tree of the other, in this order.  Without
    a UNION and with a LIMIT other than -1 the root is the Limit node of
    the SELECT, with the offset, the limit and the sort keys (hanging the
    queries of the CTEs under their scans leaves the root as it is). *)
Theorem visit_select_root_operator (D : Collaborators) (fuel : nat)
  (op : SelectStatement) (t : QueryToOperatorTransformer) :
  (forall op' t',
     visit_select (Visit D fuel) op t = Ok (op', t') ->
     (exists tree, output_expr_ t' = Some tree) /\
     (forall u,
        GetUnionSelect op = Some u ->
        exists fuel' op1 t1 u' t2,
          fuel = S fuel' /\
          visit_select (Visit D fuel) (SetUnionSelect op None) t = Ok (op1, t1) /\
          visit_select (Visit D fuel') u (set_output_expr t1 None) = Ok (u', t2) /\
          op' = SetUnionSelect op1 (Some u') /\
          t' = set_output_expr t2
                 (Some (MkOperatorNode (LogicalUnion true op' u')
                          [output_expr_ t1; output_expr_ t2]))) /\
     (GetUnionSelect op = None ->
      forall l, GetSelectLimit op = Some l -> GetLimit l <> -1 ->
        root_operator t' =
        Some (LogicalLimit (Z.max (GetOffset l) 0) (GetLimit l)
                (sort_keys op) (sort_directions op)))) /\
  (forall tree, ConvertToOpExpression D fuel op t = Ok tree -> tree <> None).
Proof.
  assert (Hunion : forall t0 op' t' u,
     visit_select (Visit D fuel) op t0 = Ok (op', t') ->
     GetUnionSelect op = Some u ->
     exists fuel' op1 t1 u' t2,
       fuel = S fuel' /\
       visit_select (Visit D fuel) (SetUnionSelect op None) t0 = Ok (op1, t1) /\
       visit_select (Visit D fuel') u (set_output_expr t1 None) = Ok (u', t2) /\
       op' = SetUnionSelect op1 (Some u') /\
       t' = set_output_expr t2
              (Some (MkOperatorNode (LogicalUnion true op' u')
                       [output_expr_ t1; output_expr_ t2]))).
  { intros t0 op' t' u H Hu. destruct fuel as [|fuel]; [discriminate H|].
    cbn [Visit visit_select] in H |- *.
    rewrite (Visit_SelectStatement_union D fuel op u t0 Hu) in H.
    destruct (Visit_SelectStatement (Visit D fuel) D (SetUnionSelect op None) t0)
      as [[op1 t1]|]; cbn [bindR] in H; [|discriminate H].
    destruct (visit_select (Visit D fuel) u (set_output_expr t1 None))
      as [[u' t2]|] eqn:E2; cbn [bindR] in H; [|discriminate H].
    injection H as <- <-.
    exists fuel, op1, t1, u', t2. repeat split; [exact E2]. }
  assert (Hmain : forall t0 op' t',
     visit_select (Visit D fuel) op t0 = Ok (op', t') ->
     (exists tree, output_expr_ t' = Some tree) /\
     (GetUnionSelect op = None ->
      forall l, GetSelectLimit op = Some l -> GetLimit l <> -1 ->
        root_operator t' =
        Some (LogicalLimit (Z.max (GetOffset l) 0) (GetLimit l)
                (sort_keys op) (sort_directions op)))).
  { intros t0 op' t' H. destruct fuel as [|fuel]; [discriminate H|].
    cbn [Visit visit_select] in H. unfold Visit_SelectStatement in H.
    cbv zeta in H.
    destruct (Select_With _ D op _) as [[withs t1]|]; cbn [bindR] in H;
      [|discriminate H].
    destruct (Select_From _ _ t1) as [[table t2]|] eqn:Ef; cbn [bindR] in H;
      [|discriminate H].
    destruct (Select_Where _ D _ t2) as [[condition t3]|] eqn:Ew; cbn [bindR] in H;
      [|discriminate H].
    destruct (Select_Aggregation _ D _ t3) as [[group_by t4]|] eqn:Ea;
      cbn [bindR] in H; [|discriminate H].
    destruct (Select_AttachCtes _ _ _) as [[withs' t5]|] eqn:Ec; cbn [bindR] in H;
      [|discriminate H].
    destruct (Select_Union _ _ t5) as [[op6 t6]|] eqn:Eu; cbn [bindR] in H;
      [|discriminate H].
    injection H as <- <-.
    pose proof (transformer_facts.Select_From_root _ _ _ _ _ _ Ef) as R2.
    pose proof (transformer_facts.Select_Where_root _ _ _ _ _ _ Ew R2) as R3.
    pose proof (transformer_facts.Select_Aggregation_root _ _ _ _ _ _ Ea R3) as R4.
    apply Select_AttachCtes_contents in Ec.
    apply Select_Union_tree in Eu. destruct Eu as [U1 U2].
    set (op4 := SetSelectGroupBy
                  (SetSelectCondition (SetSelectTable (SetSelectWith op withs) table)
                     condition) group_by) in *.
    assert (Hu : GetUnionSelect (SetSelectWith op4 withs') = GetUnionSelect op)
      by (destruct op; reflexivity).
    assert (Hl : GetSelectLimit op4 = GetSelectLimit op) by (destruct op; reflexivity).
    assert (Hk : sort_keys op4 = sort_keys op) by (destruct op; reflexivity).
    assert (Hd : sort_directions op4 = sort_directions op)
      by (destruct op; reflexivity).
    rewrite Hu in U1, U2.
    assert (R5 : exists tree, output_expr_ t5 = Some tree).
    { destruct R4 as [contents [children [Ho _]]].
      unfold root_operator in Ec.
      assert (K : output_expr_ (Select_Limit op4 t4) <> None).
      { unfold Select_Limit, move_output_expr.
        destruct (GetSelectLimit op4); [|rewrite Ho; discriminate].
        destruct (negb _); [|rewrite Ho; discriminate].
        destruct (GetSelectOrderBy op4); discriminate. }
      destruct (output_expr_ (Select_Limit op4 t4)); [|contradiction].
      destruct (output_expr_ t5) as [tree|]; [|discriminate Ec].
      eexists. reflexivity. }
    cbn [output_expr_ set_predicates]. unfold root_operator. cbn [output_expr_ set_predicates].
    split.
    - destruct (GetUnionSelect op) as [u|].
      + destruct (U2 ltac:(discriminate)) as [l [r [right ->]]]. eexists. reflexivity.
      + rewrite (U1 eq_refl). exact R5.
    - intros Hn l Hsl Hne. rewrite (U1 Hn). fold (root_operator t5). rewrite Ec.
      rewrite (transformer_facts.Select_Limit_node op4 t4 l); [|congruence|exact Hne].
      rewrite Hk, Hd. reflexivity. }
  split.
  - intros op' t' H. destruct (Hmain _ _ _ H) as [M1 M2].
    split; [exact M1|]. split; [|exact M2].
    intros u Hu. exact (Hunion _ _ _ _ H Hu).
  - intros tree H. unfold ConvertToOpExpression in H. cbv zeta in H.
    destruct (visit_select (Visit D fuel) op (set_output_expr t None))
      as [[op' t']|] eqn:E; cbn [bindR] in H; [|discriminate H].
    injection H as <-. destruct (proj1 (Hmain _ _ _ E)) as [tr ->]. discriminate.
Qed.

(** [SELECT a FROM t LIMIT 5 UNION SELECT a FROM t]: the root is the
    Union, over the Limit node of the first SELECT and the tree of the
    second. *)
Lemma visit_select_root_operator_witness :
  match visit_select (Visit sample_collaborators 3) select_union
          sample_transformer with
  | Ok (op', t') =>
      exists fuel' op1 t1 u' t2,
        3%nat = S fuel' /\
        visit_select (Visit sample_collaborators 3)
          (SetUnionSelect select_union None) sample_transformer = Ok (op1, t1) /\
        visit_select (Visit sample_collaborators fuel')
          (simple_select [column "a" 0] (Some (table "t")) None None)
          (set_output_expr t1 None) = Ok (u', t2) /\
        op' = SetUnionSelect op1 (Some u') /\
        t' = set_output_expr t2
               (Some (MkOperatorNode (LogicalUnion true op' u')
                        [output_expr_ t1; output_expr_ t2]))
  | Err _ => False
  end.
Proof.
  destruct (visit_select (Visit sample_collaborators 3) select_union
              sample_transformer) as [[op' t']|e] eqn:E.
  - exact (proj1 (proj2 (proj1 (visit_select_root_operator sample_collaborators 3
                                  select_union sample_transformer) op' t' E))
             _ eq_refl).
  - vm_compute in E. discriminate E.
Defined.

(** *** References to a single table *)

Lemma find_index_In (x : string) (xs : list string) :
  (In x xs -> exists i, find_index x xs = Some i /\ (i < List.length xs)%nat) /\
  (~ In x xs -> find_index x xs = None).
Proof.
  induction xs as [|y xs [IH1 IH2]]; simpl.
  - split; [intros []|reflexivity].
  - destruct (String.eqb y x) eqn:E.
    + split; [intros _; exists O; split; [reflexivity|lia]|].
      intros H. apply String.eqb_eq in E. exfalso. apply H. left. exact E.
    + apply String.eqb_neq in E. split.
      * intros [K|K]; [contradiction|]. destruct (IH1 K) as [i [-> Hi]].
        exists (S i). split; [reflexivity|lia].
      * intros H. rewrite IH2; [reflexivity|]. intros K. apply H. right. exact K.
Qed.

Lemma nth_error_lt {A} (l : list A) (i : nat) :
  (i < List.length l)%nat -> exists x, nth_error l i = Some x.
Proof.
  intros H. destruct (nth_error l i) as [x|] eqn:E; [eexists; reflexivity|].
  apply nth_error_None in E. lia.
Qed.

(** X11.  A table reference that is a single table (itself, or the only
    element of its list) and is not a derived table or a join: when its
    table name is not the name of a registered CTE, the visit leaves a
    LogicalGet leaf for the table oid that the catalog gives for the name,
    in the database of the transformer, under the alias of the table; when
    it is, and the registry is aligned, the visit leaves a LogicalCteScan
    leaf with the oid, schema, expressions and type registered at the first
    index of that name.  The table reference comes back as it was. *)
Theorem Visit_TableRef_single_table (rec : Visitors) (node single : TableRef)
  (table_name : string) (t : QueryToOperatorTransformer) :
  GetSelect node = None ->
  GetJoin node = None ->
  (GetList node = [] /\ single = node) \/ GetList node = [single] ->
  GetTableName single = Ok table_name ->
  (~ In table_name (cte_table_name_ t) ->
   Visit_TableRef rec node t =
   Ok (node,
       set_output_expr t
         (Some (MkOperatorNode
                  (LogicalGet (db_oid_ t) (GetTableOid (accessor_ t) table_name) []
                     (GetTableAlias single) false) [])))) /\
  (In table_name (cte_table_name_ t) -> cte_aligned t ->
   exists index oid schema expressions type,
     find_index table_name (cte_table_name_ t) = Some index /\
     nth_error (cte_oids_ t) index = Some oid /\
     nth_error (cte_schemas_ t) index = Some schema /\
     nth_error (cte_expressions_ t) index = Some expressions /\
     nth_error (cte_type_ t) index = Some type /\
     Visit_TableRef rec node t =
     Ok (node,
         set_output_expr t
           (Some (MkOperatorNode
                    (LogicalCteScan (name_ (GetTableAlias single)) table_name oid
                       schema expressions type []) [])))).
Proof.
  intros Hs Hj Hl Hn. unfold Visit_TableRef. rewrite Hs, Hj.
  assert (Hsingle :
    (if (1 <? List.length (GetList node))%nat
     then None
     else Some (if Nat.eqb (List.length (GetList node)) 1 then at_ (GetList node) 0
                else Ok node)) = Some (Ok single)).
  { destruct Hl as [[-> ->]| ->]; reflexivity. }
  destruct (1 <? List.length (GetList node))%nat; [discriminate Hsingle|].
  injection Hsingle as ->. cbn [bindR]. rewrite Hn. cbn [bindR].
  destruct (find_index_In table_name (cte_table_name_ t)) as [F1 F2]. split.
  - intros Hout. rewrite (F2 Hout). reflexivity.
  - intros Hin [A1 [A2 [A3 A4]]]. destruct (F1 Hin) as [index [Hf Hi]].
    destruct (nth_error_lt (cte_oids_ t) index ltac:(lia)) as [oid Ho].
    destruct (nth_error_lt (cte_schemas_ t) index ltac:(lia)) as [schema Hsc].
    destruct (nth_error_lt (cte_expressions_ t) index ltac:(lia)) as [expressions He].
    destruct (nth_error_lt (cte_type_ t) index ltac:(lia)) as [type Hty].
    exists index, oid, schema, expressions, type.
    rewrite Hf, Ho, Hsc, He, Hty. repeat split; reflexivity.
Qed.

(** [FROM t] with an empty registry: a LogicalGet of the table. *)
Lemma Visit_TableRef_single_table_witness :
  Visit_TableRef (Visit sample_collaborators 0) (table "t") sample_transformer =
  Ok (table "t",
      set_output_expr sample_transformer
        (Some (MkOperatorNode
                 (LogicalGet 1 1001 [] (MakeAliasNoSerial "t") false) []))).
Proof.
  apply (proj1 (Visit_TableRef_single_table (Visit sample_collaborators 0)
                  (table "t") (table "t") "t" sample_transformer
                  eq_refl eq_refl (or_introl (conj eq_refl eq_refl)) eq_refl)).
  intros [].
Defined.

Lemma ExpressionType_eqb_neq_false (a b : ExpressionType) :
  a <> b -> ExpressionType_eqb a b = false.
Proof.
  unfold ExpressionType_eqb. destruct (ExpressionType_eq_dec a b); [contradiction|].
  reflexivity.
Qed.

Lemma vector_set_at {A} (v : list A) (i : nat) (x y : A) :
  deref "GetChild: index out of range" (nth_error v i) = Ok y ->
  exists v', vector_set v i x = Ok v' /\ nth_error v' i = Some x.
Proof.
  revert i. induction v as [|z v IH]; intros i H.
  - destruct i; discriminate H.
  - destruct i as [|i]; simpl.
    + eexists. split; reflexivity.
    + simpl in H. destruct (IH i H) as [v' [-> Hn]]. cbn [bindR].
      eexists. split; [reflexivity|exact Hn].
Qed.

(** *** DISTINCT and GROUP BY *)

(** X12.  In the aggregation block of [Visit(SelectStatement)], a SELECT
    DISTINCT without aggregation and without GROUP BY gets the node that
    the same SELECT gets with a GROUP BY over its select list and no
    HAVING: an aggregate-and-group-by node over the columns of the select
    list, above the tree built so far.  When the SELECT aggregates, the
    block does not read the DISTINCT flag: the result is the same with and
    without it. *)
Theorem Select_Aggregation_distinct (rec : Visitors) (D : Collaborators)
  (cols : list AbstractExpression) (from : option TableRef)
  (where_ : option AbstractExpression) (order_by : option OrderByDescription)
  (limit : option LimitDescription) (union : option SelectStatement) (depth : Z)
  (withs : list TableRef) (t : QueryToOperatorTransformer) :
  let grouped :=
    set_output_expr t
      (Some (MkOperatorNode (LogicalAggregateAndGroupBy cols) [output_expr_ t])) in
  (RequireAggregation D
     (Select cols true from where_ None order_by limit union depth withs) = Ok false ->
   Select_Aggregation rec D
     (Select cols true from where_ None order_by limit union depth withs) t
   = Ok (None, grouped) /\
   Select_Aggregation rec D
     (Select cols false from where_ (Some (MkGroupBy cols None)) order_by limit
        union depth withs) t
   = Ok (Some (MkGroupBy cols None), grouped)) /\
  (forall group_by,
     RequireAggregation D
       (Select cols true from where_ group_by order_by limit union depth withs)
     = Ok true ->
     Select_Aggregation rec D
       (Select cols true from where_ group_by order_by limit union depth withs) t
     = Select_Aggregation rec D
         (Select cols false from where_ group_by order_by limit union depth withs) t).
Proof.
  cbv zeta. split.
  - intros H. unfold Select_Aggregation. rewrite H. split; reflexivity.
  - intros group_by H. unfold Select_Aggregation.
    assert (H' : RequireAggregation D
                   (Select cols false from where_ group_by order_by limit union depth
                      withs) = Ok true) by exact H.
    rewrite H, H'. reflexivity.
Qed.

(** [SELECT DISTINCT a FROM t]. *)
Lemma Select_Aggregation_distinct_witness :
  Select_Aggregation (Visit sample_collaborators 0) sample_collaborators
    (Select [column "a" 0] true (Some (table "t")) None None None None None 0 [])
    sample_transformer
  = Ok (None,
        set_output_expr sample_transformer
          (Some (MkOperatorNode (LogicalAggregateAndGroupBy [column "a" 0])
                   [output_expr_ sample_transformer]))).
Proof.
  apply (proj1 (proj1 (Select_Aggregation_distinct (Visit sample_collaborators 0)
                         sample_collaborators [column "a" 0] (Some (table "t")) None
                         None None None 0 [] sample_transformer) eq_refl)).
Defined.

(** *** Sub-selects in predicates *)

(** X13.  [GenerateSubqueryTree] on the child [child_id] of a predicate:
    when the child is not a row sub-select, nothing changes and the result
    is false; when it is a supported sub-select whose select list does not
    have exactly one column, the not-implemented exception "Array in
    predicates not supported" is thrown before the sub-select is visited;
    when it has one column and its visit returns, the child is replaced by
    the first column of the visited select list, and the tree is a join
    node (a single join when asked, else a mark join) over the tree built
    so far and the tree of the sub-select. *)
Theorem GenerateSubqueryTree_cases (rec : Visitors) (D : Collaborators)
  (expr subquery_expr : AbstractExpression) (child_id : nat) (single_join : bool)
  (t : QueryToOperatorTransformer) :
  GetChild expr child_id = Ok subquery_expr ->
  (GetExpressionType subquery_expr <> ROW_SUBQUERY ->
   GenerateSubqueryTree rec D expr child_id single_join t = Ok (false, expr, t)) /\
  (forall sub_select,
     GetExpressionType subquery_expr = ROW_SUBQUERY ->
     GetClass subquery_expr = SubqueryExpression sub_select ->
     IsSupportedSubSelect D sub_select = Ok true ->
     (List.length (GetSelectColumns sub_select) <> 1%nat ->
      GenerateSubqueryTree rec D expr child_id single_join t =
      Err (NotImplementedException "Array in predicates not supported")) /\
     (forall sub_select' t1 column,
        List.length (GetSelectColumns sub_select) = 1%nat ->
        visit_select rec sub_select (set_output_expr t None) = Ok (sub_select', t1) ->
        nth_error (GetSelectColumns sub_select') 0 = Some column ->
        exists expr',
          SetChild expr child_id column = Ok expr' /\
          GetChild expr' child_id = Ok column /\
          GenerateSubqueryTree rec D expr child_id single_join t =
          Ok (true, expr',
              set_output_expr t1
                (Some (MkOperatorNode
                         (if single_join then LogicalSingleJoin else LogicalMarkJoin)
                         [output_expr_ t; output_expr_ t1]))))).
Proof.
  intros Hc. unfold GenerateSubqueryTree. rewrite Hc. cbn [bindR]. split.
  - intros Hn. apply ExpressionType_eqb_neq_false in Hn. rewrite Hn. reflexivity.
  - intros sub_select Ht Hcls Hsup. rewrite Ht, Hcls. cbn [bindR negb].
    replace (ExpressionType_eqb ROW_SUBQUERY ROW_SUBQUERY) with true by reflexivity.
    cbn [negb bindR]. rewrite Hsup. cbn [bindR negb]. split.
    + intros Hlen. apply Nat.eqb_neq in Hlen. rewrite Hlen. reflexivity.
    + intros sub_select' t1 column Hlen Hv Hcol. rewrite Hlen. cbn [Nat.eqb negb].
      unfold move_output_expr. cbv beta iota zeta. rewrite Hv. cbn [bindR].
      unfold at_. rewrite Hcol. cbn [bindR].
      destruct (vector_set_at (GetChildren expr) child_id column subquery_expr Hc)
        as [cs [Hset Hnth]].
      exists (WithChildren expr cs). unfold SetChild. rewrite Hset. cbn [bindR].
      split; [reflexivity|]. split.
      * unfold GetChild. destruct expr; cbn [GetChildren WithChildren].
        rewrite Hnth. reflexivity.
      * destruct single_join; reflexivity.
Qed.

(** [a = (SELECT b FROM s)]: the left operand is not a sub-select. *)
Lemma GenerateSubqueryTree_cases_witness :
  GenerateSubqueryTree (Visit sample_collaborators 0) sample_collaborators
    (comparison COMPARE_EQUAL (column "a" 0)
       (subquery (simple_select [column "b" 1] (Some (table "s")) None None)) 0 true)
    0 true sample_transformer
  = Ok (false,
        comparison COMPARE_EQUAL (column "a" 0)
          (subquery (simple_select [column "b" 1] (Some (table "s")) None None)) 0 true,
        sample_transformer).
Proof.
  apply (proj1 (GenerateSubqueryTree_cases (Visit sample_collaborators 0)
                  sample_collaborators
                  (comparison COMPARE_EQUAL (column "a" 0)
                     (subquery (simple_select [column "b" 1] (Some (table "s"))
                                  None None)) 0 true)
                  (column "a" 0) 0 true sample_transformer eq_refl)).
  discriminate.
Defined.

(** *** What the visit of an expression changes of its root *)

Lemma vector_set_length {A} (v : list A) (i : nat) (x : A) (v' : list A) :
  vector_set v i x = Ok v' -> List.length v' = List.length v.
Proof.
  revert i v'. induction v as [|y v IH]; intros i v' H; [discriminate H|].
  destruct i as [|i]; simpl in H.
  - injection H as <-. reflexivity.
  - destruct (vector_set v i x) as [v''|] eqn:E; cbn [bindR] in H; [|discriminate H].
    injection H as <-. simpl. f_equal. eapply IH. exact E.
Qed.

Lemma GenerateSubqueryTree_root_node rec D expr child_id single_join t b expr' t' :
  GenerateSubqueryTree rec D expr child_id single_join t = Ok (b, expr', t') ->
  GetClass expr' = GetClass expr /\ GetBase expr' = GetBase expr /\
  List.length (GetChildren expr') = List.length (GetChildren expr) /\
  exists c, GetChild expr child_id = Ok c /\
            (b = true <-> GetExpressionType c = ROW_SUBQUERY).
Proof.
  unfold GenerateSubqueryTree. intros H.
  destruct (GetChild expr child_id) as [sub|]; cbn [bindR] in H; [|discriminate H].
  destruct (ExpressionType_eqb (GetExpressionType sub) ROW_SUBQUERY) eqn:Et;
    cbn [negb] in H.
  2:{ injection H as <- <- <-. repeat split; try reflexivity.
      exists sub. split; [reflexivity|]. split; [discriminate|].
      intros E. apply predicate_facts.ExpressionType_eqb_true in E. congruence. }
  match type of H with
  | bindR ?c _ = _ => destruct c as [sel|]; cbn [bindR] in H; [|discriminate H]
  end.
  destruct (IsSupportedSubSelect D sel) as [[|]|]; cbn [bindR negb] in H;
    try discriminate H.
  destruct (negb _); [discriminate H|].
  unfold move_output_expr in H. cbv beta iota zeta in H.
  destruct (visit_select rec sel _) as [[s1 t1]|]; cbn [bindR] in H; [|discriminate H].
  destruct (at_ (GetSelectColumns s1) 0) as [column|]; cbn [bindR] in H;
    [|discriminate H].
  unfold SetChild in H.
  destruct (vector_set (GetChildren expr) child_id column) as [cs|] eqn:Ev;
    cbn [bindR] in H; [|discriminate H].
  injection H as <- <- <-. apply vector_set_length in Ev.
  destruct expr as [cls base children]. cbn in *.
  repeat split; try assumption; try reflexivity.
  exists sub. split; [reflexivity|]. split; [|reflexivity].
  intros _. apply predicate_facts.ExpressionType_eqb_true. exact Et.
Qed.

Lemma AcceptChildren_root_node rec expr t expr' t' :
  AcceptChildren rec expr t = Ok (expr', t') ->
  GetClass expr' = GetClass expr /\ GetBase expr' = GetBase expr /\
  List.length (GetChildren expr') = List.length (GetChildren expr).
Proof.
  unfold AcceptChildren. intros H.
  destruct (mapS (visit_expression rec) (GetChildren expr) t) as [[cs t1]|] eqn:E;
    cbn [bindR] in H; [|discriminate H].
  injection H as <- <-. apply insert_facts.mapS_length in E.
  destruct expr as [cls base children]. cbn in *. repeat split. exact E.
Qed.

(** X14.  The visit of an expression returns an expression of the same
    class and with the same number of children.  An EXISTS over a row
    sub-select (an operator expression of type EXISTS whose first child is
    a row sub-select) always comes back as IS NOT NULL, its other base
    fields (alias, name, return type, depth, sub-query flag) being the
    same; every other expression comes back with all its base fields, and
    so with its type. *)
Theorem Visit_Expression_root_node (rec : Visitors) (D : Collaborators)
  (expr expr' : AbstractExpression) (t t' : QueryToOperatorTransformer) :
  Visit_Expression rec D expr t = Ok (expr', t') ->
  GetClass expr' = GetClass expr /\
  List.length (GetChildren expr') = List.length (GetChildren expr) /\
  (exists_over_subquery expr ->
   GetExpressionType expr' = OPERATOR_IS_NOT_NULL /\
   GetBase expr' = GetBase (SetExpressionType expr OPERATOR_IS_NOT_NULL)) /\
  (~ exists_over_subquery expr -> GetBase expr' = GetBase expr).
Proof.
  intros H. unfold Visit_Expression, SqlNodeVisitor_Visit in H.
  assert (HA : forall e s,
             AcceptChildren rec e s = Ok (expr', t') ->
             GetClass e = GetClass expr ->
             List.length (GetChildren e) = List.length (GetChildren expr) ->
             GetClass expr' = GetClass expr /\
             List.length (GetChildren expr') = List.length (GetChildren expr) /\
             GetBase expr' = GetBase e).
  { intros e s K Hc Hl. destruct (AcceptChildren_root_node _ _ _ _ _ K) as [A1 [A2 A3]].
    repeat split; congruence. }
  assert (Hsame : forall e s,
             AcceptChildren rec e s = Ok (expr', t') ->
             GetClass e = GetClass expr ->
             List.length (GetChildren e) = List.length (GetChildren expr) ->
             GetBase e = GetBase expr ->
             ~ exists_over_subquery expr ->
             GetClass expr' = GetClass expr /\
             List.length (GetChildren expr') = List.length (GetChildren expr) /\
             (exists_over_subquery expr ->
              GetExpressionType expr' = OPERATOR_IS_NOT_NULL /\
              GetBase expr' =
              GetBase (SetExpressionType expr OPERATOR_IS_NOT_NULL)) /\
             (~ exists_over_subquery expr -> GetBase expr' = GetBase expr)).
  { intros e s K Hc Hl Hb Hn. destruct (HA _ _ K Hc Hl) as [A1 [A2 A3]].
    split; [exact A1|]. split; [exact A2|]. split; [intros Hx; contradiction|].
    intros _. congruence. }
  destruct (GetClass expr) eqn:Ecls;
    try (apply (Hsame expr t H Ecls eq_refl eq_refl);
         intros [Hx _]; congruence).
  - (* comparison *)
    unfold Visit_ComparisonExpression in H. cbv zeta in H.
    match type of H with
    | bindR ?c _ = _ => destruct c as [[e1 t1]|] eqn:E; cbn [bindR] in H;
                        [|discriminate H]
    end.
    assert (K : GetClass e1 = GetClass expr /\ GetBase e1 = GetBase expr /\
                List.length (GetChildren e1) = List.length (GetChildren expr)).
    { destruct (ExpressionType_eqb (GetExpressionType expr) COMPARE_IN).
      - destruct (GenerateSubqueryTree rec D expr 1 false t) as [[[b e2] t2]|] eqn:G;
          cbn [bindR] in E; [|discriminate E].
        injection E as <- <-.
        destruct (GenerateSubqueryTree_root_node _ _ _ _ _ _ _ _ _ G) as [B1 [B2 [B3 _]]].
        repeat split; assumption.
      - destruct (is_plain_comparison (GetExpressionType expr)).
        + destruct (GetChild expr 0) as [c0|]; cbn [bindR] in E; [|discriminate E].
          match type of E with
          | bindR ?c _ = _ => destruct c as [[|]|]; cbn [bindR] in E; try discriminate E
          end.
          destruct (GenerateSubqueryTree rec D expr 0 true t) as [[[b e2] t2]|] eqn:G;
            cbn [bindR] in E; [|discriminate E].
          destruct (GenerateSubqueryTree_root_node _ _ _ _ _ _ _ _ _ G) as [B1 [B2 [B3 _]]].
          destruct b.
          * injection E as <- <-. repeat split; assumption.
          * destruct (GenerateSubqueryTree rec D e2 1 true t2) as [[[b3 e3] t3]|] eqn:G3;
              cbn [bindR] in E; [|discriminate E].
            injection E as <- <-.
            destruct (GenerateSubqueryTree_root_node _ _ _ _ _ _ _ _ _ G3)
              as [C1 [C2 [C3 _]]].
            repeat split; congruence.
        + injection E as <- <-. repeat split; reflexivity. }
    destruct K as [K1 [K2 K3]].
    apply (Hsame e1 t1 H ltac:(congruence) K3 K2).
    intros [Hx _]. congruence.
  - (* operator *)
    unfold Visit_OperatorExpression in H.
    match type of H with
    | bindR ?c _ = _ => destruct c as [[e1 t1]|] eqn:E; cbn [bindR] in H;
                        [|discriminate H]
    end.
    destruct (ExpressionType_eqb (GetExpressionType expr) OPERATOR_EXISTS) eqn:Ex.
    + apply predicate_facts.ExpressionType_eqb_true in Ex.
      destruct (GenerateSubqueryTree rec D expr 0 false t) as [[[b e2] t2]|] eqn:G;
        cbn [bindR] in E; [|discriminate E].
      destruct (GenerateSubqueryTree_root_node _ _ _ _ _ _ _ _ _ G)
        as [B1 [B2 [B3 [c [Hc Hb]]]]].
      destruct b; injection E as <- <-.
      * assert (Hcl : GetClass (SetExpressionType e2 OPERATOR_IS_NOT_NULL)
                      = GetClass expr) by (destruct e2; exact B1).
        assert (Hl : List.length (GetChildren (SetExpressionType e2 OPERATOR_IS_NOT_NULL))
                     = List.length (GetChildren expr)) by (destruct e2; exact B3).
        destruct (HA _ _ H ltac:(congruence) Hl) as [A1 [A2 A3]].
        assert (Hbase : GetBase expr' =
                        GetBase (SetExpressionType expr OPERATOR_IS_NOT_NULL)).
        { rewrite A3. destruct e2, expr. cbn in *. rewrite B2. reflexivity. }
        split; [exact A1|]. split; [exact A2|]. split.
        -- intros _. split; [|exact Hbase].
           unfold GetExpressionType. rewrite Hbase. destruct expr. reflexivity.
        -- intros Hn. exfalso. apply Hn. split; [exact Ecls|]. split; [exact Ex|].
           exists c. split; [exact Hc|]. apply Hb. reflexivity.
      * apply (Hsame e2 t2 H ltac:(congruence) B3 B2).
        intros [_ [_ [c0 [Hc0 Ht0]]]]. rewrite Hc in Hc0. injection Hc0 as <-.
        apply Hb in Ht0. discriminate Ht0.
    + injection E as <- <-.
      apply (Hsame expr t H ltac:(congruence) eq_refl eq_refl).
      intros [_ [Hx _]]. apply predicate_facts.ExpressionType_eqb_false in Ex.
      contradiction.
Qed.

(** [EXISTS (SELECT b FROM s)] comes back as an IS NOT NULL. *)
Lemma Visit_Expression_root_node_witness :
  match Visit_Expression (Visit sample_collaborators 4) sample_collaborators
          exists_select_b sample_transformer with
  | Ok (expr', _) => GetExpressionType expr' = OPERATOR_IS_NOT_NULL
  | Err _ => False
  end.
Proof.
  destruct (Visit_Expression (Visit sample_collaborators 4) sample_collaborators
              exists_select_b sample_transformer) as [[expr' t']|e] eqn:E.
  - refine (proj1 (proj1 (proj2 (proj2 (Visit_Expression_root_node _ _ _ _ _ _ E)))
                     _)).
    split; [reflexivity|]. split; [reflexivity|].
    eexists. split; reflexivity.
  - vm_compute in E. discriminate E.
Defined.

End plan_facts.

(* ===================================================================== *)
(** ** The checks of the binder *)
(* ===================================================================== *)

Module binding_facts.
Import binder binder_spec binder_props.

(** *** ORDER BY *)

Lemma mapR_nth {A B} (f : A -> result B) (xs : list A) :
  forall ys i x,
    mapR f xs = Ok ys -> nth_error xs i = Some x ->
    exists y, nth_error ys i = Some y /\ f x = Ok y.
Proof.
  induction xs as [|x0 xs IH]; intros ys i x H Hx; [destruct i; discriminate Hx|].
  simpl in H. destruct (f x0) as [y0|] eqn:E0; cbn [bindR] in H; [|discriminate H].
  destruct (mapR f xs) as [ys'|] eqn:E; cbn [bindR] in H; [|discriminate H].
  injection H as <-. destruct i as [|i]; simpl in Hx.
  - injection Hx as <-. exists y0. split; [reflexivity|exact E0].
  - destruct (IH _ _ _ eq_refl Hx) as [y [Hy Hf]]. exists y. split; assumption.
Qed.

Lemma entry_bare_column select_items e column_name :
  bare_column e column_name ->
  UnifyOrderByExpression_entry select_items e =
  Ok match select_item_named select_items column_name with
     | Some select_expression => select_expression
     | None => e
     end.
Proof.
  intros [Ht [Hn [a [d [tb [c [Hc Ha]]]]]]]. unfold UnifyOrderByExpression_entry.
  rewrite Ht, Hc, Ha. cbn.
  replace (String.eqb column_name "") with false
    by (symmetry; apply String.eqb_neq; exact Hn).
  cbn. unfold select_item_named. destruct (find _ select_items); reflexivity.
Qed.

Lemma entry_qualified_column select_items e :
  qualified_column e -> UnifyOrderByExpression_entry select_items e = Ok e.
Proof.
  intros [Ht [a [n [d [tb [c [Hc Hq]]]]]]]. unfold UnifyOrderByExpression_entry.
  rewrite Ht, Hc. cbn. destruct Hq as [Hq| ->].
  - replace (String.eqb (name_ a) "") with false
      by (symmetry; apply String.eqb_neq; exact Hq).
    reflexivity.
  - rewrite andb_false_r. reflexivity.
Qed.

Lemma entry_other select_items e :
  GetExpressionType e <> VALUE_CONSTANT -> GetExpressionType e <> COLUMN_VALUE ->
  UnifyOrderByExpression_entry select_items e = Ok e.
Proof.
  intros H1 H2. unfold UnifyOrderByExpression_entry.
  unfold ExpressionType_eqb.
  destruct (ExpressionType_eq_dec (GetExpressionType e) VALUE_CONSTANT);
    [contradiction|].
  destruct (ExpressionType_eq_dec (GetExpressionType e) COLUMN_VALUE);
    [contradiction|].
  reflexivity.
Qed.

Lemma entry_constant select_items e e' :
  GetExpressionType e = VALUE_CONSTANT ->
  UnifyOrderByExpression_entry select_items e = Ok e' -> In e' select_items.
Proof.
  intros Ht H. unfold UnifyOrderByExpression_entry in H. rewrite Ht in H. cbn in H.
  match type of H with
  | bindR ?c _ = _ => destruct c as [column_id|]; cbn [bindR] in H; [|discriminate H]
  end.
  destruct (_ || _)%bool; [discriminate H|].
  destruct (nth_error select_items _) as [s|] eqn:E; [|discriminate H].
  injection H as <-. eapply nth_error_In. exact E.
Qed.

(** X15.  When [UnifyOrderByExpression] returns, the ORDER BY has the same
    directions and the same number of entries.  An entry that is a column
    reference by a bare name is replaced by the first item of the select
    list with that expression name (its alias), and stays as it is when
    there is none; a column reference with a table name, and an entry that
    is neither a constant nor a column reference, stay as they are; an
    entry that was a constant is an item of the select list. *)
Theorem UnifyOrderByExpression_entries
  (order_by_description order_by_description' : OrderByDescription)
  (select_items : list AbstractExpression) :
  UnifyOrderByExpression order_by_description select_items
  = Ok order_by_description' ->
  GetOrderByTypes order_by_description' = GetOrderByTypes order_by_description /\
  List.length (GetOrderByExpressions order_by_description')
  = List.length (GetOrderByExpressions order_by_description) /\
  forall idx e,
    nth_error (GetOrderByExpressions order_by_description) idx = Some e ->
    exists e',
      nth_error (GetOrderByExpressions order_by_description') idx = Some e' /\
      (forall column_name,
         bare_column e column_name ->
         e' = match select_item_named select_items column_name with
              | Some select_expression => select_expression
              | None => e
              end) /\
      (qualified_column e -> e' = e) /\
      (GetExpressionType e <> VALUE_CONSTANT ->
       GetExpressionType e <> COLUMN_VALUE -> e' = e) /\
      (GetExpressionType e = VALUE_CONSTANT -> In e' select_items).
Proof.
  unfold UnifyOrderByExpression. intros H.
  destruct (mapR _ (GetOrderByExpressions order_by_description)) as [exprs|] eqn:E;
    cbn [bindR] in H; [|discriminate H].
  injection H as <-. cbn [GetOrderByTypes GetOrderByExpressions].
  split; [reflexivity|]. split; [eapply mapR_length; exact E|].
  intros idx e He. destruct (mapR_nth _ _ _ _ _ E He) as [e' [He' Hf]].
  exists e'. split; [exact He'|]. repeat split.
  - intros column_name Hb. rewrite (entry_bare_column _ _ _ Hb) in Hf.
    injection Hf as <-. reflexivity.
  - intros Hq. rewrite (entry_qualified_column _ _ Hq) in Hf.
    injection Hf as <-. reflexivity.
  - intros H1 H2. rewrite (entry_other _ _ H1 H2) in Hf. injection Hf as <-.
    reflexivity.
  - intros Hc. eapply entry_constant; eassumption.
Qed.

(** [SELECT a + 1 AS total ... ORDER BY total]: the entry becomes the
    item of the select list. *)
Lemma UnifyOrderByExpression_entries_witness :
  GetOrderByTypes
    (MkOrderBy [kOrderDesc] [named_item "total"]) = [kOrderDesc].
Proof.
  apply (proj1 (UnifyOrderByExpression_entries
                  (MkOrderBy [kOrderDesc] [ColumnRef "total" SqlTypeId.Invalid])
                  (MkOrderBy [kOrderDesc] [named_item "total"])
                  [named_item "total"] eq_refl)).
Defined.

(** *** Database names *)

(** X16.  [ValidateDatabaseName] accepts the empty name and the name of the
    database of the binder, and nothing else: a name that the catalog does
    not know is refused with the code of an undefined database, a name of
    another database with the code of an unsupported feature
    (cross-database reference). *)
Theorem ValidateDatabaseName_cases (v : BindNodeVisitor) (db_name : string) :
  (ValidateDatabaseName v db_name = Ok tt <->
   db_name = "" \/
   (GetDatabaseOid (catalog_accessor_ v) db_name = db_oid_ v /\
    db_oid_ v <> INVALID_DATABASE_OID)) /\
  (db_name <> "" ->
   GetDatabaseOid (catalog_accessor_ v) db_name = INVALID_DATABASE_OID ->
   ValidateDatabaseName v db_name =
   Err (BinderException ("Database " ++ dquote ++ db_name ++ dquote ++ " does not exist")
          ERRCODE_UNDEFINED_DATABASE)) /\
  (db_name <> "" ->
   GetDatabaseOid (catalog_accessor_ v) db_name <> INVALID_DATABASE_OID ->
   GetDatabaseOid (catalog_accessor_ v) db_name <> db_oid_ v ->
   ValidateDatabaseName v db_name =
   Err (BinderException "cross-database references are not implemented: "
          ERRCODE_FEATURE_NOT_SUPPORTED) /\
   fails_with (ValidateDatabaseName v db_name) FeatureNotSupported).
Proof.
  unfold ValidateDatabaseName.
  destruct (String.eqb db_name "") eqn:En.
  - apply String.eqb_eq in En. subst db_name. cbn [negb]. split; [|split].
    + split; [intros _; left; reflexivity|reflexivity].
    + intros H. contradiction.
    + intros H. contradiction.
  - apply String.eqb_neq in En. cbn [negb]. cbv zeta.
    destruct (N.eqb (GetDatabaseOid (catalog_accessor_ v) db_name) INVALID_DATABASE_OID)
      eqn:Ei.
    + apply N.eqb_eq in Ei. split; [|split].
      * split; [discriminate|]. intros [H|[H1 H2]]; [contradiction|]. congruence.
      * intros _ _. reflexivity.
      * intros _ H. contradiction.
    + apply N.eqb_neq in Ei.
      destruct (N.eqb (GetDatabaseOid (catalog_accessor_ v) db_name) (db_oid_ v)) eqn:Ed.
      * apply N.eqb_eq in Ed. cbn [negb]. split; [|split].
        -- split; [intros _; right; split; [exact Ed|congruence]|reflexivity].
        -- intros _ H. contradiction.
        -- intros _ _ H. contradiction.
      * apply N.eqb_neq in Ed. cbn [negb]. split; [|split].
        -- split; [discriminate|]. intros [H|[H1 H2]]; contradiction.
        -- intros _ H. contradiction.
        -- intros _ _ _. split; [reflexivity|]. eexists. split; reflexivity.
Qed.

(** The catalog of the samples knows every name as database 1; a binder
    of database 2 refuses a qualified name. *)
Lemma ValidateDatabaseName_cases_witness :
  fails_with
    (ValidateDatabaseName
       {| sherpa_ := sherpa_ sample_visitor; catalog_accessor_ := sample_accessor;
          db_oid_ := 2%N |} "other")
    FeatureNotSupported.
Proof.
  apply (proj2 (proj2 (ValidateDatabaseName_cases
                         {| sherpa_ := sherpa_ sample_visitor;
                            catalog_accessor_ := sample_accessor; db_oid_ := 2%N |}
                         "other"))); discriminate.
Defined.

(** *** INSERT *)

Section InsertChecks.

Variable Accept :
  AbstractExpression -> BindNodeVisitor ->
  result (AbstractExpression * BindNodeVisitor).
Variable ExprEq : AbstractExpression -> AbstractExpression -> bool.
Variable VisitSelectStatement :
  SelectStatement -> BindNodeVisitor -> result (SelectStatement * BindNodeVisitor).
Variable TableMapping :
  BindNodeVisitor -> TableInfo -> AliasType -> result Schema.

(** X17.  [ValidateAndCorrectInsertValues] first compares the counts: with
    an insert-column list, a row that does not have one value for each
    name of the list is refused, and without one, a row that does not have
    one value for each column of the schema; the error is the syntax error
    "Mismatch in number of insert columns and number of insert values.",
    and no value has been looked at.  When the function returns, the row
    has one value for each column of the schema. *)
Theorem ValidateAndCorrectInsertValues_counts
  (node : InsertStatement) (values : list AbstractExpression)
  (table_schema : Schema) (v : BindNodeVisitor) :
  ((GetInsertColumns node <> [] /\
    List.length values <> List.length (GetInsertColumns node)) \/
   (GetInsertColumns node = [] /\
    List.length values <> List.length (GetColumns table_schema)) ->
   ValidateAndCorrectInsertValues Accept ExprEq node values table_schema v =
   Err (BinderException
          "Mismatch in number of insert columns and number of insert values."
          ERRCODE_SYNTAX_ERROR)) /\
  (forall values' v',
     ValidateAndCorrectInsertValues Accept ExprEq node values table_schema v
     = Ok (values', v') ->
     List.length values' = List.length (GetColumns table_schema) /\
     (GetInsertColumns node <> [] ->
      List.length values = List.length (GetInsertColumns node)) /\
     (GetInsertColumns node = [] ->
      List.length values = List.length (GetColumns table_schema))).
Proof.
  split.
  - intros H. unfold ValidateAndCorrectInsertValues. cbv zeta.
    destruct H as [[Hc Hl]|[Hc Hl]].
    + destruct (GetInsertColumns node) as [|c cs] eqn:E; [contradiction|].
      cbn [List.length Nat.eqb negb andb orb].
      apply Nat.eqb_neq in Hl. cbn [List.length] in Hl. rewrite Hl. reflexivity.
    + rewrite Hc. cbn [List.length Nat.eqb negb andb orb].
      apply Nat.eqb_neq in Hl. rewrite Hl. reflexivity.
  - intros values' v' H. split.
    + eapply insert_facts.ValidateAndCorrectInsertValues_length. exact H.
    + unfold ValidateAndCorrectInsertValues in H. cbv zeta in H.
      destruct (GetInsertColumns node) as [|c cs] eqn:E.
      * cbn [List.length Nat.eqb negb andb orb] in H.
        destruct (Nat.eqb (List.length values) (List.length (GetColumns table_schema)))
          eqn:El; [|discriminate H].
        apply Nat.eqb_eq in El. split; [intros K; contradiction|intros _; exact El].
      * cbn [List.length Nat.eqb negb andb orb] in H.
        destruct (Nat.eqb (List.length values) (S (List.length cs))) eqn:El;
          [|discriminate H].
        apply Nat.eqb_eq in El. split; [intros _; exact El|discriminate].
Qed.

(** *** Values in the order of the insert-column list *)

Lemma schema_ordered_values insert_columns values (cols : list Column) :
  List.length values = List.length insert_columns ->
  (forall c, In c cols -> exists val, row_value ExprEq insert_columns values c val) ->
  forall v,
    exists cols' v',
      mapS (schema_ordered_entry ExprEq insert_columns values) cols v = Ok (cols', v') /\
      Forall2 (fun c p => fst p = c /\
                          row_value ExprEq insert_columns values c (snd p))
        cols cols'.
Proof.
  intros Hl. induction cols as [|c cols IH]; intros Hin v.
  - exists [], v. split; [reflexivity|constructor].
  - assert (Hc : exists val v1,
              schema_ordered_entry ExprEq insert_columns values c v = Ok ((c, val), v1) /\
              row_value ExprEq insert_columns values c val).
    { destruct (Hin c (or_introl eq_refl)) as [val Hval].
      unfold schema_ordered_entry.
      destruct (find_index (Name c) insert_columns) as [i|] eqn:Hf.
      - pose proof (insert_facts.find_index_lt _ _ _ Hf) as Hi.
        destruct (plan_facts.nth_error_lt values i ltac:(lia)) as [x Hx].
        exists x, v. rewrite Hx. split; [reflexivity|]. left.
        unfold value_for. rewrite Hf. exact Hx.
      - destruct Hval as [Hv|[[_ [He ->]]|[_ [He [Hn ->]]]]].
        + unfold value_for in Hv. rewrite Hf in Hv. discriminate Hv.
        + rewrite He. cbn [negb]. eexists _, _. split; [reflexivity|].
          right. left. split; [|split; [exact He|reflexivity]].
          intros K. destruct (proj1 (plan_facts.find_index_In _ _) K) as [i [Hi _]].
          congruence.
        + rewrite He, Hn. cbn [negb]. eexists _, _. split; [reflexivity|].
          right. right. split; [|split; [exact He|split; [exact Hn|reflexivity]]].
          intros K. destruct (proj1 (plan_facts.find_index_In _ _) K) as [i [Hi _]].
          congruence. }
    destruct Hc as [val [v1 [Ec Hr]]].
    destruct (IH (fun c' Hc' => Hin c' (or_intror Hc')) v1) as [cols' [v' [E F]]].
    exists ((c, val) :: cols'), v'. split.
    + cbn [mapS]. rewrite Ec. cbn [bindR]. rewrite E. reflexivity.
    + constructor; [|exact F]. split; [reflexivity|exact Hr].
Qed.

Lemma Forall2_nth {A B} (R : A -> B -> Prop) (l : list A) (r : list B) :
  Forall2 R l r ->
  forall j a, nth_error l j = Some a -> exists b, nth_error r j = Some b /\ R a b.
Proof.
  induction 1 as [|x y l r Hxy _ IH]; intros j a Ha; [destruct j; discriminate Ha|].
  destruct j as [|j]; simpl in Ha.
  - injection Ha as <-. exists y. split; [reflexivity|exact Hxy].
  - destruct (IH j a Ha) as [b [Hb Hr]]. exists b. split; assumption.
Qed.

Lemma Forall2_In_r {A B} (R : A -> B -> Prop) (l : list A) (r : list B) :
  Forall2 R l r -> forall b, In b r -> exists a, In a l /\ R a b.
Proof.
  induction 1 as [|x y l r Hxy _ IH]; intros b Hb; [destruct Hb|].
  destruct Hb as [<-|Hb].
  - exists x. split; [left; reflexivity|exact Hxy].
  - destruct (IH b Hb) as [a [Ha Hr]]. exists a. split; [right; exact Ha|exact Hr].
Qed.

(** X18.  With an insert-column list, the row comes back in the order of
    the schema.  At the position of each column is the value given for its
    name, that is the value at the first position of the name in the list
    (for [INSERT INTO t (b, a) VALUES (2, 1)] the row (1, 2)); for a column
    that the list does not name, the stored default expression of the
    column, or the NULL of its type when it has no default and is nullable.
    This holds when each column has such a value and the binder leaves
    these values as they are (they are no DEFAULT marker and no CAST, and
    their visit changes nothing). *)
Theorem ValidateAndCorrectInsertValues_schema_order
  (node : InsertStatement) (values : list AbstractExpression)
  (table_schema : Schema) (v : BindNodeVisitor) :
  GetInsertColumns node <> [] ->
  List.length values = List.length (GetInsertColumns node) ->
  (forall c, In c (GetColumns table_schema) ->
     exists val, row_value ExprEq (GetInsertColumns node) values c val) ->
  (forall c val, In c (GetColumns table_schema) ->
     row_value ExprEq (GetInsertColumns node) values c val -> settled Accept val) ->
  exists row v',
    ValidateAndCorrectInsertValues Accept ExprEq node values table_schema v
    = Ok (row, v') /\
    List.length row = List.length (GetColumns table_schema) /\
    forall j c,
      nth_error (GetColumns table_schema) j = Some c ->
      exists val,
        nth_error row j = Some val /\
        row_value ExprEq (GetInsertColumns node) values c val.
Proof.
  intros Hne Hl Hin Hs. unfold ValidateAndCorrectInsertValues. cbv zeta.
  destruct (GetInsertColumns node) as [|n0 ns] eqn:E; [contradiction|].
  cbn [List.length Nat.eqb negb andb orb].
  replace (Nat.eqb (List.length values) (S (List.length ns))) with true
    by (symmetry; apply Nat.eqb_eq; exact Hl).
  cbn [negb].
  destruct (schema_ordered_values (n0 :: ns) values (GetColumns table_schema) Hl Hin v)
    as [cols' [v1 [Ec F]]].
  rewrite Ec. cbn [bindR].
  assert (Hsettled : forall p, In p cols' -> settled Accept (snd p)).
  { intros p Hp. destruct (Forall2_In_r _ _ _ F p Hp) as [c [Hc [_ Hr]]].
    eapply Hs; eassumption. }
  destruct (insert_facts.validate_all_settled Accept cols' Hsettled v1) as [v' Ev].
  exists (map snd cols'), v'. split; [exact Ev|]. split.
  - rewrite length_map. symmetry. eapply Forall2_length. exact F.
  - intros j c Hc. destruct (Forall2_nth _ _ _ F j c Hc) as [p [Hp [_ Hv]]].
    exists (snd p). split; [|exact Hv]. rewrite nth_error_map, Hp. reflexivity.
Qed.

(** *** A CAST to another type than the column's *)

Lemma mapS_app_failure {A B S} (f : A -> S -> result (B * S)) (pre : list A)
  (x : A) (post : list A) (s s1 : S) (pre' : list B) (e : Exception) :
  mapS f pre s = Ok (pre', s1) -> f x s1 = Err e ->
  mapS f (pre ++ x :: post) s = Err e.
Proof.
  revert s pre'. induction pre as [|p pre IH]; intros s pre' Hp Hx.
  - injection Hp as <- <-. simpl. rewrite Hx. reflexivity.
  - simpl in Hp. simpl. destruct (f p s) as [[y s0]|]; cbn [bindR] in *;
      [|discriminate Hp].
    destruct (mapS f pre s0) as [[ys s2]|] eqn:E; cbn [bindR] in Hp;
      [|discriminate Hp].
    injection Hp as <- <-. rewrite (IH _ _ E Hx). reflexivity.
Qed.

Lemma combine_app {A B} (l1 l2 : list A) (r1 r2 : list B) :
  List.length l1 = List.length r1 ->
  combine (l1 ++ l2) (r1 ++ r2) = (combine l1 r1 ++ combine l2 r2)%list.
Proof.
  revert r1. induction l1 as [|a l1 IH]; intros [|b r1] H; try discriminate H;
    [reflexivity|].
  simpl. f_equal. apply IH. injection H as H. exact H.
Qed.

(** X19.  In a row without insert-column list, a value that is a CAST whose
    type is not the type of its column is refused with the error code of a
    numeric value out of range, once the values before it have been
    validated (here: values that the binder leaves as they are), whatever
    is under the CAST. *)
Theorem ValidateAndCorrectInsertValues_cast_mismatch
  (node : InsertStatement) (pre post : list AbstractExpression)
  (val : AbstractExpression) (cpre cpost : list Column) (col : Column)
  (table_schema : Schema) (v : BindNodeVisitor) :
  GetInsertColumns node = [] ->
  GetColumns table_schema = (cpre ++ col :: cpost)%list ->
  List.length pre = List.length cpre ->
  List.length post = List.length cpost ->
  (forall p, In p pre -> settled Accept p) ->
  GetExpressionType val = OPERATOR_CAST ->
  GetReturnValueType val <> Type_ col ->
  ValidateAndCorrectInsertValues Accept ExprEq node (pre ++ val :: post)%list
    table_schema v =
  Err (BinderException
         "BindNodeVisitor tried to cast, but cast result type does not match the schema."
         ERRCODE_NUMERIC_VALUE_OUT_OF_RANGE) /\
  fails_with
    (ValidateAndCorrectInsertValues Accept ExprEq node (pre ++ val :: post)%list
       table_schema v)
    NumericValueOutOfRange.
Proof.
  intros Hc Hcols Hpre Hpost Hs Ht Hne.
  assert (E : ValidateAndCorrectInsertValues Accept ExprEq node
                (pre ++ val :: post)%list table_schema v =
              Err (BinderException
                     "BindNodeVisitor tried to cast, but cast result type does not match the schema."
                     ERRCODE_NUMERIC_VALUE_OUT_OF_RANGE)).
  { unfold ValidateAndCorrectInsertValues. cbv zeta. rewrite Hc, Hcols.
    cbn [List.length Nat.eqb negb andb orb].
    assert (Hlen : List.length (pre ++ val :: post)%list
                   = List.length (cpre ++ col :: cpost)%list).
    { rewrite !length_app. cbn [List.length]. lia. }
    rewrite Hlen, Nat.eqb_refl. cbn [negb bindR].
    rewrite <- Hlen at 1. rewrite Hlen, firstn_all.
    rewrite combine_app by (symmetry; exact Hpre). cbn [combine].
    destruct (insert_facts.validate_all_settled Accept (combine cpre pre)) with (v := v)
      as [v1 Ev].
    { intros p Hp. apply Hs. destruct p as [c x]. apply in_combine_r in Hp. exact Hp. }
    eapply mapS_app_failure; [exact Ev|].
    unfold validate_entry. cbn [fst snd]. cbv zeta. rewrite Ht.
    replace (ExpressionType_eqb OPERATOR_CAST VALUE_DEFAULT) with false by reflexivity.
    cbv beta iota. rewrite Ht.
    replace (ExpressionType_eqb OPERATOR_CAST OPERATOR_CAST) with true by reflexivity.
    replace (SqlTypeId.eqb (GetReturnValueType val) (Type_ col)) with false.
    - reflexivity.
    - symmetry. unfold SqlTypeId.eqb.
      destruct (SqlTypeId.eq_dec (GetReturnValueType val) (Type_ col));
        [contradiction|reflexivity]. }
  split; [exact E|]. rewrite E. eexists. split; reflexivity.
Qed.

(** *** The table and the columns of an INSERT *)

Lemma mapR_check_fails {A} (f : A -> result unit) (xs : list A) (x : A)
  (e : Exception) :
  (forall y, f y = Ok tt \/ f y = Err e) -> In x xs -> f x = Err e ->
  mapR f xs = Err e.
Proof.
  intros Hf. induction xs as [|y xs IH]; intros Hin Hx; [destruct Hin|].
  simpl. destruct (Hf y) as [Hy|Hy]; rewrite Hy; cbn [bindR]; [|reflexivity].
  destruct Hin as [->|Hin]; [congruence|]. rewrite (IH Hin Hx). reflexivity.
Qed.

Lemma InitTableRef_info (node : TableRef) :
  exists info, GetTableInfo (InitTableRef node) = Some info /\
               (forall i, GetTableInfo node = Some i -> info = i) /\
               (GetTableInfo node = None ->
                info = {| table_name_ := ""; namespace_name_ := "";
                          database_name_ := "" |}) /\
               GetTableAlias (InitTableRef node) = GetTableAlias node.
Proof.
  destruct node as [a [i|] s c ct l j]; simpl.
  - exists i. split; [reflexivity|]. split.
    + intros i' H. injection H as <-. reflexivity.
    + split; [discriminate|reflexivity].
  - eexists. split; [reflexivity|]. split; [discriminate|].
    split; reflexivity.
Qed.

(** The table reference of the statement that the visit returns is the
    one that [InitTableRef] has written to. *)
Lemma Visit_InsertStatement_table (node node' : InsertStatement)
  (v v' : BindNodeVisitor) :
  Visit_InsertStatement Accept ExprEq VisitSelectStatement TableMapping node v
  = Ok (node', v') ->
  GetInsertionTable node' = InitTableRef (GetInsertionTable node) /\
  exists info,
    GetTableInfo (InitTableRef (GetInsertionTable node)) = Some info /\
    ValidateDatabaseName v (database_name_ info) = Ok tt.
Proof.
  unfold Visit_InsertStatement. cbv zeta.
  change (GetInsertionTable
            (SetInsertionTable node (InitTableRef (GetInsertionTable node))))
    with (InitTableRef (GetInsertionTable node)).
  intros H.
  destruct (GetTableInfo (InitTableRef (GetInsertionTable node))) as [info|];
    cbn [deref bindR] in H; [|discriminate H].
  destruct (ValidateDatabaseName v (database_name_ info)) as [[]|] eqn:Ed;
    cbn [bindR] in H; [|discriminate H].
  destruct (TableMapping v info _) as [table_schema|]; cbn [bindR] in H;
    [|discriminate H].
  destruct (mapR _ _); cbn [bindR] in H; [|discriminate H].
  split; [|exists info; split; [reflexivity|exact Ed]].
  destruct (GetInsertSelect _) as [select|].
  - destruct (VisitSelectStatement select v) as [[select1 v1]|];
      cbn [bindR] in H; [|discriminate H].
    destruct (ValidateAndCorrectInsertValues _ _ _ _ _ _) as [[cols v2]|];
      cbn [bindR] in H; [|discriminate H].
    injection H as <- _. reflexivity.
  - destruct (mapS _ _ _) as [[rows v1]|]; cbn [bindR] in H; [|discriminate H].
    injection H as <- _. reflexivity.
Qed.

(** X20.  [Visit(InsertStatement)] checks the table before any value.  When
    it returns, the table reference of the returned statement carries a
    table information under the alias it had: the one the statement came
    with, or, when it came with none, the empty one that [InitTableRef]
    writes into it; and [ValidateDatabaseName] has accepted its database
    name.  A database name that [ValidateDatabaseName] refuses ends the
    binding with its exception; and when the schema of the table has been
    found, an insert-column list with a name that is not a column of the
    schema is refused with the undefined-column error "Insert column does
    not exist", whatever the values are. *)
Theorem Visit_InsertStatement_checks (node : InsertStatement) (v : BindNodeVisitor) :
  exists info,
    (forall i, GetTableInfo (GetInsertionTable node) = Some i -> info = i) /\
    (GetTableInfo (GetInsertionTable node) = None ->
     info = {| table_name_ := ""; namespace_name_ := ""; database_name_ := "" |}) /\
    (forall node' v',
       Visit_InsertStatement Accept ExprEq VisitSelectStatement TableMapping node v
       = Ok (node', v') ->
       GetTableInfo (GetInsertionTable node') = Some info /\
       GetTableAlias (GetInsertionTable node') = GetTableAlias (GetInsertionTable node) /\
       ValidateDatabaseName v (database_name_ info) = Ok tt) /\
    (forall e,
       ValidateDatabaseName v (database_name_ info) = Err e ->
       Visit_InsertStatement Accept ExprEq VisitSelectStatement TableMapping node v
       = Err e) /\
    (forall table_schema col,
       ValidateDatabaseName v (database_name_ info) = Ok tt ->
       TableMapping v info (GetTableAlias (GetInsertionTable node))
       = Ok table_schema ->
       In col (GetInsertColumns node) ->
       ColumnInSchema table_schema col = false ->
       Visit_InsertStatement Accept ExprEq VisitSelectStatement TableMapping node v
       = Err (BinderException "Insert column does not exist" ERRCODE_UNDEFINED_COLUMN)
       /\
       fails_with
         (Visit_InsertStatement Accept ExprEq VisitSelectStatement TableMapping node v)
         UndefinedColumn).
Proof.
  destruct (InitTableRef_info (GetInsertionTable node))
    as [info [Hi [Hsame [Hnone Halias]]]].
  exists info. split; [exact Hsame|]. split; [exact Hnone|]. split; [|split].
  - intros node' v' H.
    destruct (Visit_InsertStatement_table _ _ _ _ H) as [Ht [info' [Hi' Hd]]].
    rewrite Hi in Hi'. injection Hi' as <-.
    rewrite Ht, Hi, Halias. repeat split; [exact Hd].
  - intros e He. unfold Visit_InsertStatement. cbv zeta.
    change (GetInsertionTable
              (SetInsertionTable node (InitTableRef (GetInsertionTable node))))
      with (InitTableRef (GetInsertionTable node)).
    rewrite Hi. cbn [deref bindR].
    rewrite He. reflexivity.
  - intros table_schema col Hdb Hmap Hin Hcol.
    assert (E : Visit_InsertStatement Accept ExprEq VisitSelectStatement TableMapping
                  node v
                = Err (BinderException "Insert column does not exist"
                         ERRCODE_UNDEFINED_COLUMN)).
    { unfold Visit_InsertStatement. cbv zeta.
      change (GetInsertionTable
                (SetInsertionTable node (InitTableRef (GetInsertionTable node))))
        with (InitTableRef (GetInsertionTable node)).
      change (GetInsertColumns
                (SetInsertionTable node (InitTableRef (GetInsertionTable node))))
        with (GetInsertColumns node).
      rewrite Hi. cbn [deref bindR].
      rewrite Hdb. cbn [bindR]. rewrite Halias, Hmap. cbn [bindR].
      erewrite mapR_check_fails; [reflexivity| |exact Hin|].
      - intros y. cbv beta. destruct (ColumnInSchema table_schema y); [left|right];
          reflexivity.
      - cbv beta. rewrite Hcol. reflexivity. }
    split; [exact E|]. rewrite E. eexists. split; reflexivity.
Qed.

End InsertChecks.

(** [INSERT INTO t (a) VALUES (1, 2)]. *)
Lemma ValidateAndCorrectInsertValues_counts_witness :
  ValidateAndCorrectInsertValues Accept_unchanged ConstantEq insert_a_only
    [IntegerConstant 1; IntegerConstant 2] schema_t sample_visitor =
  Err (BinderException
         "Mismatch in number of insert columns and number of insert values."
         ERRCODE_SYNTAX_ERROR).
Proof.
  apply (proj1 (ValidateAndCorrectInsertValues_counts Accept_unchanged ConstantEq
                  insert_a_only [IntegerConstant 1; IntegerConstant 2] schema_t
                  sample_visitor)).
  left. split; discriminate.
Defined.

(** [INSERT INTO t (b, a) VALUES (2, 1)] binds to a row of two values in
    the order of the schema. *)
Lemma ValidateAndCorrectInsertValues_schema_order_witness :
  exists row v',
    ValidateAndCorrectInsertValues Accept_unchanged ConstantEq insert_b_a
      [IntegerConstant 2; IntegerConstant 1] schema_t sample_visitor
    = Ok (row, v') /\
    List.length row = List.length (GetColumns schema_t) /\
    forall j c,
      nth_error (GetColumns schema_t) j = Some c ->
      exists val,
        nth_error row j = Some val /\
        row_value ConstantEq (GetInsertColumns insert_b_a)
          [IntegerConstant 2; IntegerConstant 1] c val.
Proof.
  apply (ValidateAndCorrectInsertValues_schema_order Accept_unchanged ConstantEq
           insert_b_a [IntegerConstant 2; IntegerConstant 1] schema_t sample_visitor).
  - discriminate.
  - reflexivity.
  - intros c [<-|[<-|[]]]; eexists; left; reflexivity.
  - intros c val [<-|[<-|[]]] [H|[[H _]|[H _]]];
      try (exfalso; apply H; simpl; tauto);
      injection H as <-; (split; [discriminate|]); (split; [discriminate|]);
      intros v0; eexists; reflexivity.
Defined.

(** [INSERT INTO t VALUES (1, CAST(2 AS VARCHAR))] into an integer column. *)
Lemma ValidateAndCorrectInsertValues_cast_mismatch_witness :
  fails_with
    (ValidateAndCorrectInsertValues Accept_unchanged ConstantEq insert_cast_varchar
       ([IntegerConstant 1] ++ Cast SqlTypeId.Varchar (IntegerConstant 2) :: [])%list
       schema_t sample_visitor)
    NumericValueOutOfRange.
Proof.
  refine (proj2 (ValidateAndCorrectInsertValues_cast_mismatch Accept_unchanged
                   ConstantEq insert_cast_varchar [IntegerConstant 1] []
                   (Cast SqlTypeId.Varchar (IntegerConstant 2))
                   [int_not_null "a" 1%N] [] (int_not_null "b" 2%N) schema_t
                   sample_visitor eq_refl eq_refl eq_refl eq_refl _ _ _)).
  - intros p [<-|[]]. split; [discriminate|]. split; [discriminate|].
    intros v0. eexists. reflexivity.
  - reflexivity.
  - discriminate.
Defined.

(** [INSERT INTO t (a, c) VALUES (1, 2)]: [t] has no column [c].
    [INSERT INTO t VALUES (1, 2)] binds, and the bound statement names the
    table [t]. *)
Lemma Visit_InsertStatement_checks_witness :
  fails_with
    (Visit_InsertStatement Accept_unchanged ConstantEq no_select (mapping_of schema_t)
       insert_a_c sample_visitor)
    UndefinedColumn /\
  match Visit_InsertStatement Accept_unchanged ConstantEq no_select
          (mapping_of schema_t) insert_1_2 sample_visitor with
  | Ok (node', _) =>
      GetTableInfo (GetInsertionTable node') =
      Some {| table_name_ := "t"; namespace_name_ := ""; database_name_ := "" |}
  | Err _ => False
  end.
Proof.
  split.
  - destruct (Visit_InsertStatement_checks Accept_unchanged ConstantEq no_select
                (mapping_of schema_t) insert_a_c sample_visitor)
      as [info [Hi [_ [_ [_ H]]]]].
    rewrite (Hi _ eq_refl) in H.
    apply (H schema_t "c" eq_refl eq_refl).
    + right. left. reflexivity.
    + reflexivity.
  - destruct (Visit_InsertStatement_checks Accept_unchanged ConstantEq no_select
                (mapping_of schema_t) insert_1_2 sample_visitor)
      as [info [Hi [_ [H _]]]].
    rewrite (Hi _ eq_refl) in H.
    destruct (Visit_InsertStatement Accept_unchanged ConstantEq no_select
                (mapping_of schema_t) insert_1_2 sample_visitor)
      as [[node' v']|e] eqn:E.
    + exact (proj1 (H node' v' eq_refl)).
    + vm_compute in E. discriminate E.
Defined.

End binding_facts.

(* ===================================================================== *)
(** ** The keys of an equi-join ([OptimizerUtil::ExtractEquiJoinKeys]) *)
(* ===================================================================== *)

Module util_facts.
Import optimizer OptimizerUtil.

Lemma ExtractEquiJoinKeys_predicate_spec left_alias right_alias left_keys right_keys
  expr_unit left_keys' right_keys' :
  ExtractEquiJoinKeys_predicate left_alias right_alias (left_keys, right_keys) expr_unit
  = Ok (left_keys', right_keys') ->
  (left_keys' = left_keys /\ right_keys' = right_keys) \/
  (exists l r,
     left_keys' = (left_keys ++ [l])%list /\ right_keys' = (right_keys ++ [r])%list /\
     equates [expr_unit] l r /\ sided left_alias right_alias l r).
Proof.
  unfold ExtractEquiJoinKeys_predicate. cbv zeta. intros H.
  destruct (ExpressionType_eqb (GetExpressionType (expr_ expr_unit)) COMPARE_EQUAL)
    eqn:Eq.
  2:{ injection H as <- <-. left. split; reflexivity. }
  apply predicate_facts.ExpressionType_eqb_true in Eq.
  destruct (GetChild (expr_ expr_unit) 0) as [l|] eqn:El; cbn [bindR] in H;
    [|discriminate H].
  destruct (GetChild (expr_ expr_unit) 1) as [r|] eqn:Er; cbn [bindR] in H;
    [|discriminate H].
  destruct (ExpressionType_eqb (GetExpressionType l) COLUMN_VALUE) eqn:Tl;
    cbn [andb] in H.
  2:{ injection H as <- <-. left. split; reflexivity. }
  destruct (ExpressionType_eqb (GetExpressionType r) COLUMN_VALUE) eqn:Tr.
  2:{ injection H as <- <-. left. split; reflexivity. }
  apply predicate_facts.ExpressionType_eqb_true in Tl, Tr.
  destruct (GetTableAliasOf l) as [la|] eqn:Al; cbn [bindR] in H; [|discriminate H].
  destruct (GetTableAliasOf r) as [ra|] eqn:Ar; cbn [bindR] in H; [|discriminate H].
  destruct (left_alias la && right_alias ra)%bool eqn:B1.
  { injection H as <- <-. apply andb_prop in B1. destruct B1 as [B1 B2].
    right. exists l, r. split; [reflexivity|]. split; [reflexivity|]. split.
    - exists expr_unit. split; [left; reflexivity|]. split; [exact Eq|].
      left. split; assumption.
    - split; [exact Tl|]. split; [exact Tr|]. exists la, ra. repeat split; assumption. }
  destruct (left_alias ra && right_alias la)%bool eqn:B2.
  { injection H as <- <-. apply andb_prop in B2. destruct B2 as [B2 B3].
    right. exists r, l. split; [reflexivity|]. split; [reflexivity|]. split.
    - exists expr_unit. split; [left; reflexivity|]. split; [exact Eq|].
      right. split; assumption.
    - split; [exact Tr|]. split; [exact Tl|]. exists ra, la. repeat split; assumption. }
  injection H as <- <-. left. split; reflexivity.
Qed.

Lemma equates_weaken p ps l r : equates ps l r -> equates (p :: ps) l r.
Proof.
  intros [u [Hu H]]. exists u. split; [right; exact Hu|exact H].
Qed.

Lemma equates_head p ps l r : equates [p] l r -> equates (p :: ps) l r.
Proof.
  intros [u [[<-|[]] H]]. exists p. split; [left; reflexivity|exact H].
Qed.

(** X21.  When [ExtractEquiJoinKeys] returns, it has only appended to the
    two vectors of keys, the same number of keys to each and at most one
    per join predicate; the keys appended at the same position are the two
    operands of an equality among the join predicates, both column values,
    the left key of a table of the left alias set and the right key of a
    table of the right alias set (the operands are swapped when the
    equality is written the other way round). *)
Theorem ExtractEquiJoinKeys_pairs (join_predicates : list AnnotatedExpression)
  (left_alias right_alias : AliasType -> bool) :
  forall (left_keys right_keys left_keys' right_keys' : list AbstractExpression),
    ExtractEquiJoinKeys join_predicates left_keys right_keys left_alias right_alias
    = Ok (left_keys', right_keys') ->
    exists ls rs,
      left_keys' = (left_keys ++ ls)%list /\
      right_keys' = (right_keys ++ rs)%list /\
      List.length ls = List.length rs /\
      (List.length ls <= List.length join_predicates)%nat /\
      Forall2 (fun l r => equates join_predicates l r /\
                          sided left_alias right_alias l r) ls rs.
Proof.
  induction join_predicates as [|p ps IH]; intros lk rk lk' rk' H.
  - injection H as <- <-. exists [], []. rewrite !app_nil_r.
    repeat split; try reflexivity. constructor.
  - cbn [ExtractEquiJoinKeys] in H.
    destruct (ExtractEquiJoinKeys_predicate left_alias right_alias (lk, rk) p)
      as [[lk1 rk1]|] eqn:E; cbn [bindR] in H; [|discriminate H].
    destruct (IH _ _ _ _ H) as [ls [rs [-> [-> [Hl [Hn F]]]]]].
    assert (F' : Forall2 (fun l r => equates (p :: ps) l r /\
                                     sided left_alias right_alias l r) ls rs).
    { eapply Forall2_impl; [|exact F]. intros l r [A B].
      split; [apply equates_weaken; exact A|exact B]. }
    destruct (ExtractEquiJoinKeys_predicate_spec _ _ _ _ _ _ _ E)
      as [[-> ->]|[l [r [-> [-> [He Hs]]]]]].
    + exists ls, rs. repeat split; try assumption; try reflexivity.
      cbn [List.length]. lia.
    + exists (l :: ls), (r :: rs). rewrite <- !app_assoc. cbn [app List.length].
      repeat split; try reflexivity; try lia.
      constructor; [|exact F']. split; [apply equates_head; exact He|exact Hs].
Qed.

(** [s.b = t.a] for the join of [t] with [s]: the left key is [t.a], the
    right key [s.b]. *)
Lemma ExtractEquiJoinKeys_pairs_witness :
  exists ls rs,
    [optimizer_props.qualified_column "t" "a"] = ([] ++ ls)%list /\
    [optimizer_props.qualified_column "s" "b"] = ([] ++ rs)%list /\
    List.length ls = List.length rs /\
    (List.length ls <= List.length [s_b_equals_t_a])%nat /\
    Forall2 (fun l r => equates [s_b_equals_t_a] l r /\
                        sided (is_alias "t") (is_alias "s") l r) ls rs.
Proof.
  apply (ExtractEquiJoinKeys_pairs [s_b_equals_t_a] (is_alias "t") (is_alias "s")
           [] [] _ _ eq_refl).
Defined.

End util_facts.
